(** * game-builder: the asset pipeline and the simulation engine

    A shallow embedding of [python_backend/asset_manager.py] and
    [python_backend/game_engine.py], and of the endpoints of
    [python_backend/main.py] that drive them.

    - JSON dictionaries are records whose fields are [option]s: a key that is
      absent is [None], and [d.get(k, v)] is [default v (k d)].
    - Python [str] is [string] (bytes); [lower] is the ASCII lower-casing,
      which is [str.lower()] on a string of ASCII characters.
    - Python [float] is the kernel's binary64 [float]; the small [int]
      constants that only ever enter float arithmetic (50, 100, 10, ...) are
      written as floats, which is what the interpreter converts them to.
    - [score], [health] and [points] are Python [int]s: [Z].
    - A raised exception is [None] or [false]; where the state mutated before
      the raise stays visible to callers, the state is returned next to it.
    - [int(x)] on a float is [int_of_float]: it raises on an infinity and on
      a NaN.
    - Libraries (hashlib, requests, PIL, pygame, pymunk, [int(s, 16)]) are
      [Variable]s of the sections that use them; where a library call can
      raise, the [Variable] says whether it does. *)

From Stdlib Require Import ZArith String Ascii List Floats Uint63 Lia Bool.
From stdpp Require Import gmap strings list pretty.

Import ListNotations.
Open Scope string_scope.

(** ** Python strings *)

(** [s.lower()], for a string of ASCII characters (see [is_ascii]): the
    letters A-Z are folded and every other byte is kept. On other strings
    Python folds by Unicode, which no statement here relies on: the tests
    [_create_entities] makes of it look for 'enemy', whose letters no other
    character folds to, and the statement about [handle_game_input] is
    about ASCII keys. *)
Definition lower_ascii (c : ascii) : ascii :=
  let n := nat_of_ascii c in
  if (65 <=? n)%nat && (n <=? 90)%nat then ascii_of_nat (n + 32) else c.

Fixpoint lower (s : string) : string :=
  match s with
  | EmptyString => EmptyString
  | String c s' => String (lower_ascii c) (lower s')
  end.

(** [s.startswith(p)] *)
Fixpoint startswith (p s : string) : bool :=
  match p, s with
  | EmptyString, _ => true
  | String a p', String b s' => if decide (a = b) then startswith p' s' else false
  | String _ _, EmptyString => false
  end.

(** [p in s] on strings: [p] occurs in [s] as a substring. *)
Fixpoint str_in (p s : string) : bool :=
  startswith p s ||
  match s with
  | EmptyString => false
  | String _ s' => str_in p s'
  end.

(** [s[i:j]], for [0 <= i <= j]. *)
Definition slice (i j : nat) (s : string) : string := substring i (j - i) s.

(** [s[1:]] *)
Definition tail1 (s : string) : string :=
  match s with
  | EmptyString => EmptyString
  | String _ s' => s'
  end.

(** [tuple(int(color[i:i+2], 16) for i in (0, 2, 4))], with [int(s, 16)]
    as [int16]; [None] is its [ValueError]. *)
Definition hex_triple (int16 : string -> option Z) (color : string)
  : option (Z * Z * Z) :=
  match int16 (slice 0 2 color), int16 (slice 2 4 color), int16 (slice 4 6 color) with
  | Some r, Some g, Some b => Some (r, g, b)
  | _, _, _ => None
  end.

(** [float(n)] for a Python [int] below 2^63 in absolute value. *)
Definition float_of_Z (z : Z) : float :=
  if (z <? 0)%Z then (- of_uint63 (Uint63.of_Z (- z)))%float
  else of_uint63 (Uint63.of_Z z).

(** [int(x)] for a Python [float]: the truncation towards zero; [None] is
    the [OverflowError] of an infinity or the [ValueError] of a NaN. *)
Definition int_of_float (x : float) : option Z :=
  match Prim2SF x with
  | S754_zero _ => Some 0%Z
  | S754_infinity _ | S754_nan => None
  | S754_finite sign m e =>
      let a := if (0 <=? e)%Z then (Z.pos m * 2 ^ e)%Z else (Z.pos m / 2 ^ (- e))%Z in
      Some (if sign then (- a)%Z else a)
  end.

(** A string of ASCII characters: on such a string [str.lower()] is
    [lower]. *)
Definition is_ascii (s : string) : bool :=
  forallb (fun c => (nat_of_ascii c <? 128)%nat) (list_ascii_of_string s).

(** ** The game description (JSON) *)

Record Entity := {
  e_name : option string;
  e_type : option string;
  e_x : option float;
  e_y : option float;
  e_width : option float;
  e_height : option float;
  e_color : option string
}.

Record PlatformData := {
  p_x : option float;
  p_y : option float;
  p_width : option float;
  p_height : option float;
  p_color : option string
}.

Record CollectibleData := {
  c_x : option float;
  c_y : option float;
  c_width : option float;
  c_height : option float;
  c_points : option Z
}.

Record Level := {
  l_platforms : list PlatformData;
  l_collectibles : list CollectibleData
}.

(** [entities] absent and [entities = []] behave alike everywhere, so the
    field is a list; [levels] absent and [levels = []] differ in the engine,
    so that field is an [option]. *)
Record GameData := {
  g_title : option string;
  g_gameType : option string;
  g_theme : option string;
  g_artStyle : option string;
  g_entities : list Entity;
  g_levels : option (list Level)
}.

(** ** config.py (the values of config.example.py) *)

Record Config := {
  MAX_DALLE_REQUESTS_PER_GAME : nat;
  GAME_WIDTH : Z;
  GAME_HEIGHT : Z;
  ASSET_CACHE_DIR : string;
  SPRITE_SIZE : nat;
  BACKGROUND_SIZE : nat * nat;
  GRAVITY : float;
  FRICTION : float;
  JUMP_FORCE : float;
  MOVE_SPEED : float
}.

Definition example_config : Config := {|
  MAX_DALLE_REQUESTS_PER_GAME := 5;
  GAME_WIDTH := 800;
  GAME_HEIGHT := 600;
  ASSET_CACHE_DIR := "cached_assets";
  SPRITE_SIZE := 32;
  BACKGROUND_SIZE := (800, 600)%nat;
  GRAVITY := 981%float;
  FRICTION := 0x1.6666666666666p-1%float;  (* 0.7 *)
  JUMP_FORCE := (-500)%float;
  MOVE_SPEED := 200%float
|}.

(** [os.path.join(dir, f"{key}.png")] *)
Definition png_path (dir key : string) : string := dir ++ "/" ++ key ++ ".png".

(** * asset_manager.py *)

Module Assets.

Record AssetInfo := {
  a_name : string;
  a_type : string;
  a_prompt : string;
  a_size : nat * nat
}.

(** What one pass through the [try] block of [_generate_dalle_asset] can do,
    in the order of its statements. *)
Inductive DalleOutcome :=
| PostRaises                (* requests.post raises (timeout, transport) *)
| BadStatus                 (* response.status_code != 200 *)
| BadPayload                (* 200, but json / b64decode / Image.open raises *)
| SaveImageFails            (* image.save(asset_path) raises *)
| SaveIndexFails            (* the image is saved, self.save_cache() raises *)
| Stored.                   (* everything succeeds *)

(** The manager's attributes, with the part of the world it touches: the
    files that exist under the cache directory and the number of requests
    posted so far. *)
Record Manager := {
  asset_cache : gmap string string;
  dalle_request_count : nat;
  files : gset string;
  api_calls : nat
}.

Definition set_count (n : nat) (m : Manager) : Manager :=
  {| asset_cache := asset_cache m; dalle_request_count := n;
     files := files m; api_calls := api_calls m |}.

Definition set_api_calls (n : nat) (m : Manager) : Manager :=
  {| asset_cache := asset_cache m; dalle_request_count := dalle_request_count m;
     files := files m; api_calls := n |}.

Definition store (key path : string) (m : Manager) : Manager :=
  {| asset_cache := <[key := path]> (asset_cache m);
     dalle_request_count := dalle_request_count m;
     files := {[path]} ∪ files m; api_calls := api_calls m |}.

Definition add_file (path : string) (m : Manager) : Manager :=
  {| asset_cache := asset_cache m; dalle_request_count := dalle_request_count m;
     files := {[path]} ∪ files m; api_calls := api_calls m |}.

Section Pipeline.

Variable cfg : Config.
(** [hashlib.md5(s.encode()).hexdigest()] *)
Variable md5 : string -> string.
(** The outcome of the [n]-th request posted (counted from 1). *)
Variable dalle : nat -> AssetInfo -> DalleOutcome.
(** [int(s, 16)]; [None] is [ValueError]. *)
Variable int16 : string -> option Z.
(** Whether [image.save(path)] of a fallback image succeeds. *)
Variable save_ok : string -> bool.

Definition get_cache_key (prompt asset_type : string) : string :=
  md5 (prompt ++ "_" ++ asset_type ++ "_" ++ pretty (SPRITE_SIZE cfg)).

Definition theme_of (g : GameData) : string := default "fantasy" (g_theme g).
Definition art_style_of (g : GameData) : string := default "pixel" (g_artStyle g).
Definition game_type_of (g : GameData) : string := default "platformer" (g_gameType g).

Definition _create_player_prompt (entity : Entity) (g : GameData) : string :=
  let base_prompt :=
    art_style_of g ++ " art style, " ++ theme_of g ++ " theme, mobile game sprite" in
  if decide (game_type_of g = "racing") then
    base_prompt ++ ", top-down racing car, sleek design, bright colors, Formula 1 style, detailed wheels, transparent background, 32x32 pixels"
  else if decide (game_type_of g = "flappy") then
    base_prompt ++ ", cute flying bird character, colorful feathers, expressive eyes, wings spread, cartoon style, transparent background, 32x32 pixels"
  else if decide (game_type_of g = "shooter") then
    base_prompt ++ ", futuristic spaceship, detailed hull, engine thrusters, sci-fi design, metallic finish, transparent background, 32x32 pixels"
  else
    base_prompt ++ ", heroic character, detailed armor, determined expression, action pose, RPG quality, transparent background, 32x32 pixels".

Definition _create_background_prompt (level : Level) (g : GameData) : string :=
  let base_prompt :=
    art_style_of g ++ " art style, " ++ theme_of g ++ " theme, mobile game background" in
  if decide (game_type_of g = "racing") then
    base_prompt ++ ", professional racing track, asphalt surface, white lane markings, grandstands, aerial view, detailed track, 800x600 resolution"
  else if decide (game_type_of g = "flappy") then
    base_prompt ++ ", beautiful sky environment, fluffy clouds, gradient blue sky, distant mountains, parallax layers, bright atmosphere, 800x600 resolution"
  else if decide (game_type_of g = "shooter") then
    base_prompt ++ ", deep space environment, star field, nebulae, cosmic dust, sci-fi atmosphere, 800x600 resolution"
  else
    base_prompt ++ ", detailed platformer environment, lush forest, rocky platforms, atmospheric lighting, adventure game quality, 800x600 resolution".

Definition _create_enemy_prompt (entity : Entity) (g : GameData) : string :=
  art_style_of g ++ " art style, " ++ theme_of g ++ " theme, enemy creature, menacing appearance, detailed features, hostile design, video game quality, transparent background, 32x32 pixels".

Definition _create_collectible_prompt (c : CollectibleData) (g : GameData) : string :=
  art_style_of g ++ " art style, " ++ theme_of g ++ " theme, collectible item, shiny treasure, magical glow, valuable object, game pickup, transparent background, 24x24 pixels".

Definition _create_platform_prompt (p : PlatformData) (g : GameData) : string :=
  art_style_of g ++ " art style, " ++ theme_of g ++ " theme, platform texture, tileable surface, detailed texture, game environment, seamless tile, 64x32 pixels".

(** The first entity whose type is ['player']. *)
Definition find_player (es : list Entity) : option Entity :=
  head (filter (fun e => e_type e = Some "player") es).

Definition is_enemy_name (e : Entity) : bool :=
  str_in "enemy" (lower (default "" (e_name e))).

Definition levels_of (g : GameData) : list Level := default [] (g_levels g).

(** The candidates before truncation; [None] is the [KeyError] of
    [player_entity['name']] on a player that has no name. *)
Definition priority_candidates (g : GameData) : option (list AssetInfo) :=
  let sprite := (SPRITE_SIZE cfg, SPRITE_SIZE cfg) in
  let player_part :=
    match find_player (g_entities g) with
    | None => Some []
    | Some p =>
        match e_name p with
        | None => None
        | Some n =>
            Some [ {| a_name := n; a_type := "character";
                      a_prompt := _create_player_prompt p g; a_size := sprite |} ]
        end
    end in
  let background_part :=
    match levels_of g with
    | [] => []
    | level :: _ =>
        [ {| a_name := "background"; a_type := "background";
             a_prompt := _create_background_prompt level g;
             a_size := BACKGROUND_SIZE cfg |} ]
    end in
  let enemy_part :=
    match List.filter is_enemy_name (g_entities g) with
    | [] => []
    | enemy :: _ =>
        [ {| a_name := default "" (e_name enemy); a_type := "character";
             a_prompt := _create_enemy_prompt enemy g; a_size := sprite |} ]
    end in
  let collectible_part :=
    match concat (map l_collectibles (levels_of g)) with
    | [] => []
    | c :: _ =>
        [ {| a_name := "collectible"; a_type := "item";
             a_prompt := _create_collectible_prompt c g; a_size := (24, 24)%nat |} ]
    end in
  let platform_part :=
    match concat (map l_platforms (levels_of g)) with
    | [] => []
    | p :: _ =>
        [ {| a_name := "platform"; a_type := "tile";
             a_prompt := _create_platform_prompt p g; a_size := (64, 32)%nat |} ]
    end in
  match player_part with
  | None => None
  | Some pl =>
      Some (pl ++ background_part ++ enemy_part ++ collectible_part ++ platform_part)%list
  end.

Definition _identify_priority_assets (g : GameData) : option (list AssetInfo) :=
  take (MAX_DALLE_REQUESTS_PER_GAME cfg) <$> priority_candidates g.

(** [self.get_cache_key(asset_info['prompt'], asset_info['type'])] *)
Definition cache_key_of (info : AssetInfo) : string :=
  get_cache_key (a_prompt info) (a_type info).

(** [os.path.join(self.cache_dir, f"{cache_key}.png")] *)
Definition cache_path (info : AssetInfo) : string :=
  png_path (ASSET_CACHE_DIR cfg) (cache_key_of info).

(** Returns the path ([None] is Python's [None]) and the manager after. *)
Definition _generate_dalle_asset (info : AssetInfo) (m : Manager)
  : option string * Manager :=
  let cache_key := cache_key_of info in
  let path := cache_path info in
  if bool_decide (is_Some (asset_cache m !! cache_key)) && bool_decide (path ∈ files m)
  then (Some path, m)
  else
    let n := S (api_calls m) in
    let m1 := set_api_calls n m in
    match dalle n info with
    | PostRaises | BadStatus | BadPayload | SaveImageFails => (None, m1)
    | SaveIndexFails => (None, store cache_key path m1)
    | Stored => (Some path, store cache_key path m1)
    end.

(** The loop of step 2. *)
Fixpoint generate_priority (reqs : list AssetInfo) (assets : gmap string string)
    (m : Manager) : gmap string string * Manager :=
  match reqs with
  | [] => (assets, m)
  | info :: rest =>
      if (MAX_DALLE_REQUESTS_PER_GAME cfg <=? dalle_request_count m)%nat
      then (assets, m)
      else
        match _generate_dalle_asset info m with
        | (Some asset_path, m1) =>
            generate_priority rest (<[a_name info := asset_path]> assets)
              (set_count (S (dalle_request_count m1)) m1)
        | (None, m1) => generate_priority rest assets m1
        end
  end.

(** [None] is the [KeyError] of [entity['name']]. *)
Fixpoint _get_remaining_entities (es : list Entity) (generated : gmap string string)
  : option (list Entity) :=
  match es with
  | [] => Some []
  | e :: rest =>
      match e_name e with
      | None => None
      | Some n =>
          match _get_remaining_entities rest generated with
          | None => None
          | Some r =>
              Some (if bool_decide (is_Some (generated !! n)) then r else e :: r)
          end
      end
  end.

Definition fallback_path (name color : string) : string :=
  png_path (ASSET_CACHE_DIR cfg) ("fallback_" ++ name ++ "_" ++ color).

(** [None] is a raised exception: no name, a colour that is not hexadecimal,
    or a failed write. *)
Definition _create_fallback_asset (entity : Entity) (m : Manager)
  : option string * Manager :=
  match e_name entity with
  | None => (None, m)
  | Some name =>
      let color := default "#4A90E2" (e_color entity) in
      let asset_path := fallback_path name color in
      if bool_decide (asset_path ∈ files m) then (Some asset_path, m)
      else
        let rgb :=
          if startswith "#" color then hex_triple int16 (tail1 color)
          else Some (74, 144, 226)%Z in
        match rgb with
        | None => (None, m)
        | Some _ =>
            if save_ok asset_path then (Some asset_path, add_file asset_path m)
            else (None, m)
        end
  end.

(** The loop of step 3. *)
Fixpoint generate_fallbacks (remaining : list Entity) (assets : gmap string string)
    (m : Manager) : option (gmap string string) * Manager :=
  match remaining with
  | [] => (Some assets, m)
  | entity :: rest =>
      match _create_fallback_asset entity m, e_name entity with
      | (Some fallback, m1), Some n =>
          generate_fallbacks rest (<[n := fallback]> assets) m1
      | (_, m1), _ => (None, m1)
      end
  end.

Definition generate_game_assets (g : GameData) (m : Manager)
  : option (gmap string string) * Manager :=
  let m0 := set_count 0 m in
  match _identify_priority_assets g with
  | None => (None, m0)
  | Some priority_requests =>
      let '(assets, m1) := generate_priority priority_requests ∅ m0 in
      match _get_remaining_entities (g_entities g) assets with
      | None => (None, m1)
      | Some remaining => generate_fallbacks remaining assets m1
      end
  end.

(** ** Vocabulary of the statements about the pipeline *)

(** A cache hit: the index holds the key and the artifact exists. *)
Definition cache_hit (info : AssetInfo) (m : Manager) : Prop :=
  is_Some (asset_cache m !! cache_key_of info) /\ cache_path info ∈ files m.

(** [p] is the cached or generated image of a candidate named [n]. *)
Definition priority_image (reqs : list AssetInfo) (n p : string) : Prop :=
  exists info, info ∈ reqs /\ a_name info = n /\ p = cache_path info.

(** [p] is the fallback image of an entity named [n]. *)
Definition fallback_image (es : list Entity) (n p : string) : Prop :=
  exists e, e ∈ es /\ e_name e = Some n /\
    p = fallback_path n (default "#4A90E2" (e_color e)).

(** The external call itself failed. *)
Definition call_failed (o : DalleOutcome) : Prop := o = PostRaises \/ o = BadStatus.

(** The colour of [e] is one [_create_fallback_asset] can read. *)
Definition color_parses (e : Entity) : Prop :=
  let color := default "#4A90E2" (e_color e) in
  startswith "#" color = true -> is_Some (hex_triple int16 (tail1 color)).

End Pipeline.

End Assets.

(** * game_engine.py *)

Module Engine.

Inductive GameType := PLATFORMER | RACING | FLAPPY | SHOOTER | TETRIS.

(** [GameType(s)]; [None] is the [ValueError] of a string outside the enum. *)
Definition GameType_of (s : string) : option GameType :=
  if decide (s = "platformer") then Some PLATFORMER
  else if decide (s = "racing") then Some RACING
  else if decide (s = "flappy") then Some FLAPPY
  else if decide (s = "shooter") then Some SHOOTER
  else if decide (s = "tetris") then Some TETRIS
  else None.

Record GameState := {
  score : Z;
  gs_health : Z;
  time : float;
  level : Z;
  lives : Z;
  game_over : bool;
  win : bool
}.

(** [GameState()] *)
Definition GameState_default : GameState := {|
  score := 0; gs_health := 100; time := 0%float; level := 0; lives := 3;
  game_over := false; win := false
|}.

(** A [pygame.Surface]: an image loaded from a path, or one scaled by
    [pygame.transform.scale(src, (w, h))]. *)
Inductive Surface :=
| Loaded (path : string)
| Scaled (src : Surface) (w h : Z).

(** The state of a pymunk body that the engine reads or writes. *)
Record Body := {
  b_x : float;
  b_y : float;
  b_vx : float;
  b_vy : float
}.

(** A static box of the space: centre and size. *)
Record StaticBox := {
  sb_x : float;
  sb_y : float;
  sb_w : float;
  sb_h : float
}.

Record PlayerAttrs := {
  on_ground : bool;
  jump_force : float;
  move_speed : float;
  health : Z;
  can_jump : bool;
  physics_body : option Body       (* [None]: no attribute [physics_body] *)
}.

Record EnemyAttrs := {
  speed : float;
  direction : float;
  patrol_range : float;
  start_x : float
}.

Record CollectibleAttrs := {
  points : Z;
  collected : bool
}.

(** The class of an object, with the attributes the subclass adds. *)
Inductive Kind :=
| KPlayer (p : PlayerAttrs)
| KEnemy (e : EnemyAttrs)
| KCollectible (c : CollectibleAttrs)
| KPlatform (solid : bool).

Record GameObject := {
  o_name : string;
  o_x : float;
  o_y : float;
  o_width : float;
  o_height : float;
  velocity_x : float;
  velocity_y : float;
  color : Z * Z * Z;
  sprite : option Surface;
  active : bool;
  kind : Kind
}.

(** [GameObject.__init__], for the subclass [k]. *)
Definition GameObject_new (k : Kind) (name : string) (x y width height : float)
  : GameObject := {|
  o_name := name; o_x := x; o_y := y; o_width := width; o_height := height;
  velocity_x := 0%float; velocity_y := 0%float; color := (255, 255, 255)%Z;
  sprite := None; active := true; kind := k
|}.

Definition set_pos (x y : float) (o : GameObject) : GameObject := {|
  o_name := o_name o; o_x := x; o_y := y; o_width := o_width o;
  o_height := o_height o; velocity_x := velocity_x o; velocity_y := velocity_y o;
  color := color o; sprite := sprite o; active := active o; kind := kind o
|}.

Definition set_velocity_x (v : float) (o : GameObject) : GameObject := {|
  o_name := o_name o; o_x := o_x o; o_y := o_y o; o_width := o_width o;
  o_height := o_height o; velocity_x := v; velocity_y := velocity_y o;
  color := color o; sprite := sprite o; active := active o; kind := kind o
|}.

Definition set_velocity_y (v : float) (o : GameObject) : GameObject := {|
  o_name := o_name o; o_x := o_x o; o_y := o_y o; o_width := o_width o;
  o_height := o_height o; velocity_x := velocity_x o; velocity_y := v;
  color := color o; sprite := sprite o; active := active o; kind := kind o
|}.

Definition set_color (c : Z * Z * Z) (o : GameObject) : GameObject := {|
  o_name := o_name o; o_x := o_x o; o_y := o_y o; o_width := o_width o;
  o_height := o_height o; velocity_x := velocity_x o; velocity_y := velocity_y o;
  color := c; sprite := sprite o; active := active o; kind := kind o
|}.

Definition set_sprite (s : option Surface) (o : GameObject) : GameObject := {|
  o_name := o_name o; o_x := o_x o; o_y := o_y o; o_width := o_width o;
  o_height := o_height o; velocity_x := velocity_x o; velocity_y := velocity_y o;
  color := color o; sprite := s; active := active o; kind := kind o
|}.

Definition set_active (a : bool) (o : GameObject) : GameObject := {|
  o_name := o_name o; o_x := o_x o; o_y := o_y o; o_width := o_width o;
  o_height := o_height o; velocity_x := velocity_x o; velocity_y := velocity_y o;
  color := color o; sprite := sprite o; active := a; kind := kind o
|}.

Definition set_kind (k : Kind) (o : GameObject) : GameObject := {|
  o_name := o_name o; o_x := o_x o; o_y := o_y o; o_width := o_width o;
  o_height := o_height o; velocity_x := velocity_x o; velocity_y := velocity_y o;
  color := color o; sprite := sprite o; active := active o; kind := k
|}.

(** [Player.__init__], [Enemy.__init__], [Collectible.__init__],
    [Platform.__init__] *)
Definition Player_new (cfg : Config) (name : string) (x y width height : float)
  : GameObject :=
  GameObject_new
    (KPlayer {| on_ground := false; jump_force := JUMP_FORCE cfg;
                move_speed := MOVE_SPEED cfg; health := 100; can_jump := true;
                physics_body := None |})
    name x y width height.

Definition Enemy_new (name : string) (x y width height : float) : GameObject :=
  GameObject_new
    (KEnemy {| speed := 50%float; direction := 1%float;
               patrol_range := 100%float; start_x := x |})
    name x y width height.

Definition Collectible_new (name : string) (x y width height : float) (pts : Z)
  : GameObject :=
  GameObject_new (KCollectible {| points := pts; collected := false |})
    name x y width height.

Definition Platform_new (name : string) (x y width height : float) : GameObject :=
  GameObject_new (KPlatform true) name x y width height.

(** [GameObject.update] *)
Definition GameObject_update (dt : float) (o : GameObject) : GameObject :=
  set_pos (o_x o + velocity_x o * dt)%float (o_y o + velocity_y o * dt)%float o.

(** [Enemy.update]: the patrol, then [super().update(dt)]. *)
Definition Enemy_update (dt : float) (e : EnemyAttrs) (o : GameObject) : GameObject :=
  let d :=
    if (start_x e + patrol_range e <=? o_x o)%float then (-1)%float
    else if (o_x o <=? start_x e)%float then 1%float
    else direction e in
  let e' := {| speed := speed e; direction := d;
               patrol_range := patrol_range e; start_x := start_x e |} in
  GameObject_update dt
    (set_velocity_x (speed e * d)%float (set_kind (KEnemy e') o)).

(** [obj.update(dt)], dispatched on the class of [obj]. *)
Definition update_method (dt : float) (o : GameObject) : GameObject :=
  match kind o with
  | KEnemy e => Enemy_update dt e o
  | _ => GameObject_update dt o
  end.

(** [Collectible.collect]: the points returned and the object after. *)
Definition collect (o : GameObject) : Z * GameObject :=
  match kind o with
  | KCollectible c =>
      if collected c then (0%Z, o)
      else (points c,
            set_active false
              (set_kind (KCollectible {| points := points c; collected := true |}) o))
  | _ => (0%Z, o)
  end.

(** The engine. Objects live in [heap] and are named by their index there;
    [player], [enemies], [collectibles], [platforms] and [all_objects] hold
    such indices, so one object reached through two lists is one object. *)
Record Engine := {
  eng_width : Z;
  eng_height : Z;
  eng_dt : float;
  game_state : GameState;
  game_type : GameType;
  game_data : option GameData;
  heap : list GameObject;
  player : option nat;
  enemies : list nat;
  collectibles : list nat;
  platforms : list nat;
  all_objects : list nat;
  space : list StaticBox;
  camera_x : float;
  camera_y : float;
  assets : gmap string Surface;
  background : option Surface;
  keys_pressed : gset string
}.

(** [PygameGameEngine.__init__] *)
Definition Engine_new (width height : Z) : Engine := {|
  eng_width := width; eng_height := height; eng_dt := 0%float;
  game_state := GameState_default; game_type := PLATFORMER; game_data := None;
  heap := []; player := None; enemies := []; collectibles := [];
  platforms := []; all_objects := []; space := [];
  camera_x := 0%float; camera_y := 0%float; assets := ∅; background := None;
  keys_pressed := ∅
|}.

Definition set_dt (v : float) (s : Engine) : Engine := {|
  eng_width := eng_width s; eng_height := eng_height s; eng_dt := v;
  game_state := game_state s; game_type := game_type s;
  game_data := game_data s; heap := heap s; player := player s;
  enemies := enemies s; collectibles := collectibles s;
  platforms := platforms s; all_objects := all_objects s; space := space s;
  camera_x := camera_x s; camera_y := camera_y s; assets := assets s;
  background := background s; keys_pressed := keys_pressed s
|}.

Definition set_game_state (v : GameState) (s : Engine) : Engine := {|
  eng_width := eng_width s; eng_height := eng_height s; eng_dt := eng_dt s;
  game_state := v; game_type := game_type s; game_data := game_data s;
  heap := heap s; player := player s; enemies := enemies s;
  collectibles := collectibles s; platforms := platforms s;
  all_objects := all_objects s; space := space s; camera_x := camera_x s;
  camera_y := camera_y s; assets := assets s; background := background s;
  keys_pressed := keys_pressed s
|}.

Definition set_game_type (v : GameType) (s : Engine) : Engine := {|
  eng_width := eng_width s; eng_height := eng_height s; eng_dt := eng_dt s;
  game_state := game_state s; game_type := v; game_data := game_data s;
  heap := heap s; player := player s; enemies := enemies s;
  collectibles := collectibles s; platforms := platforms s;
  all_objects := all_objects s; space := space s; camera_x := camera_x s;
  camera_y := camera_y s; assets := assets s; background := background s;
  keys_pressed := keys_pressed s
|}.

Definition set_game_data (v : option GameData) (s : Engine) : Engine := {|
  eng_width := eng_width s; eng_height := eng_height s; eng_dt := eng_dt s;
  game_state := game_state s; game_type := game_type s; game_data := v;
  heap := heap s; player := player s; enemies := enemies s;
  collectibles := collectibles s; platforms := platforms s;
  all_objects := all_objects s; space := space s; camera_x := camera_x s;
  camera_y := camera_y s; assets := assets s; background := background s;
  keys_pressed := keys_pressed s
|}.

Definition set_heap (v : list GameObject) (s : Engine) : Engine := {|
  eng_width := eng_width s; eng_height := eng_height s; eng_dt := eng_dt s;
  game_state := game_state s; game_type := game_type s;
  game_data := game_data s; heap := v; player := player s;
  enemies := enemies s; collectibles := collectibles s;
  platforms := platforms s; all_objects := all_objects s; space := space s;
  camera_x := camera_x s; camera_y := camera_y s; assets := assets s;
  background := background s; keys_pressed := keys_pressed s
|}.

Definition set_player (v : option nat) (s : Engine) : Engine := {|
  eng_width := eng_width s; eng_height := eng_height s; eng_dt := eng_dt s;
  game_state := game_state s; game_type := game_type s;
  game_data := game_data s; heap := heap s; player := v; enemies := enemies s;
  collectibles := collectibles s; platforms := platforms s;
  all_objects := all_objects s; space := space s; camera_x := camera_x s;
  camera_y := camera_y s; assets := assets s; background := background s;
  keys_pressed := keys_pressed s
|}.

Definition set_enemies (v : list nat) (s : Engine) : Engine := {|
  eng_width := eng_width s; eng_height := eng_height s; eng_dt := eng_dt s;
  game_state := game_state s; game_type := game_type s;
  game_data := game_data s; heap := heap s; player := player s; enemies := v;
  collectibles := collectibles s; platforms := platforms s;
  all_objects := all_objects s; space := space s; camera_x := camera_x s;
  camera_y := camera_y s; assets := assets s; background := background s;
  keys_pressed := keys_pressed s
|}.

Definition set_collectibles (v : list nat) (s : Engine) : Engine := {|
  eng_width := eng_width s; eng_height := eng_height s; eng_dt := eng_dt s;
  game_state := game_state s; game_type := game_type s;
  game_data := game_data s; heap := heap s; player := player s;
  enemies := enemies s; collectibles := v; platforms := platforms s;
  all_objects := all_objects s; space := space s; camera_x := camera_x s;
  camera_y := camera_y s; assets := assets s; background := background s;
  keys_pressed := keys_pressed s
|}.

Definition set_platforms (v : list nat) (s : Engine) : Engine := {|
  eng_width := eng_width s; eng_height := eng_height s; eng_dt := eng_dt s;
  game_state := game_state s; game_type := game_type s;
  game_data := game_data s; heap := heap s; player := player s;
  enemies := enemies s; collectibles := collectibles s; platforms := v;
  all_objects := all_objects s; space := space s; camera_x := camera_x s;
  camera_y := camera_y s; assets := assets s; background := background s;
  keys_pressed := keys_pressed s
|}.

Definition set_all_objects (v : list nat) (s : Engine) : Engine := {|
  eng_width := eng_width s; eng_height := eng_height s; eng_dt := eng_dt s;
  game_state := game_state s; game_type := game_type s;
  game_data := game_data s; heap := heap s; player := player s;
  enemies := enemies s; collectibles := collectibles s;
  platforms := platforms s; all_objects := v; space := space s;
  camera_x := camera_x s; camera_y := camera_y s; assets := assets s;
  background := background s; keys_pressed := keys_pressed s
|}.

Definition set_space (v : list StaticBox) (s : Engine) : Engine := {|
  eng_width := eng_width s; eng_height := eng_height s; eng_dt := eng_dt s;
  game_state := game_state s; game_type := game_type s;
  game_data := game_data s; heap := heap s; player := player s;
  enemies := enemies s; collectibles := collectibles s;
  platforms := platforms s; all_objects := all_objects s; space := v;
  camera_x := camera_x s; camera_y := camera_y s; assets := assets s;
  background := background s; keys_pressed := keys_pressed s
|}.

Definition set_camera_x (v : float) (s : Engine) : Engine := {|
  eng_width := eng_width s; eng_height := eng_height s; eng_dt := eng_dt s;
  game_state := game_state s; game_type := game_type s;
  game_data := game_data s; heap := heap s; player := player s;
  enemies := enemies s; collectibles := collectibles s;
  platforms := platforms s; all_objects := all_objects s; space := space s;
  camera_x := v; camera_y := camera_y s; assets := assets s;
  background := background s; keys_pressed := keys_pressed s
|}.

Definition set_camera_y (v : float) (s : Engine) : Engine := {|
  eng_width := eng_width s; eng_height := eng_height s; eng_dt := eng_dt s;
  game_state := game_state s; game_type := game_type s;
  game_data := game_data s; heap := heap s; player := player s;
  enemies := enemies s; collectibles := collectibles s;
  platforms := platforms s; all_objects := all_objects s; space := space s;
  camera_x := camera_x s; camera_y := v; assets := assets s;
  background := background s; keys_pressed := keys_pressed s
|}.

Definition set_assets (v : gmap string Surface) (s : Engine) : Engine := {|
  eng_width := eng_width s; eng_height := eng_height s; eng_dt := eng_dt s;
  game_state := game_state s; game_type := game_type s;
  game_data := game_data s; heap := heap s; player := player s;
  enemies := enemies s; collectibles := collectibles s;
  platforms := platforms s; all_objects := all_objects s; space := space s;
  camera_x := camera_x s; camera_y := camera_y s; assets := v;
  background := background s; keys_pressed := keys_pressed s
|}.

Definition set_background (v : option Surface) (s : Engine) : Engine := {|
  eng_width := eng_width s; eng_height := eng_height s; eng_dt := eng_dt s;
  game_state := game_state s; game_type := game_type s;
  game_data := game_data s; heap := heap s; player := player s;
  enemies := enemies s; collectibles := collectibles s;
  platforms := platforms s; all_objects := all_objects s; space := space s;
  camera_x := camera_x s; camera_y := camera_y s; assets := assets s;
  background := v; keys_pressed := keys_pressed s
|}.

Definition set_keys_pressed (v : gset string) (s : Engine) : Engine := {|
  eng_width := eng_width s; eng_height := eng_height s; eng_dt := eng_dt s;
  game_state := game_state s; game_type := game_type s;
  game_data := game_data s; heap := heap s; player := player s;
  enemies := enemies s; collectibles := collectibles s;
  platforms := platforms s; all_objects := all_objects s; space := space s;
  camera_x := camera_x s; camera_y := camera_y s; assets := assets s;
  background := background s; keys_pressed := v
|}.

Definition set_score (n : Z) (g : GameState) : GameState := {|
  score := n; gs_health := gs_health g; time := time g; level := level g;
  lives := lives g; game_over := game_over g; win := win g
|}.

Definition set_time (t : float) (g : GameState) : GameState := {|
  score := score g; gs_health := gs_health g; time := t; level := level g;
  lives := lives g; game_over := game_over g; win := win g
|}.

Definition set_game_over (b : bool) (g : GameState) : GameState := {|
  score := score g; gs_health := gs_health g; time := time g; level := level g;
  lives := lives g; game_over := b; win := win g
|}.

Definition set_win (b : bool) (g : GameState) : GameState := {|
  score := score g; gs_health := gs_health g; time := time g; level := level g;
  lives := lives g; game_over := game_over g; win := b
|}.

(** The player object, when [self.player] is set. *)
Definition player_obj (s : Engine) : option GameObject :=
  match player s with
  | Some p => heap s !! p
  | None => None
  end.

(** [f] applied in place to the object at index [i]. *)
Definition modify (i : nat) (f : GameObject -> GameObject) (h : list GameObject)
  : list GameObject := alter f i h.

Definition set_player_attrs (f : PlayerAttrs -> PlayerAttrs) (o : GameObject)
  : GameObject :=
  match kind o with
  | KPlayer p => set_kind (KPlayer (f p)) o
  | _ => o
  end.

Definition set_health (n : Z) (p : PlayerAttrs) : PlayerAttrs := {|
  on_ground := on_ground p; jump_force := jump_force p; move_speed := move_speed p;
  health := n; can_jump := can_jump p; physics_body := physics_body p
|}.

Definition set_on_ground (b : bool) (p : PlayerAttrs) : PlayerAttrs := {|
  on_ground := b; jump_force := jump_force p; move_speed := move_speed p;
  health := health p; can_jump := can_jump p; physics_body := physics_body p
|}.

Definition set_physics_body (b : option Body) (p : PlayerAttrs) : PlayerAttrs := {|
  on_ground := on_ground p; jump_force := jump_force p; move_speed := move_speed p;
  health := health p; can_jump := can_jump p; physics_body := b
|}.

Definition player_attrs (o : GameObject) : option PlayerAttrs :=
  match kind o with
  | KPlayer p => Some p
  | _ => None
  end.

(** The rectangle [pygame.Rect(o.x, o.y, o.width, o.height)] is built from. *)
Definition Rect : Type := float * float * float * float.
Definition rect_of (o : GameObject) : Rect := (o_x o, o_y o, o_width o, o_height o).

Section Operations.

Variable cfg : Config.
(** [int(s, 16)]; [None] is [ValueError]. *)
Variable int16 : string -> option Z.
(** Whether [pygame.image.load(path)] and the conversion succeed. *)
Variable image_load : string -> bool.
(** [pygame.Rect(a).colliderect(pygame.Rect(b))], taken to return for every
    pair of rectangles. *)
Variable colliderect : Rect -> Rect -> bool.
(** Whether [pygame.transform.scale(surface, (w, h))] returns for the size
    [(w, h)]; it raises on a negative size and on one it cannot allocate. *)
Variable scale_ok : Z -> Z -> bool.
(** [space.step(dt)], as it changes the player's body among the static
    boxes; any integrator will do. [None] is an exception raised by the
    step, which leaves the body as it was. *)
Variable space_step : float -> list StaticBox -> Body -> option Body.

(** [pygame.transform.scale(src, (w, h))]; [None] is a raised exception. *)
Definition transform_scale (src : Surface) (w h : Z) : option Surface :=
  if scale_ok w h then Some (Scaled src w h) else None.

(** [_load_assets]: a path that fails to load is skipped; a background that
    loads and cannot be scaled is kept as it was loaded. *)
Definition _load_assets (asset_paths : gmap string string) (s : Engine) : Engine :=
  let bg :=
    match asset_paths !! "background" with
    | Some path =>
        if image_load path
        then Some (default (Loaded path)
                     (transform_scale (Loaded path) (eng_width s) (eng_height s)))
        else background s
    | None => background s
    end in
  let loaded : gmap string Surface :=
    omap (fun path => if image_load path then Some (Loaded path) else None)
      (delete "background" asset_paths) in
  set_background bg (set_assets (loaded ∪ assets s) s).

(** [pygame.transform.scale(src, (int(width), int(height)))]; [None] is a
    raised exception, of [int] or of [scale]. *)
Definition scale_to_size (src : Surface) (width height : float) : option Surface :=
  match int_of_float width, int_of_float height with
  | Some w, Some h => transform_scale src w h
  | _, _ => None
  end.

(** [if name in self.assets: obj.sprite = pygame.transform.scale(
    self.assets[name], (int(width), int(height)))]: the sprite of [obj]
    after the statement, when it was [None] before; [None] is a raised
    exception. *)
Definition sprite_for (s : Engine) (name : string) (width height : float)
  : option (option Surface) :=
  match assets s !! name with
  | Some a =>
      match scale_to_size a width height with
      | Some sp => Some (Some sp)
      | None => None
      end
  | None => Some None
  end.

(** [color_str] parsed as the source does; [None] is [ValueError]. *)
Definition parse_color (otherwise : Z * Z * Z) (color_str : string)
  : option (Z * Z * Z) :=
  if startswith "#" color_str then hex_triple int16 (tail1 color_str)
  else Some otherwise.

(** A new object is stored at the end of the heap: its index is the heap's
    length before. *)
Definition alloc (o : GameObject) (s : Engine) : Engine :=
  set_heap (heap s ++ [o])%list s.

(** [if not obj.sprite: obj.color = color] *)
Definition recolor (c : Z * Z * Z) (obj : GameObject) : GameObject :=
  match sprite obj with
  | Some _ => obj
  | None => set_color c obj
  end.

(** The branches of one iteration of the loop of [_create_entities] that
    create an object; [false] is an exception raised while the sprite is
    scaled. The Player is bound to [self.player] before its sprite is set
    and appended to [all_objects] after, so a raise leaves it in [player]
    and in no list; the Enemy is bound to a local variable and is lost. *)
Definition place_entity (entity_data : Entity) (s : Engine) : bool * Engine :=
  let name := default "unnamed" (e_name entity_data) in
  let entity_type := default "object" (e_type entity_data) in
  let x := default 0%float (e_x entity_data) in
  let y := default 0%float (e_y entity_data) in
  let width := default 32%float (e_width entity_data) in
  let height := default 32%float (e_height entity_data) in
  let id := length (heap s) in
  if decide (entity_type = "player") then
    let p := Player_new cfg name x y width height in
    match sprite_for s name width height with
    | Some sp =>
        (true,
         set_all_objects (all_objects s ++ [id])%list
           (set_player (Some id) (alloc (set_sprite sp p) s)))
    | None => (false, set_player (Some id) (alloc p s))
    end
  else if str_in "enemy" (lower entity_type) || str_in "enemy" (lower name) then
    let enemy := Enemy_new name x y width height in
    match sprite_for s name width height with
    | Some sp =>
        (true,
         set_all_objects (all_objects s ++ [id])%list
           (set_enemies (enemies s ++ [id])%list (alloc (set_sprite sp enemy) s)))
    | None => (false, s)
    end
  else (true, s).

(** One iteration of the loop of [_create_entities]; [false] is a raised
    exception, the engine is as the raise left it. *)
Definition create_entity (entity_data : Entity) (s : Engine) : bool * Engine :=
  match place_entity entity_data s with
  | (false, s1) => (false, s1)
  | (true, s1) =>
      let color_str := default "#FFFFFF" (e_color entity_data) in
      match parse_color (255, 255, 255)%Z color_str with
      | None => (false, s1)
      | Some c =>
          (true,
           match last (all_objects s1) with
           | Some i => set_heap (modify i (recolor c) (heap s1)) s1
           | None => s1
           end)
      end
  end.

Fixpoint _create_entities (es : list Entity) (s : Engine) : bool * Engine :=
  match es with
  | [] => (true, s)
  | entity_data :: rest =>
      match create_entity entity_data s with
      | (true, s1) => _create_entities rest s1
      | (false, s1) => (false, s1)
      end
  end.

Definition create_platform (platform_data : PlatformData) (s : Engine)
  : bool * Engine :=
  let x := default 0%float (p_x platform_data) in
  let y := default 0%float (p_y platform_data) in
  let width := default 100%float (p_width platform_data) in
  let height := default 20%float (p_height platform_data) in
  let platform :=
    Platform_new ("platform_" ++ pretty (length (platforms s))) x y width height in
  let color_str := default "#8B4513" (p_color platform_data) in
  match parse_color (color platform) color_str with
  | None => (false, s)
  | Some c =>
      let id := length (heap s) in
      (true,
       set_all_objects (all_objects s ++ [id])%list
         (set_platforms (platforms s ++ [id])%list (alloc (set_color c platform) s)))
  end.

(** One iteration of the second loop of [_create_level_objects]; [false] is
    an exception raised while the sprite is scaled, before the collectible
    is appended to any list. *)
Definition create_collectible (collectible_data : CollectibleData) (s : Engine)
  : bool * Engine :=
  let x := default 0%float (c_x collectible_data) in
  let y := default 0%float (c_y collectible_data) in
  let width := default 20%float (c_width collectible_data) in
  let height := default 20%float (c_height collectible_data) in
  let pts := default 10%Z (c_points collectible_data) in
  let collectible :=
    Collectible_new ("collectible_" ++ pretty (length (collectibles s)))
      x y width height pts in
  match sprite_for s "collectible" width height with
  | None => (false, s)
  | Some sp =>
      let collectible :=
        match sp with
        | Some _ => set_sprite sp collectible
        | None => set_color (255, 215, 0)%Z collectible
        end in
      let id := length (heap s) in
      (true,
       set_all_objects (all_objects s ++ [id])%list
         (set_collectibles (collectibles s ++ [id])%list (alloc collectible s)))
  end.

Fixpoint create_platforms (ps : list PlatformData) (s : Engine) : bool * Engine :=
  match ps with
  | [] => (true, s)
  | platform_data :: rest =>
      match create_platform platform_data s with
      | (true, s1) => create_platforms rest s1
      | (false, s1) => (false, s1)
      end
  end.

Fixpoint create_collectibles (cs : list CollectibleData) (s : Engine) : bool * Engine :=
  match cs with
  | [] => (true, s)
  | collectible_data :: rest =>
      match create_collectible collectible_data s with
      | (true, s1) => create_collectibles rest s1
      | (false, s1) => (false, s1)
      end
  end.

Definition _create_level_objects (level_data : Level) (s : Engine) : bool * Engine :=
  match create_platforms (l_platforms level_data) s with
  | (true, s1) => create_collectibles (l_collectibles level_data) s1
  | (false, s1) => (false, s1)
  end.

Definition half (v : float) : float := (v / 2)%float.

Definition static_box_of (platform : GameObject) : StaticBox := {|
  sb_x := (o_x platform + half (o_width platform))%float;
  sb_y := (o_y platform + half (o_height platform))%float;
  sb_w := o_width platform; sb_h := o_height platform
|}.

Definition _setup_physics (s : Engine) : Engine :=
  let boxes := omap (fun i => static_box_of <$> (heap s !! i)) (platforms s) in
  let s1 := set_space (space s ++ boxes)%list s in
  match player s1 with
  | Some p =>
      set_heap
        (modify p
           (fun o =>
              let body := {| b_x := (o_x o + half (o_width o))%float;
                             b_y := (o_y o + half (o_height o))%float;
                             b_vx := 0%float; b_vy := 0%float |} in
              set_player_attrs (set_physics_body (Some body)) o)
           (heap s1)) s1
  | None => s1
  end.

(** [game_data.get('levels', [{}])[0]]; [None] is the [IndexError] of an
    empty list. *)
Definition first_level (g : GameData) : option Level :=
  match g_levels g with
  | None => Some {| l_platforms := []; l_collectibles := [] |}
  | Some [] => None
  | Some (l :: _) => Some l
  end.

(** [initialize_game]; [false] is a raised exception, the engine is as the
    raise left it. *)
Definition initialize_game (g : GameData) (asset_paths : gmap string string)
    (s : Engine) : bool * Engine :=
  let s0 := set_game_data (Some g) s in
  match GameType_of (default "platformer" (g_gameType g)) with
  | None => (false, s0)
  | Some gt =>
      let s1 := _load_assets asset_paths (set_game_type gt s0) in
      match _create_entities (g_entities g) s1 with
      | (false, s2) => (false, s2)
      | (true, s2) =>
          match first_level g with
          | None => (false, s2)
          | Some level_data =>
              match _create_level_objects level_data s2 with
              | (false, s3) => (false, s3)
              | (true, s3) => (true, _setup_physics s3)
              end
          end
      end
  end.

(** [Player.jump] *)
Definition jump (o : GameObject) : GameObject :=
  match kind o with
  | KPlayer p =>
      if on_ground p && can_jump p
      then set_player_attrs (set_on_ground false) (set_velocity_y (jump_force p) o)
      else o
  | _ => o
  end.

Definition pressed (k : string) (keys : gset string) : bool := bool_decide (k ∈ keys).

Definition decay : float := 0x1.ccccccccccccdp-1%float.   (* 0.9 *)

Definition handle_input_player (gt : GameType) (keys : gset string) (o : GameObject)
  : GameObject :=
  match gt with
  | PLATFORMER =>
      let ms := default 0%float (move_speed <$> player_attrs o) in
      let o1 :=
        if pressed "left" keys || pressed "a" keys then set_velocity_x (- ms)%float o
        else if pressed "right" keys || pressed "d" keys then set_velocity_x ms o
        else set_velocity_x 0%float o in
      if pressed "up" keys || pressed "w" keys || pressed "space" keys
      then jump o1 else o1
  | RACING =>
      let o1 :=
        if pressed "up" keys || pressed "w" keys
        then set_velocity_y (- MOVE_SPEED cfg)%float o
        else if pressed "down" keys || pressed "s" keys
        then set_velocity_y (MOVE_SPEED cfg) o
        else set_velocity_y (velocity_y o * decay)%float o in
      if pressed "left" keys || pressed "a" keys
      then set_velocity_x (- MOVE_SPEED cfg)%float o1
      else if pressed "right" keys || pressed "d" keys
      then set_velocity_x (MOVE_SPEED cfg) o1
      else set_velocity_x (velocity_x o1 * decay)%float o1
  | _ => o
  end.

Definition handle_input (keys : gset string) (s : Engine) : Engine :=
  let s1 := set_keys_pressed keys s in
  match player s1 with
  | Some p => set_heap (modify p (handle_input_player (game_type s1) keys) (heap s1)) s1
  | None => s1
  end.

(** [self.space.step(dt)] and the synchronisation of the player with its
    body; [None] is an exception raised by the step. *)
Definition sync_player (dt : float) (boxes : list StaticBox) (o : GameObject)
  : option GameObject :=
  match kind o with
  | KPlayer p =>
      match physics_body p with
      | Some body =>
          match space_step dt boxes body with
          | Some body' =>
              let o1 := set_pos (b_x body' - half (o_width o))%float
                          (b_y body' - half (o_height o))%float o in
              Some (set_kind
                      (KPlayer (set_on_ground (abs (b_vy body') <? 10)%float
                                  (set_physics_body (Some body') p))) o1)
          | None => None
          end
      | None => Some o
      end
  | _ => Some o
  end.

(** [if obj.active: obj.update(dt)] on the object at index [i]. *)
Definition update_if_active (dt : float) (h : list GameObject) (i : nat)
  : list GameObject :=
  modify i (fun obj => if active obj then update_method dt obj else obj) h.

(** The collectible loop of [_check_collisions]: the heap and the score. *)
Definition collect_step (player_rect : Rect) (acc : list GameObject * Z) (i : nat)
  : list GameObject * Z :=
  let '(h, sc) := acc in
  match h !! i with
  | Some collectible =>
      if active collectible && colliderect player_rect (rect_of collectible) then
        let '(pts, collectible') := collect collectible in
        (<[i := collectible']> h, (sc + pts)%Z)
      else (h, sc)
  | None => (h, sc)
  end.

(** The enemy loop of [_check_collisions]: the heap and [game_over]. *)
Definition enemy_step (p : nat) (player_rect : Rect) (acc : list GameObject * bool)
    (i : nat) : list GameObject * bool :=
  let '(h, over) := acc in
  match h !! i with
  | Some enemy =>
      if active enemy && colliderect player_rect (rect_of enemy) then
        match h !! p ≫= player_attrs with
        | Some a =>
            let hp := (health a - 10)%Z in
            (modify p (set_player_attrs (set_health hp)) h,
             if (hp <=? 0)%Z then true else over)
        | None => (h, over)
        end
      else (h, over)
  | None => (h, over)
  end.

Definition _check_collisions (s : Engine) : Engine :=
  match player s, player_obj s with
  | Some p, Some po =>
      let player_rect := rect_of po in
      let '(h1, sc) :=
        foldl (collect_step player_rect) (heap s, score (game_state s))
          (collectibles s) in
      let '(h2, over) :=
        foldl (enemy_step p player_rect) (h1, game_over (game_state s))
          (enemies s) in
      set_game_state (set_game_over over (set_score sc (game_state s)))
        (set_heap h2 s)
  | _, _ => s
  end.

Definition smoothing : float := 0x1.999999999999ap-4%float.   (* 0.1 *)

Definition _update_camera (s : Engine) : Engine :=
  match player_obj s with
  | Some po =>
      let target_x := (o_x po - float_of_Z (eng_width s / 2))%float in
      let target_y := (o_y po - float_of_Z (eng_height s / 2))%float in
      set_camera_y (camera_y s + (target_y - camera_y s) * smoothing)%float
        (set_camera_x (camera_x s + (target_x - camera_x s) * smoothing)%float s)
  | None => s
  end.

(** [all(not c.active for c in self.collectibles)] *)
Definition all_inactive (s : Engine) : bool :=
  forallb (fun i => default true ((fun c => negb (active c)) <$> (heap s !! i)))
    (collectibles s).

Definition _check_game_conditions (s : Engine) : Engine :=
  let s1 :=
    if all_inactive s && (0 <? length (collectibles s))%nat
    then set_game_state (set_win true (game_state s)) s
    else s in
  match player_obj s1 with
  | Some po =>
      if (float_of_Z (eng_height s1 + 200) <? o_y po)%float
      then set_game_state (set_game_over true (game_state s1)) s1
      else s1
  | None => s1
  end.

(** [self.dt = dt] and [self.game_state.time += dt] *)
Definition advance_time (dt : float) (s : Engine) : Engine :=
  set_game_state (set_time (time (game_state s) + dt)%float (game_state s))
    (set_dt dt s).

(** "Update physics" and "Sync player position with physics"; [None] is an
    exception raised by the step. *)
Definition step_physics (dt : float) (s : Engine) : option Engine :=
  match player s, player_obj s with
  | Some p, Some o =>
      match sync_player dt (space s) o with
      | Some o' => Some (set_heap (<[p := o']> (heap s)) s)
      | None => None
      end
  | _, _ => Some s
  end.

(** "Update all objects", then "Update enemies": the two loops, in this
    order, over [all_objects] and over [enemies]. *)
Definition update_objects (dt : float) (s : Engine) : Engine :=
  let s1 := set_heap (foldl (update_if_active dt) (heap s) (all_objects s)) s in
  set_heap (foldl (update_if_active dt) (heap s1) (enemies s1)) s1.

(** [update]; [false] is an exception raised by [space.step], after the
    clock has been advanced and before any object is updated. *)
Definition update (dt : float) (s : Engine) : bool * Engine :=
  let s1 := advance_time dt s in
  match step_physics dt s1 with
  | Some s2 =>
      (true,
       _check_game_conditions
         (_update_camera (_check_collisions (update_objects dt s2))))
  | None => (false, s1)
  end.

(** The objects [render] draws, in order: [if obj.active: obj.render(...)]. *)
Definition rendered (s : Engine) : list nat :=
  List.filter (fun i => default false (active <$> (heap s !! i))) (all_objects s).

Definition reset_collectible (o : GameObject) : GameObject :=
  match kind o with
  | KCollectible c =>
      set_kind (KCollectible {| points := points c; collected := false |})
        (set_active true o)
  | _ => set_active true o
  end.

Definition reset_player (o : GameObject) : GameObject :=
  set_player_attrs
    (fun a =>
       set_physics_body
         ((fun b => {| b_x := 100%float; b_y := 400%float;
                       b_vx := b_vx b; b_vy := b_vy b |}) <$> physics_body a)
         (set_health 100 a)) o.

Definition reset_game (s : Engine) : Engine :=
  let s1 := set_game_state GameState_default s in
  let h1 :=
    match player s1 with
    | Some p => modify p reset_player (heap s1)
    | None => heap s1
    end in
  set_heap (foldl (fun h i => modify i reset_collectible h) h1 (collectibles s1)) s1.

(** ** Sessions *)

(** What a caller does to a running engine. *)
Inductive Action :=
| Input (keys : gset string)
| Update (dt : float)
| Reset.

Definition is_reset (a : Action) : bool :=
  match a with
  | Reset => true
  | _ => false
  end.

(** The engine after the call, whether or not it raised. *)
Definition step (s : Engine) (a : Action) : Engine :=
  match a with
  | Input keys => handle_input keys s
  | Update dt => snd (update dt s)
  | Reset => reset_game s
  end.

Definition run (actions : list Action) (s : Engine) : Engine := foldl step s actions.

(** The engine main.py builds for a description: a new engine, initialised;
    it is kept, as the raise left it, when [initialize_game] raises. *)
Definition session (g : GameData) (asset_paths : gmap string string) : Engine :=
  snd (initialize_game g asset_paths (Engine_new (GAME_WIDTH cfg) (GAME_HEIGHT cfg))).

End Operations.

(** ** Vocabulary of the statements about the engine *)

(** The point value of a collectible. *)
Definition collectible_points (o : GameObject) : option Z :=
  match kind o with
  | KCollectible c => Some (points c)
  | _ => None
  end.

(** [h'] comes from [h] without creating, activating or re-pricing an
    object. *)
Definition evolves (h h' : list GameObject) : Prop :=
  length h' = length h /\
  forall i o', h' !! i = Some o' ->
    exists o, h !! i = Some o /\
      (active o' = true -> active o = true) /\
      collectible_points o' = collectible_points o.

(** [f] neither activates nor re-prices the object it changes. *)
Definition keeps (f : GameObject -> GameObject) : Prop :=
  forall o, (active (f o) = true -> active o = true) /\
            collectible_points (f o) = collectible_points o.

(** No collectible has a negative point value. *)
Definition points_nonneg (h : list GameObject) : bool :=
  forallb
    (fun o => default true ((fun n => (0 <=? n)%Z) <$> collectible_points o)) h.

(** The win flag is set only when there are collectibles and all of them
    are inactive. *)
Definition win_sound (s : Engine) : Prop :=
  win (game_state s) = true ->
  (0 <? length (collectibles s))%nat && all_inactive s = true.

(** The win flag is set exactly when there are collectibles and all of
    them are inactive. *)
Definition win_exact (s : Engine) : Prop :=
  win (game_state s) = (0 <? length (collectibles s))%nat && all_inactive s.

(** A description whose active level has no collectible. *)
Definition zero_collectibles (g : GameData) : Prop :=
  forall level_data, first_level g = Some level_data ->
    l_collectibles level_data = [].


(** What [reset_game] leaves alone in an object. *)
Definition same_but_flags (o o' : GameObject) : Prop :=
  o_name o' = o_name o /\ o_x o' = o_x o /\ o_y o' = o_y o /\
  o_width o' = o_width o /\ o_height o' = o_height o /\
  velocity_x o' = velocity_x o /\ velocity_y o' = velocity_y o /\
  color o' = color o /\ sprite o' = sprite o /\
  match kind o, kind o' with
  | KPlayer a, KPlayer a' =>
      on_ground a' = on_ground a /\ jump_force a' = jump_force a /\
      move_speed a' = move_speed a /\ can_jump a' = can_jump a
  | KEnemy e, KEnemy e' => e' = e
  | KCollectible c, KCollectible c' => points c' = points c
  | KPlatform b, KPlatform b' => b' = b
  | _, _ => False
  end.

End Engine.

(** * Closed examples

    Stand-ins for the libraries, used only where a closed term is needed. *)

Import Assets Engine.

(** [int(s, 16)] on two hexadecimal digits; every other string is refused
    here, which is all the examples need. *)
Definition hex_digit (c : ascii) : option Z :=
  let n := Z.of_nat (nat_of_ascii c) in
  if (48 <=? n)%Z && (n <=? 57)%Z then Some (n - 48)%Z
  else if (65 <=? n)%Z && (n <=? 70)%Z then Some (n - 55)%Z
  else if (97 <=? n)%Z && (n <=? 102)%Z then Some (n - 87)%Z
  else None.

Definition hex2 (s : string) : option Z :=
  match s with
  | String a (String b EmptyString) =>
      match hex_digit a, hex_digit b with
      | Some x, Some y => Some (16 * x + y)%Z
      | _, _ => None
      end
  | _ => None
  end.

(** A hash that never collides. *)
Definition md5_stub (s : string) : string := s.

(** Overlap of two boxes with positive sizes. *)
Definition overlap (a b : Rect) : bool :=
  let '(ax, ay, aw, ah) := a in
  let '(bx, by_, bw, bh) := b in
  ((ax <? bx + bw) && (bx <? ax + aw) && (ay <? by_ + bh) && (by_ <? ay + ah))%float.

(** A body falling freely under the gravity of config.example.py. *)
Definition free_fall (dt : float) (boxes : list StaticBox) (b : Body) : option Body :=
  Some {| b_x := (b_x b + b_vx b * dt)%float;
          b_y := (b_y b + b_vy b * dt)%float;
          b_vx := b_vx b;
          b_vy := (b_vy b + 981 * dt)%float |}.

(** A step that raises whenever the space holds the player's body. *)
Definition failing_step (dt : float) (boxes : list StaticBox) (b : Body) : option Body :=
  None.

(** A scaling that accepts the sizes that are not negative. *)
Definition scales (w h : Z) : bool := (0 <=? w)%Z && (0 <=? h)%Z.

Definition manager_empty : Manager := {|
  asset_cache := ∅; dalle_request_count := 0; files := ∅; api_calls := 0
|}.

Definition entity (name type : string) (x y : float) (color : string) : Entity := {|
  e_name := Some name; e_type := Some type; e_x := Some x; e_y := Some y;
  e_width := Some 32%float; e_height := Some 32%float; e_color := Some color
|}.

Definition platform_at (x y w h : float) : PlatformData := {|
  p_x := Some x; p_y := Some y; p_width := Some w; p_height := Some h;
  p_color := None
|}.

Definition collectible_at (x y : float) (pts : Z) : CollectibleData := {|
  c_x := Some x; c_y := Some y; c_width := Some 20%float;
  c_height := Some 20%float; c_points := Some pts
|}.

Definition game (es : list Entity) (ls : option (list Level)) : GameData := {|
  g_title := Some "demo"; g_gameType := Some "platformer"; g_theme := None;
  g_artStyle := None; g_entities := es; g_levels := ls
|}.

(** One player, one entity named enemy_1, one level with two platforms and
    one collectible worth 10 points. *)
Definition demo_game : GameData :=
  game [ entity "player" "player" 100 400 "#00FF00";
         entity "enemy_1" "enemy" 300 400 "#FF0000" ]
    (Some [ {| l_platforms := [ platform_at 0 500 800 100; platform_at 200 350 100 20 ];
               l_collectibles := [ collectible_at 250 320 10 ] |} ]).

(** A player alone, no level. *)
Definition player_only : GameData :=
  game [ entity "player" "player" 100 400 "#00FF00" ] None.

(** The candidate [_identify_priority_assets] builds for the player of
    [player_only] and of [demo_game]. *)
Definition player_candidate : AssetInfo := {|
  a_name := "player"; a_type := "character";
  a_prompt := "pixel art style, fantasy theme, mobile game sprite, heroic character, detailed armor, determined expression, action pose, RPG quality, transparent background, 32x32 pixels";
  a_size := (32, 32)%nat
|}.

(** A manager whose index and cache directory hold the player's image. *)
Definition cached_player (md5 : string -> string) : Manager := {|
  asset_cache := {[ cache_key_of example_config md5 player_candidate :=
                      cache_path example_config md5 player_candidate ]};
  dalle_request_count := 0;
  files := {[ cache_path example_config md5 player_candidate ]};
  api_calls := 0
|}.

(** The candidates of [demo_game]. *)
Definition demo_candidates : list AssetInfo :=
  Eval vm_compute in default [] (_identify_priority_assets example_config demo_game).

(** The collectible among them, and a candidate with another target size. *)
Definition collectible_candidate : AssetInfo := {|
  a_name := "collectible"; a_type := "item";
  a_prompt := "pixel art style, fantasy theme, collectible item, shiny treasure, magical glow, valuable object, game pickup, transparent background, 24x24 pixels";
  a_size := (24, 24)%nat
|}.

Definition resized (size : nat * nat) (info : AssetInfo) : AssetInfo := {|
  a_name := a_name info; a_type := a_type info; a_prompt := a_prompt info;
  a_size := size
|}.

(** A manager whose index names an image that is no longer on disk. *)
Definition stale_player : Manager := {|
  asset_cache := {[ cache_key_of example_config md5_stub player_candidate :=
                      cache_path example_config md5_stub player_candidate ]};
  dalle_request_count := 0; files := ∅; api_calls := 0
|}.

(** One run in which the generated image is saved and the index is not. *)
Definition store_failure_run : option (gmap string string) * Manager :=
  generate_game_assets example_config md5_stub (fun _ _ => SaveIndexFails) hex2
    (fun _ => true) player_only manager_empty.

(** An enemy alone. *)
Definition enemy_only : GameData :=
  game [ entity "enemy_1" "enemy" 100 0 "#FF0000" ] None.

(** A player standing on a collectible that costs 5 points. *)
Definition poison_game : GameData :=
  game [ entity "player" "player" 100 100 "#00FF00" ]
    (Some [ {| l_platforms := []; l_collectibles := [ collectible_at 100 100 (-5) ] |} ]).

(** [1.0 / FPS] *)
Definition frame_dt : float := (1 / 60)%float.

(** The sessions of the examples. *)
Definition session_of (g : GameData) : Engine :=
  session example_config hex2 (fun _ => true) scales g ∅.

(** A player followed by an item that creates no object. *)
Definition player_and_item : list Entity :=
  [ entity "player" "player" 100 400 "#00FF00";
    entity "coin" "item" 200 400 "#0000FF" ].

(** A short play: two frames with a key held in between. *)
Definition short_play : list Action :=
  [ Update frame_dt; Input {[ "right" ]}; Update frame_dt ].

(** * Further vocabulary *)

(** ** The pipeline *)

Definition nameless_item : Entity := {|
  e_name := None; e_type := Some "item"; e_x := None; e_y := None;
  e_width := None; e_height := None; e_color := None
|}.



(** The index and the cache directory of [m'] hold what those of [m] hold. *)
Definition cache_grows (m m' : Manager) : Prop :=
  files m ⊆ files m' /\
  forall k, is_Some (asset_cache m !! k) -> is_Some (asset_cache m' !! k).

(** Every candidate of [reqs] bound to its image, in order. *)
Definition bind_all (cfg : Config) (md5 : string -> string) (reqs : list AssetInfo)
    (assets : gmap string string) : gmap string string :=
  foldl (fun a info => <[a_name info := cache_path cfg md5 info]> a) assets reqs.

(** Where the candidates of a description come from. *)
Definition candidate_origin (g : GameData) (info : AssetInfo) : Prop :=
  (a_type info = "character" /\
   exists e, e ∈ g_entities g /\ e_name e = Some (a_name info) /\
     (e_type e = Some "player" \/ is_enemy_name e = true)) \/
  (a_name info = "background" /\ a_type info = "background" /\ levels_of g <> []) \/
  (a_name info = "collectible" /\ a_type info = "item" /\
   exists l, l ∈ levels_of g /\ l_collectibles l <> []) \/
  (a_name info = "platform" /\ a_type info = "tile" /\
   exists l, l ∈ levels_of g /\ l_platforms l <> []).

(** ** The engine *)

(** [h'] holds, index by index, the objects of [h] changed within [R]. *)
Definition related (R : GameObject -> GameObject -> Prop) (h h' : list GameObject)
  : Prop :=
  length h' = length h /\
  forall i o, h !! i = Some o -> exists o', h' !! i = Some o' /\ R o o'.

(** The attributes that no method run after initialisation assigns. *)
Definition same_identity (o o' : GameObject) : Prop :=
  o_name o' = o_name o /\ o_width o' = o_width o /\ o_height o' = o_height o /\
  color o' = color o /\ sprite o' = sprite o /\
  match kind o, kind o' with
  | KPlayer a, KPlayer a' =>
      jump_force a' = jump_force a /\ move_speed a' = move_speed a /\
      can_jump a' = can_jump a
  | KEnemy e, KEnemy e' =>
      speed e' = speed e /\ patrol_range e' = patrol_range e /\
      start_x e' = start_x e
  | KCollectible c, KCollectible c' => points c' = points c
  | KPlatform b, KPlatform b' => b' = b
  | _, _ => False
  end.

(** What holds of every object of a session. *)
Definition sound (o : GameObject) : Prop :=
  match kind o with
  | KPlayer a => active o = true /\ (health a <= 100)%Z
  | KEnemy e =>
      active o = true /\ (direction e = 1%float \/ direction e = (-1)%float) /\
      speed e = 50%float /\ patrol_range e = 100%float
  | KCollectible c => collected c = negb (active o)
  | KPlatform b => active o = true /\ b = true
  end.

Definition steady (o o' : GameObject) : Prop :=
  same_identity o o' /\ (sound o -> sound o').

(** What no method run after initialisation assigns in the engine. *)
Definition layout (s : Engine) :=
  (eng_width s, eng_height s, game_type s, game_data s, player s, enemies s,
   collectibles s, platforms s, all_objects s, space s, assets s, background s).


(** The class of an object. *)
Inductive Class := CPlayer | CEnemy | CCollectible | CPlatform.

#[global] Instance Class_eq_dec : EqDecision Class.
Proof. solve_decision. Defined.

Definition class_of (o : GameObject) : Class :=
  match kind o with
  | KPlayer _ => CPlayer
  | KEnemy _ => CEnemy
  | KCollectible _ => CCollectible
  | KPlatform _ => CPlatform
  end.

(** The indices of the objects of class [c], in the order of creation. *)
Definition indices_of (c : Class) (h : list GameObject) : list nat :=
  List.filter (fun i => bool_decide (class_of <$> h !! i = Some c))
    (seq 0 (length h)).

(** The lists of the engine hold the objects of the heap: those of each
    class in the list of that class, the Player created last in [player],
    and in [all_objects] all of them in the order of creation, but for the
    last one when it is the [player]: the Player that a raise left bound to
    [self.player] before it was appended. *)
Definition well_formed (s : Engine) : Prop :=
  all_objects s = seq 0 (length (all_objects s)) /\
  (length (heap s) = length (all_objects s) \/
   length (heap s) = S (length (all_objects s)) /\
   player s = Some (length (all_objects s))) /\
  enemies s = indices_of CEnemy (heap s) /\
  collectibles s = indices_of CCollectible (heap s) /\
  platforms s = indices_of CPlatform (heap s) /\
  player s = last (indices_of CPlayer (heap s)).

(** Every object of the heap is in [all_objects]. *)
Definition complete (s : Engine) : Prop :=
  length (heap s) = length (all_objects s).

(** The sprite of [o] is the image [A] holds under [key], scaled to the
    size of [o] truncated to integers, which [pygame] accepted; or none when
    [A] holds no such image. *)
Definition sprite_from (scale_ok : Z -> Z -> bool) (A : gmap string Surface)
    (key : string) (o : GameObject) : Prop :=
  match A !! key with
  | Some a =>
      exists w h,
        int_of_float (o_width o) = Some w /\ int_of_float (o_height o) = Some h /\
        scale_ok w h = true /\ sprite o = Some (Scaled a w h)
  | None => sprite o = None
  end.

(** The sprite an object is created with, from the images [A] loaded: that
    of its own name for a Player or an Enemy, the one named 'collectible' for
    a Collectible, none for a Platform. *)
Definition sprite_rule (scale_ok : Z -> Z -> bool) (A : gmap string Surface)
    (o : GameObject) : Prop :=
  match kind o with
  | KPlayer _ | KEnemy _ => sprite_from scale_ok A (o_name o) o
  | KCollectible _ => sprite_from scale_ok A "collectible" o
  | KPlatform _ => sprite o = None
  end.

(** The sprite of the object at [i]: that of its creation when it is in
    [all_objects], none when a raise left it out. *)
Definition sprite_ok (scale_ok : Z -> Z -> bool) (A : gmap string Surface)
    (s : Engine) (i : nat) (o : GameObject) : Prop :=
  (i ∈ all_objects s -> sprite_rule scale_ok A o) /\
  (i ∉ all_objects s -> sprite o = None).

(** What holds of an object when it has just been created. *)
Definition fresh (o : GameObject) : Prop :=
  match kind o with
  | KPlayer a => health a = 100%Z
  | KCollectible c => active o = true
  | _ => True
  end.

Definition anything (o : GameObject) : Prop := True.

(** An engine whose lists hold the heap, whose images are [A], and whose
    objects are sound, have the sprite of their creation, and satisfy [F]. *)
Definition built (scale_ok : Z -> Z -> bool) (F : GameObject -> Prop)
    (A : gmap string Surface) (s : Engine) : Prop :=
  well_formed s /\ assets s = A /\
  forall i o, heap s !! i = Some o -> sound o /\ sprite_ok scale_ok A s i o /\ F o.




(** The report of [get_game_state]. *)
Record StateReport := {
  r_score : Z;
  r_health : Z;
  r_time : float;
  r_level : Z;
  r_game_over : bool;
  r_win : bool;
  r_fps : float
}.

(** [get_game_state]; [fps] is what [self.clock.get_fps()] returns. [None]
    is the [AttributeError] of a [player] that is not a Player. *)
Definition get_game_state (fps : float) (s : Engine) : option StateReport :=
  let report hp := {|
    r_score := score (game_state s); r_health := hp;
    r_time := time (game_state s); r_level := level (game_state s);
    r_game_over := game_over (game_state s); r_win := win (game_state s);
    r_fps := fps |} in
  match player s with
  | Some p => (fun a => report (health a)) <$> (heap s !! p ≫= player_attrs)
  | None => Some (report 100%Z)
  end.

(** The health of the object at [p], when it is a Player. *)
Definition hp_at (p : nat) (h : list GameObject) : option Z :=
  health <$> (h !! p ≫= player_attrs).

(** A player whose health is used up has ended the game. *)
Definition dead_is_over (p : nat) (h : list GameObject) (over : bool) : Prop :=
  forall hp, hp_at p h = Some hp -> (hp <= 0)%Z -> over = true.

Definition ends_when_dead (s : Engine) : Prop :=
  forall p, player s = Some p -> dead_is_over p (heap s) (game_over (game_state s)).

(** Methods that leave a player's health alone. *)
Definition same_health (o o' : GameObject) : Prop :=
  health <$> player_attrs o' = health <$> player_attrs o.

(** What [update] does to the game state, the clock apart. *)
Definition flags_kept (g g' : GameState) : Prop :=
  gs_health g' = gs_health g /\ level g' = level g /\ lives g' = lives g /\
  (game_over g = true -> game_over g' = true) /\ (win g = true -> win g' = true).


(** The physics body of the player, when there is one. *)
Definition player_body (s : Engine) : option Body :=
  (player_obj s ≫= player_attrs) ≫= physics_body.

(** Methods that leave a player's physics body alone. *)
Definition same_body (o o' : GameObject) : Prop :=
  player_attrs o' ≫= physics_body = player_attrs o ≫= physics_body.


(** A flappy game: one player, no level. *)
Definition flappy_game : GameData := {|
  g_title := Some "flappy"; g_gameType := Some "flappy"; g_theme := None;
  g_artStyle := None;
  g_entities := [ entity "bird" "player" 100 300 "#FFFF00" ];
  g_levels := None
|}.

(** A player that starts below the world, on a collectible. *)
Definition fallen_game : GameData :=
  game [ entity "player" "player" 100 1000 "#00FF00" ]
    (Some [ {| l_platforms := []; l_collectibles := [ collectible_at 100 1000 10 ] |} ]).

(** A player as wide as [float('inf')], which JSON writes [1e999]. *)
Definition endless_game : GameData :=
  game [ {| e_name := Some "player"; e_type := Some "player";
            e_x := Some 0%float; e_y := Some 0%float;
            e_width := Some infinity; e_height := Some 32%float;
            e_color := None |} ] None.


(** ** Levels, drawing and names *)




(** The static box [_setup_physics] makes of a platform of the level. *)
Definition box_of (p : PlatformData) : StaticBox := {|
  sb_x := (default 0%float (p_x p) + half (default 100%float (p_width p)))%float;
  sb_y := (default 0%float (p_y p) + half (default 20%float (p_height p)))%float;
  sb_w := default 100%float (p_width p);
  sb_h := default 20%float (p_height p)
|}.

(** The box of an object, when it is a Platform. *)
Definition platform_box (o : GameObject) : option StaticBox :=
  match kind o with
  | KPlatform _ => Some (static_box_of o)
  | _ => None
  end.

(** Whether [render] has an object to draw: every object but a collectible
    that has been collected. *)
Definition uncollected (o : GameObject) : bool :=
  match kind o with
  | KCollectible c => negb (collected c)
  | _ => true
  end.

(** The name of an object created from an entity: a Player or an Enemy. *)
Definition character_name (o : GameObject) : option string :=
  match kind o with
  | KPlayer _ | KEnemy _ => Some (o_name o)
  | _ => None
  end.

(** The first level of [demo_game]. *)
Definition demo_level : Level := {|
  l_platforms := [ platform_at 0 500 800 100; platform_at 200 350 100 20 ];
  l_collectibles := [ collectible_at 250 320 10 ]
|}.

(** * main.py *)

Module Server.

(** The name [handle_game_input] gives a key of the front end. *)
Definition standard_key (key : string) : string :=
  let k := lower key in
  if bool_decide (k ∈ ["arrowleft"; "keya"]) then "left"
  else if bool_decide (k ∈ ["arrowright"; "keyd"]) then "right"
  else if bool_decide (k ∈ ["arrowup"; "keyw"]) then "up"
  else if bool_decide (k ∈ ["arrowdown"; "keys"]) then "down"
  else if bool_decide (k ∈ ["space"]) then "space"
  else k.

(** The set [keys] that the loop of [handle_game_input] builds. *)
Definition standard_keys (keys : list string) : gset string :=
  list_to_set (standard_key <$> keys).

(** The globals of the module: [asset_manager], [game_engine] and
    [game_running]. *)
Record Globals := {
  asset_manager : Manager;
  game_engine : option Engine;
  game_running : bool
}.

(** What an endpoint answers: a body, or the status of an [HTTPException]. *)
Inductive Response (A : Type) :=
| Ok (body : A)
| HttpError (status : nat).

Arguments Ok {A} body.
Arguments HttpError {A} status.

(** The body of a successful [/api/game/initialize]. *)
Record Initialized := {
  assets_generated : nat;
  dalle_requests_used : nat;
  reported_game_type : option string
}.

Section Endpoints.

Variable cfg : Config.
Variable md5 : string -> string.
Variable dalle : nat -> AssetInfo -> DalleOutcome.
Variable int16 : string -> option Z.
Variable save_ok : string -> bool.
Variable image_load : string -> bool.
Variable scale_ok : Z -> Z -> bool.

(** [POST /api/game/initialize], for the dictionary [g] of a validated
    body. The new engine is bound to [game_engine] before it is initialised,
    so it stays there when its initialisation raises. *)
Definition initialize_game (g : GameData) (w : Globals)
  : Response Initialized * Globals :=
  match generate_game_assets cfg md5 dalle int16 save_ok g (asset_manager w) with
  | (None, m1) =>
      (HttpError 500,
       {| asset_manager := m1; game_engine := game_engine w;
          game_running := game_running w |})
  | (Some assets, m1) =>
      match Engine.initialize_game cfg int16 image_load scale_ok g assets
              (Engine_new (GAME_WIDTH cfg) (GAME_HEIGHT cfg)) with
      | (false, e1) =>
          (HttpError 500,
           {| asset_manager := m1; game_engine := Some e1;
              game_running := game_running w |})
      | (true, e1) =>
          (Ok {| assets_generated := size assets;
                 dalle_requests_used := dalle_request_count m1;
                 reported_game_type := g_gameType g |},
           {| asset_manager := m1; game_engine := Some e1; game_running := true |})
      end
  end.

(** [POST /api/game/input] *)
Definition handle_game_input (keys : list string) (w : Globals)
  : Response (gset string) * Globals :=
  match game_engine w with
  | None => (HttpError 400, w)
  | Some e =>
      (Ok (standard_keys keys),
       {| asset_manager := asset_manager w;
          game_engine := Some (handle_input cfg (standard_keys keys) e);
          game_running := game_running w |})
  end.

(** [POST /api/game/reset] *)
Definition reset_game (w : Globals) : Response unit * Globals :=
  match game_engine w with
  | None => (HttpError 400, w)
  | Some e =>
      (Ok tt,
       {| asset_manager := asset_manager w; game_engine := Some (Engine.reset_game e);
          game_running := game_running w |})
  end.

End Endpoints.

End Server.

(** A description whose list of levels is empty. *)
Definition no_level_game : GameData :=
  game [ entity "player" "player" 100 400 "#00FF00" ] (Some []).

(** The globals before any game is initialised. *)
Definition globals_empty : Server.Globals := {|
  Server.asset_manager := manager_empty; Server.game_engine := None;
  Server.game_running := false
|}.

(** * Tactics *)

(** Split the conjunctions of a goal, and nothing under a definition. *)
Ltac split_all := repeat match goal with |- _ /\ _ => split end.

(** * Facts about the asset pipeline *)

Section PipelineFacts.

Context (cfg : Config) (md5 : string -> string)
  (dalle : nat -> AssetInfo -> DalleOutcome)
  (int16 : string -> option Z) (save_ok : string -> bool).

Local Abbreviation K := (MAX_DALLE_REQUESTS_PER_GAME cfg).
Local Abbreviation key_of := (cache_key_of cfg md5).
Local Abbreviation cache_path := (cache_path cfg md5).
Local Abbreviation cache_hit := (cache_hit cfg md5).
Local Abbreviation priority_image := (priority_image cfg md5).
Local Abbreviation fallback_image := (fallback_image cfg).
Local Abbreviation color_parses := (color_parses int16).

Lemma cache_hit_test info m :
  bool_decide (is_Some (asset_cache m !! key_of info))
    && bool_decide (cache_path info ∈ files m) = true <-> cache_hit info m.
Proof.
  unfold cache_hit. rewrite andb_true_iff, !bool_decide_eq_true. tauto.
Qed.

Lemma dalle_asset_hit info m :
  cache_hit info m ->
  _generate_dalle_asset cfg md5 dalle info m = (Some (cache_path info), m).
Proof.
  intros H. apply cache_hit_test in H. unfold _generate_dalle_asset.
  now rewrite H.
Qed.

Lemma dalle_asset_miss info m :
  ~ cache_hit info m ->
  _generate_dalle_asset cfg md5 dalle info m =
    let m1 := set_api_calls (S (api_calls m)) m in
    match dalle (S (api_calls m)) info with
    | Stored => (Some (cache_path info), store (key_of info) (cache_path info) m1)
    | SaveIndexFails => (None, store (key_of info) (cache_path info) m1)
    | _ => (None, m1)
    end.
Proof.
  intros H. unfold _generate_dalle_asset.
  destruct (bool_decide _ && bool_decide _) eqn:E.
  - apply cache_hit_test in E. contradiction.
  - destruct (dalle _ _); reflexivity.
Qed.

Lemma dalle_asset_frame info m r m' :
  _generate_dalle_asset cfg md5 dalle info m = (r, m') ->
  dalle_request_count m' = dalle_request_count m /\
  (api_calls m <= api_calls m' <= S (api_calls m))%nat /\
  (forall p, r = Some p -> p = cache_path info).
Proof.
  intros H. destruct (decide (cache_hit info m)) as [Hh|Hm].
  - rewrite dalle_asset_hit in H by assumption. simplify_eq.
    repeat split; try lia. congruence.
  - rewrite dalle_asset_miss in H by assumption. cbv zeta in H.
    destruct (dalle _ _); simplify_eq; simpl; repeat split; try lia; congruence.
Qed.

Lemma generate_priority_inv reqs : forall assets m assets' m',
  generate_priority cfg md5 dalle reqs assets m = (assets', m') ->
  (api_calls m <= api_calls m' <= api_calls m + length reqs)%nat /\
  (dalle_request_count m <= dalle_request_count m'
     <= dalle_request_count m + length reqs)%nat /\
  (forall n p, assets' !! n = Some p ->
     assets !! n = Some p \/ priority_image reqs n p).
Proof.
  induction reqs as [|info rest IH]; intros assets m assets' m' H; simpl in H.
  - simplify_eq. simpl. repeat split; try lia. auto.
  - destruct (K <=? dalle_request_count m)%nat.
    { simplify_eq. repeat split; try lia. auto. }
    destruct (_generate_dalle_asset cfg md5 dalle info m) as [r m1] eqn:E.
    apply dalle_asset_frame in E as (Hc & Ha & Hp).
    destruct r as [p0|].
    + apply IH in H as (Ha' & Hc' & Himg). simpl in *.
      repeat split; try lia.
      intros n p Hn. destruct (Himg n p Hn) as [Hin|(i & Hi & <- & ->)].
      * destruct (decide (a_name info = n)) as [<-|Hne].
        -- rewrite lookup_insert_eq in Hin. simplify_eq. right.
           exists info. rewrite (Hp p eq_refl). repeat split. left.
        -- rewrite lookup_insert_ne in Hin by assumption. auto.
      * right. exists i. repeat split. now right.
    + apply IH in H as (Ha' & Hc' & Himg). simpl in *.
      repeat split; try lia.
      intros n p Hn. destruct (Himg n p Hn) as [Hin|(i & Hi & <- & ->)]; auto.
      right. exists i. repeat split. now right.
Qed.

Lemma identify_length g reqs :
  _identify_priority_assets cfg g = Some reqs -> (length reqs <= K)%nat.
Proof.
  unfold _identify_priority_assets. intros H.
  destruct (priority_candidates cfg g) as [l|]; simpl in H; simplify_eq.
  rewrite length_take. lia.
Qed.

Lemma get_remaining_spec es generated : forall remaining,
  _get_remaining_entities es generated = Some remaining ->
  (forall e, e ∈ es ->
     exists n, e_name e = Some n /\ (is_Some (generated !! n) \/ e ∈ remaining)) /\
  (forall e, e ∈ remaining -> e ∈ es).
Proof.
  induction es as [|e es IH]; intros remaining H; simpl in H.
  - simplify_eq. split; intros e He; inversion He.
  - destruct (e_name e) as [n|] eqn:En; [|discriminate].
    destruct (_get_remaining_entities es generated) as [r|]; [|discriminate].
    destruct (IH r eq_refl) as [IH1 IH2]. simplify_eq. split.
    + intros e' He'. apply elem_of_cons in He' as [->|He'].
      * exists n. split; [assumption|]. case_bool_decide; [now left|right; left].
      * destruct (IH1 e' He') as (n' & Hn' & [Hs|Hr]); exists n'; split; auto.
        right. case_bool_decide; [assumption|now right].
    + intros e' He'. case_bool_decide.
      * right. auto.
      * apply elem_of_cons in He' as [->|He']; [left|right; auto].
Qed.

Lemma create_fallback_frame e m r m' :
  _create_fallback_asset cfg int16 save_ok e m = (r, m') ->
  api_calls m' = api_calls m /\ dalle_request_count m' = dalle_request_count m /\
  (forall p, r = Some p ->
     exists n, e_name e = Some n /\
       p = fallback_path cfg n (default "#4A90E2" (e_color e))).
Proof.
  unfold _create_fallback_asset. intros H.
  destruct (e_name e) as [n|]; [|simplify_eq; repeat split; congruence].
  repeat case_match; simplify_eq; simpl; repeat split; try congruence;
    intros q Hq; simplify_eq; eauto.
Qed.

Lemma generate_fallbacks_frame remaining : forall assets m r m',
  generate_fallbacks cfg int16 save_ok remaining assets m = (r, m') ->
  api_calls m' = api_calls m /\ dalle_request_count m' = dalle_request_count m.
Proof.
  induction remaining as [|e rest IH]; intros assets m r m' H; simpl in H.
  - now simplify_eq.
  - destruct (_create_fallback_asset cfg int16 save_ok e m) as [q m1] eqn:E.
    apply create_fallback_frame in E as (Ha & Hc & _).
    destruct q as [p|], (e_name e) as [n|]; simplify_eq; auto.
    apply IH in H as [-> ->]. auto.
Qed.

Lemma generate_fallbacks_inv remaining : forall assets m assets' m',
  generate_fallbacks cfg int16 save_ok remaining assets m = (Some assets', m') ->
  (forall e, e ∈ remaining -> exists n, e_name e = Some n /\ is_Some (assets' !! n)) /\
  (forall n, is_Some (assets !! n) -> is_Some (assets' !! n)) /\
  (forall n p, assets' !! n = Some p ->
     assets !! n = Some p \/ fallback_image remaining n p).
Proof.
  induction remaining as [|e rest IH]; intros assets m assets' m' H; simpl in H.
  - simplify_eq. repeat split; auto. intros e He. inversion He.
  - destruct (_create_fallback_asset cfg int16 save_ok e m) as [q m1] eqn:E.
    apply create_fallback_frame in E as (_ & _ & Hp).
    destruct q as [p|]; [|discriminate].
    destruct (Hp p eq_refl) as (n & Hn & ->). rewrite Hn in H.
    apply IH in H as (Hall & Hmono & Himg). repeat split.
    + intros e' He'. apply elem_of_cons in He' as [->|He']; [|auto].
      exists n. split; [assumption|]. apply Hmono. rewrite lookup_insert_eq. eauto.
    + intros n' Hs. apply Hmono. destruct (decide (n = n')) as [->|Hne].
      * rewrite lookup_insert_eq. eauto.
      * now rewrite lookup_insert_ne.
    + intros n' p Hl. destruct (Himg n' p Hl) as [Hin|(e' & He' & Hn' & ->)].
      * destruct (decide (n = n')) as [->|Hne].
        -- rewrite lookup_insert_eq in Hin. simplify_eq. right.
           exists e. repeat split; [left|assumption].
        -- rewrite lookup_insert_ne in Hin by assumption. auto.
      * right. exists e'. repeat split; [now right|assumption].
Qed.

(** The number of requests posted is bounded whether or not the pipeline
    returns. *)
Lemma generate_game_assets_calls g m :
  let m' := snd (generate_game_assets cfg md5 dalle int16 save_ok g m) in
  (api_calls m <= api_calls m' <= api_calls m + K)%nat /\
  (dalle_request_count m' <= K)%nat.
Proof.
  unfold generate_game_assets.
  destruct (_identify_priority_assets cfg g) as [reqs|] eqn:Er; simpl; [|lia].
  apply identify_length in Er.
  destruct (generate_priority cfg md5 dalle reqs ∅ (set_count 0 m)) as [assets m1] eqn:Eg.
  apply generate_priority_inv in Eg as (Ha & Hc & _). simpl in *.
  destruct (_get_remaining_entities (g_entities g) assets) as [rem|]; simpl; [|lia].
  destruct (generate_fallbacks cfg int16 save_ok rem assets m1) as [r m2] eqn:Ef.
  apply generate_fallbacks_frame in Ef as [Ha2 Hc2]. simpl. lia.
Qed.


Lemma identify_returns g :
  (forall e, e ∈ g_entities g -> is_Some (e_name e)) ->
  is_Some (_identify_priority_assets cfg g).
Proof.
  intros Hn. unfold _identify_priority_assets, priority_candidates, find_player.
  destruct (head _) as [p|] eqn:Eh; [|simpl; eauto].
  apply head_Some_elem_of, list_elem_of_filter in Eh as [_ Hin].
  destruct (Hn p Hin) as [n ->]. simpl. eauto.
Qed.

Lemma get_remaining_returns es generated :
  (forall e, e ∈ es -> is_Some (e_name e)) ->
  is_Some (_get_remaining_entities es generated).
Proof.
  induction es as [|e es IH]; intros Hn; simpl; [eauto|].
  destruct (Hn e) as [n ->]; [left|].
  destruct IH as [r ->]; [|eauto]. intros e' He'. apply Hn. now right.
Qed.

Lemma generate_fallbacks_returns remaining : forall assets m,
  (forall e, e ∈ remaining -> is_Some (e_name e) /\ color_parses e) ->
  (forall p, save_ok p = true) ->
  is_Some (fst (generate_fallbacks cfg int16 save_ok remaining assets m)).
Proof.
  induction remaining as [|e rest IH]; intros assets m Hwf Hs; simpl; [eauto|].
  destruct (Hwf e) as [[n Hn] Hc]; [left|].
  assert (exists p m1, _create_fallback_asset cfg int16 save_ok e m = (Some p, m1))
    as (p & m1 & E).
  { unfold _create_fallback_asset. rewrite Hn. case_bool_decide; [eauto|].
    unfold color_parses in Hc. destruct (startswith "#" _).
    - destruct Hc as [t ->]; [reflexivity|]. rewrite Hs. eauto.
    - rewrite Hs. eauto. }
  rewrite E, Hn. apply IH; [|assumption]. intros e' He'. apply Hwf. now right.
Qed.

(** The pipeline returns when every entity has a name and a readable colour
    and the fallback images can be written. *)
Lemma generate_game_assets_returns g m :
  (forall e, e ∈ g_entities g -> is_Some (e_name e) /\ color_parses e) ->
  (forall p, save_ok p = true) ->
  is_Some (fst (generate_game_assets cfg md5 dalle int16 save_ok g m)).
Proof.
  intros Hwf Hs. unfold generate_game_assets.
  destruct (identify_returns g) as [reqs ->]; [intros e He; apply Hwf, He|].
  destruct (generate_priority _ _ _ _ _ _) as [assets m1].
  destruct (get_remaining_returns (g_entities g) assets) as [rem Er];
    [intros e He; apply Hwf, He|].
  rewrite Er. apply generate_fallbacks_returns; [|assumption].
  intros e He. apply Hwf. eapply get_remaining_spec; eassumption.
Qed.

End PipelineFacts.

Section PipelineSteps.

Context (cfg : Config) (md5 : string -> string)
  (dalle : nat -> AssetInfo -> DalleOutcome).

Local Abbreviation K := (MAX_DALLE_REQUESTS_PER_GAME cfg).

Lemma generate_priority_hit info rest assets m :
  (dalle_request_count m < K)%nat ->
  cache_hit cfg md5 info m ->
  generate_priority cfg md5 dalle (info :: rest) assets m =
  generate_priority cfg md5 dalle rest
    (<[a_name info := cache_path cfg md5 info]> assets)
    (set_count (S (dalle_request_count m)) m).
Proof.
  intros Hlt Hh. simpl.
  destruct (Nat.leb_spec K (dalle_request_count m)); [lia|].
  now rewrite dalle_asset_hit.
Qed.

Lemma generate_priority_stored info rest assets m :
  (dalle_request_count m < K)%nat ->
  ~ cache_hit cfg md5 info m ->
  dalle (S (api_calls m)) info = Stored ->
  generate_priority cfg md5 dalle (info :: rest) assets m =
  generate_priority cfg md5 dalle rest
    (<[a_name info := cache_path cfg md5 info]> assets)
    (set_count (S (dalle_request_count m))
       (store (cache_key_of cfg md5 info) (cache_path cfg md5 info)
          (set_api_calls (S (api_calls m)) m))).
Proof.
  intros Hlt Hm Hs. simpl.
  destruct (Nat.leb_spec K (dalle_request_count m)); [lia|].
  rewrite dalle_asset_miss by assumption. cbv zeta. now rewrite Hs.
Qed.

(** What the loop does with a candidate whose request is answered [o], when
    [o] is not [Stored]: the candidate is passed over. *)
Lemma generate_priority_unbound info rest assets m :
  (dalle_request_count m < K)%nat ->
  ~ cache_hit cfg md5 info m ->
  dalle (S (api_calls m)) info <> Stored ->
  exists m1,
    _generate_dalle_asset cfg md5 dalle info m = (None, m1) /\
    dalle_request_count m1 = dalle_request_count m /\
    api_calls m1 = S (api_calls m) /\
    generate_priority cfg md5 dalle (info :: rest) assets m =
    generate_priority cfg md5 dalle rest assets m1.
Proof.
  intros Hlt Hm Hs. simpl.
  destruct (Nat.leb_spec K (dalle_request_count m)); [lia|].
  rewrite dalle_asset_miss by assumption. cbv zeta.
  destruct (dalle _ _); try congruence; eexists; repeat split.
Qed.

(** When every request is answered [Stored], every candidate within the
    budget is counted, hit or not. *)
Lemma generate_priority_all_stored reqs : forall assets m,
  (forall n i, dalle n i = Stored) ->
  (dalle_request_count m + length reqs <= K)%nat ->
  dalle_request_count (snd (generate_priority cfg md5 dalle reqs assets m))
  = (dalle_request_count m + length reqs)%nat.
Proof.
  induction reqs as [|info rest IH]; intros assets m Hs Hk; simpl in Hk.
  - simpl. lia.
  - destruct (decide (cache_hit cfg md5 info m)) as [Hh|Hm].
    + rewrite generate_priority_hit by (assumption || lia).
      rewrite IH by (assumption || simpl; lia). simpl. lia.
    + rewrite generate_priority_stored by (auto || lia).
      rewrite IH by (assumption || simpl; lia). simpl. lia.
Qed.

(** From an empty index, when every call fails, nothing is bound and nothing
    is counted; every candidate is tried. *)
Lemma generate_priority_all_failed reqs : forall assets m,
  (forall n i, call_failed (dalle n i)) ->
  asset_cache m = ∅ ->
  (dalle_request_count m < K)%nat ->
  generate_priority cfg md5 dalle reqs assets m
  = (assets, set_api_calls (api_calls m + length reqs) m).
Proof.
  induction reqs as [|info rest IH]; intros assets m Hf He Hk.
  - simpl. rewrite Nat.add_0_r. now destruct m.
  - assert (~ cache_hit cfg md5 info m) as Hm.
    { intros [[p Hp] _]. rewrite He, lookup_empty in Hp. discriminate. }
    simpl. destruct (Nat.leb_spec K (dalle_request_count m)); [lia|].
    rewrite dalle_asset_miss by assumption. cbv zeta.
    destruct (Hf (S (api_calls m)) info) as [-> | ->];
      (rewrite IH by assumption; simpl; f_equal; unfold set_api_calls; simpl;
       f_equal; lia).
Qed.

End PipelineSteps.

(** C2, at the failing input. The index holds the key of the player's
    candidate and the image exists: the run posts no request, binds the
    cached image, and still reports one request used. *)
Theorem cache_hit_is_counted md5 dalle int16 save_ok :
  let m := cached_player md5 in
  let r := generate_game_assets example_config md5 dalle int16 save_ok player_only m in
  cache_hit example_config md5 player_candidate m /\
  (exists assets, fst r = Some assets /\
     assets !! "player" = Some (cache_path example_config md5 player_candidate)) /\
  dalle_request_count (snd r) = 1%nat /\ api_calls (snd r) = 0%nat.
Proof.
  intros m r.
  assert (cache_hit example_config md5 player_candidate m) as Hh.
  { split; simpl.
    - rewrite lookup_singleton_eq. eauto.
    - now apply elem_of_singleton. }
  split; [exact Hh|].
  subst r. unfold generate_game_assets.
  change (_identify_priority_assets example_config player_only)
    with (Some [player_candidate]).
  cbv beta iota.
  rewrite generate_priority_hit by (simpl; lia || exact Hh).
  simpl. rewrite lookup_insert_eq. simpl.
  split; [|split; reflexivity].
  eexists. split; [reflexivity|]. now rewrite lookup_insert_eq.
Qed.

(** C4, as stated, fails: the ranked list of the example holds a background
    candidate, and on full success the count reported is 5. *)
Lemma demo_game_ranks_background :
  map a_name <$> _identify_priority_assets example_config demo_game
    = Some ["player"; "background"; "enemy_1"; "collectible"; "platform"] /\
  dalle_request_count
    (snd (generate_game_assets example_config md5_stub (fun _ _ => Stored) hex2
            (fun _ => true) demo_game manager_empty)) = 5%nat.
Proof. split; vm_compute; reflexivity. Qed.

(** C4, amended. For the example description the ranked candidates are
    player, background, enemy_1, collectible, platform; with budget 5 and an
    empty cache the count reported is 5 when every call succeeds; when every
    call fails it is 0 after 5 requests, and a run that returns binds the two
    entities, and nothing else, to their fallback rectangles. *)
Theorem demo_game_budget md5 int16 save_ok :
  map a_name <$> _identify_priority_assets example_config demo_game
    = Some ["player"; "background"; "enemy_1"; "collectible"; "platform"] /\
  dalle_request_count
    (snd (generate_game_assets example_config md5 (fun _ _ => Stored) int16 save_ok
            demo_game manager_empty)) = 5%nat /\
  (forall failure, call_failed failure ->
     let r := generate_game_assets example_config md5 (fun _ _ => failure) int16
                save_ok demo_game manager_empty in
     dalle_request_count (snd r) = 0%nat /\ api_calls (snd r) = 5%nat /\
     forall assets, fst r = Some assets ->
       assets !! "player" = Some "cached_assets/fallback_player_#00FF00.png" /\
       assets !! "enemy_1" = Some "cached_assets/fallback_enemy_1_#FF0000.png" /\
       forall n, is_Some (assets !! n) -> n = "player" \/ n = "enemy_1").
Proof.
  split; [vm_compute; reflexivity|]. split.
  - unfold generate_game_assets.
    change (_identify_priority_assets example_config demo_game)
      with (Some demo_candidates).
    cbv beta iota.
    pose proof (generate_priority_all_stored example_config md5 (fun _ _ => Stored)
                  demo_candidates ∅ (set_count 0 manager_empty)
                  (fun _ _ => eq_refl)) as Hc.
    destruct (generate_priority _ _ _ _ _ _) as [assets1 m1]. simpl in Hc.
    destruct (_get_remaining_entities _ _) as [rem|]; simpl; [|apply Hc; simpl; lia].
    destruct (generate_fallbacks _ _ _ _ _ _) as [r m2] eqn:Ef.
    apply generate_fallbacks_frame in Ef as [_ Hc2]. simpl. rewrite Hc2.
    apply Hc. simpl. lia.
  - intros failure Hf r. subst r. unfold generate_game_assets.
    change (_identify_priority_assets example_config demo_game)
      with (Some demo_candidates).
    cbv beta iota.
    rewrite generate_priority_all_failed by (auto || simpl; lia).
    change (_get_remaining_entities (g_entities demo_game) ∅)
      with (Some (g_entities demo_game)).
    cbv beta iota.
    destruct (generate_fallbacks _ _ _ _ _ _) as [r m2] eqn:Ef.
    pose proof (generate_fallbacks_frame _ _ _ _ _ _ _ _ Ef) as [Ha Hc].
    cbn [fst snd].
    split; [rewrite Hc; reflexivity|]. split; [rewrite Ha; reflexivity|].
    intros assets ->.
    apply generate_fallbacks_inv in Ef as (Hall & _ & Himg).
    assert (forall n p, assets !! n = Some p ->
              (n = "player" /\ p = "cached_assets/fallback_player_#00FF00.png") \/
              (n = "enemy_1" /\ p = "cached_assets/fallback_enemy_1_#FF0000.png"))
      as Hon.
    { intros n p Hp. destruct (Himg n p Hp) as [H0|(e & He & Hn & ->)].
      - rewrite lookup_empty in H0. discriminate.
      - simpl in He. repeat (apply elem_of_cons in He as [->|He]);
          [simpl in Hn; simplify_eq; auto..|inversion He]. }
    repeat split.
    + destruct (Hall (entity "player" "player" 100 400 "#00FF00")) as (n & Hn & p & Hp);
        [left|]. simpl in Hn. simplify_eq.
      destruct (Hon _ _ Hp) as [[_ ->]|[? _]]; [assumption|discriminate].
    + destruct (Hall (entity "enemy_1" "enemy" 300 400 "#FF0000")) as (n & Hn & p & Hp);
        [right; left|]. simpl in Hn. simplify_eq.
      destruct (Hon _ _ Hp) as [[? _]|[_ ->]]; [discriminate|assumption].
    + intros n [p Hp]. destruct (Hon _ _ Hp) as [[-> _]|[-> _]]; auto.
Qed.

(** C8, as stated, fails: the collectible candidate of the example and a
    candidate with the same prompt and category but target size 800x600 get
    the same key, under a hash that never collides. *)
Lemma cache_key_blind_to_size :
  collectible_candidate ∈ demo_candidates /\
  a_prompt collectible_candidate = a_prompt (resized (800, 600)%nat collectible_candidate) /\
  a_type collectible_candidate = a_type (resized (800, 600)%nat collectible_candidate) /\
  a_size collectible_candidate <> a_size (resized (800, 600)%nat collectible_candidate) /\
  cache_key_of example_config md5_stub collectible_candidate
  = cache_key_of example_config md5_stub (resized (800, 600)%nat collectible_candidate).
Proof.
  repeat split; [|discriminate].
  do 3 right. left.
Qed.

(** C8, amended. The key of a candidate is the hash of its prompt, its
    category and the global SPRITE_SIZE; the candidate's own target size does
    not enter it, so two candidates that agree on prompt and category get the
    same key. *)
Theorem cache_key_of_prompt_type_and_sprite_size cfg md5 a b :
  a_prompt a = a_prompt b -> a_type a = a_type b ->
  cache_key_of cfg md5 a
  = md5 (a_prompt a ++ "_" ++ a_type a ++ "_" ++ pretty (SPRITE_SIZE cfg)) /\
  cache_key_of cfg md5 a = cache_key_of cfg md5 b.
Proof.
  intros Hp Ht. unfold cache_key_of, get_cache_key. now rewrite Hp, Ht.
Qed.

Lemma cache_key_of_prompt_type_and_sprite_size_witness :
  a_prompt collectible_candidate = a_prompt (resized (800, 600)%nat collectible_candidate) /\
  a_type collectible_candidate = a_type (resized (800, 600)%nat collectible_candidate) /\
  cache_key_of example_config md5_stub collectible_candidate
  = md5_stub (a_prompt collectible_candidate ++ "_" ++ a_type collectible_candidate
              ++ "_" ++ pretty (SPRITE_SIZE example_config)) /\
  cache_key_of example_config md5_stub collectible_candidate
  = cache_key_of example_config md5_stub (resized (800, 600)%nat collectible_candidate).
Proof.
  split; [reflexivity|]. split; [reflexivity|].
  exact (cache_key_of_prompt_type_and_sprite_size example_config md5_stub
           collectible_candidate (resized (800, 600)%nat collectible_candidate)
           eq_refl eq_refl).
Defined.

(** C9, as stated, fails: the call succeeds and the image is written, the
    index write fails, and the player ends bound to its fallback rectangle;
    no request is counted. *)
Lemma store_failure_loses_image :
  map_to_list <$> fst store_failure_run
    = Some [("player", "cached_assets/fallback_player_#00FF00.png")] /\
  bool_decide (cache_path example_config md5_stub player_candidate
               ∈ files (snd store_failure_run)) = true /\
  api_calls (snd store_failure_run) = 1%nat /\
  dalle_request_count (snd store_failure_run) = 0%nat.
Proof. repeat split; vm_compute; reflexivity. Qed.

(** ** Further facts about the pipeline *)


Lemma demo_game_well_formed :
  forall e, e ∈ g_entities demo_game -> is_Some (e_name e) /\ color_parses hex2 e.
Proof.
  intros e He. simpl in He.
  repeat (apply elem_of_cons in He as [->|He]);
    [split; [eexists; reflexivity|intros _; vm_compute; eauto]..|].
  inversion He.
Qed.


(** A candidate that misses the cache and whose request succeeds and is
    stored costs one request, raises the counter by one and is bound to the
    stored image. *)
Theorem miss_then_success_is_counted cfg md5 dalle info m :
  (dalle_request_count m < MAX_DALLE_REQUESTS_PER_GAME cfg)%nat ->
  ~ cache_hit cfg md5 info m ->
  dalle (S (api_calls m)) info = Stored ->
  fst (generate_priority cfg md5 dalle [info] ∅ m) !! a_name info
  = Some (cache_path cfg md5 info) /\
  dalle_request_count (snd (generate_priority cfg md5 dalle [info] ∅ m))
  = S (dalle_request_count m) /\
  api_calls (snd (generate_priority cfg md5 dalle [info] ∅ m)) = S (api_calls m) /\
  cache_hit cfg md5 info (snd (generate_priority cfg md5 dalle [info] ∅ m)).
Proof.
  intros Hlt Hm Hs. rewrite generate_priority_stored by assumption.
  cbn [generate_priority fst snd].
  split; [apply lookup_insert_eq|]. split; [reflexivity|]. split; [reflexivity|].
  split.
  - cbn. rewrite lookup_insert_eq. eauto.
  - cbn. apply elem_of_union_l, elem_of_singleton. reflexivity.
Qed.

Lemma miss_then_success_is_counted_witness :
  ~ cache_hit example_config md5_stub player_candidate manager_empty /\
  dalle_request_count
    (snd (generate_priority example_config md5_stub (fun _ _ => Stored)
            [player_candidate] ∅ manager_empty)) = 1%nat /\
  api_calls
    (snd (generate_priority example_config md5_stub (fun _ _ => Stored)
            [player_candidate] ∅ manager_empty)) = 1%nat.
Proof.
  assert (~ cache_hit example_config md5_stub player_candidate manager_empty) as Hm.
  { intros [[p Hp] _]. simpl in Hp. rewrite lookup_empty in Hp. discriminate. }
  split; [exact Hm|].
  pose proof (miss_then_success_is_counted example_config md5_stub
                (fun _ _ => Stored) player_candidate manager_empty
                ltac:(simpl; lia) Hm eq_refl) as (_ & Hc & Ha & _).
  split; [exact Hc|exact Ha].
Defined.

(** An index entry whose file is gone is a miss: a request is posted. *)
Theorem stale_entry_is_regenerated cfg md5 dalle info m :
  is_Some (asset_cache m !! cache_key_of cfg md5 info) ->
  cache_path cfg md5 info ∉ files m ->
  api_calls (snd (_generate_dalle_asset cfg md5 dalle info m)) = S (api_calls m).
Proof.
  intros _ Hf. rewrite dalle_asset_miss by (intros [_ Hin]; contradiction).
  cbv zeta. destruct (dalle _ _); reflexivity.
Qed.

Lemma stale_entry_is_regenerated_witness :
  is_Some (asset_cache stale_player
             !! cache_key_of example_config md5_stub player_candidate) /\
  (cache_path example_config md5_stub player_candidate ∉ files stale_player) /\
  api_calls (snd (_generate_dalle_asset example_config md5_stub (fun _ _ => Stored)
                    player_candidate stale_player)) = 1%nat.
Proof.
  assert (is_Some (asset_cache stale_player
                     !! cache_key_of example_config md5_stub player_candidate)) as H1.
  { simpl. rewrite lookup_singleton_eq. eauto. }
  assert (H2 : cache_path example_config md5_stub player_candidate
               ∉ files stale_player).
  { apply not_elem_of_empty. }
  split; [exact H1|]. split; [exact H2|].
  exact (stale_entry_is_regenerated example_config md5_stub (fun _ _ => Stored)
           player_candidate stale_player H1 H2).
Defined.

(** * Facts about the engine *)

(** ** Objects changed in place *)

Lemma modify_lookup (f : GameObject -> GameObject) (h : list GameObject) i j :
  modify i f h !! j = if decide (i = j) then f <$> h !! j else h !! j.
Proof.
  unfold modify. destruct (decide (i = j)) as [->|Hne].
  - apply list_lookup_alter_eq.
  - now apply list_lookup_alter_ne.
Qed.

Lemma modify_length (f : GameObject -> GameObject) (h : list GameObject) i :
  length (modify i f h) = length h.
Proof. apply length_alter. Qed.

Lemma foldl_modify_length (f : GameObject -> GameObject) ids : forall h,
  length (foldl (fun h j => modify j f h) h ids) = length h.
Proof.
  induction ids as [|j ids IH]; intros h; simpl; [reflexivity|].
  now rewrite IH, modify_length.
Qed.

Lemma foldl_modify_lookup (f : GameObject -> GameObject) ids :
  (forall o, f (f o) = f o) ->
  forall h i,
    foldl (fun h j => modify j f h) h ids !! i
    = if bool_decide (i ∈ ids) then f <$> h !! i else h !! i.
Proof.
  intros Hidem. induction ids as [|j ids IH]; intros h i; cbn [foldl].
  - rewrite bool_decide_eq_false_2; [reflexivity|apply not_elem_of_nil].
  - rewrite IH, modify_lookup. destruct (decide (j = i)) as [->|Hne].
    + rewrite (bool_decide_eq_true_2 (i ∈ i :: ids)) by left.
      case_bool_decide; [|reflexivity].
      destruct (h !! i); simpl; [|reflexivity]. now rewrite Hidem.
    + destruct (decide (i ∈ ids)) as [Hin|Hnin].
      * rewrite !bool_decide_eq_true_2; [reflexivity|now right|assumption].
      * rewrite !bool_decide_eq_false_2; [reflexivity| |assumption].
        intros [?|?]%elem_of_cons; congruence.
Qed.

(** ** reset_game *)

Lemma reset_collectible_idem o :
  reset_collectible (reset_collectible o) = reset_collectible o.
Proof. unfold reset_collectible. destruct o as [? ? ? ? ? ? ? ? ? ? []]; reflexivity. Qed.

Lemma reset_heap_lookup s i :
  heap (reset_game s) !! i
  = (if bool_decide (i ∈ collectibles s) then fmap reset_collectible else id)
      ((if bool_decide (player s = Some i) then fmap reset_player else id)
         (heap s !! i)).
Proof.
  unfold reset_game. simpl.
  rewrite foldl_modify_lookup by apply reset_collectible_idem.
  assert ((match player s with
           | Some p => modify p reset_player (heap s)
           | None => heap s
           end) !! i
          = (if bool_decide (player s = Some i) then fmap reset_player else id)
              (heap s !! i)) as ->.
  { destruct (player s) as [p|]; [|reflexivity].
    rewrite modify_lookup. destruct (decide (p = i)) as [->|Hne].
    - now rewrite bool_decide_eq_true_2.
    - rewrite bool_decide_eq_false_2; [reflexivity|congruence]. }
  now case_bool_decide.
Qed.

Lemma reset_player_same o : same_but_flags o (reset_player o).
Proof.
  unfold same_but_flags, reset_player, set_player_attrs.
  destruct o as [? ? ? ? ? ? ? ? ? ? []]; simpl; repeat split.
Qed.

Lemma reset_collectible_same o : same_but_flags o (reset_collectible o).
Proof.
  unfold same_but_flags, reset_collectible.
  destruct o as [? ? ? ? ? ? ? ? ? ? []]; simpl; repeat split.
Qed.

Lemma same_but_flags_refl o : same_but_flags o o.
Proof.
  unfold same_but_flags. destruct o as [? ? ? ? ? ? ? ? ? ? []]; simpl; repeat split.
Qed.

Lemma same_but_flags_trans o1 o2 o3 :
  same_but_flags o1 o2 -> same_but_flags o2 o3 -> same_but_flags o1 o3.
Proof.
  unfold same_but_flags.
  destruct o1 as [? ? ? ? ? ? ? ? ? ? []], o2 as [? ? ? ? ? ? ? ? ? ? []],
    o3 as [? ? ? ? ? ? ? ? ? ? []]; simpl; intuition congruence.
Qed.

(** C7. [reset_game] restores the default [GameState], the player's health
    (100) and the position of its physics body (100, 400), and makes every
    collectible active and not collected; the description, the object lists,
    the loaded images and every other attribute of every object stay as they
    were. *)
Theorem reset_game_restores_defaults s :
  let s' := reset_game s in
  game_state s' = GameState_default /\
  (game_data s' = game_data s /\ all_objects s' = all_objects s /\
   enemies s' = enemies s /\ collectibles s' = collectibles s /\
   platforms s' = platforms s /\ player s' = player s /\ space s' = space s /\
   assets s' = assets s /\ background s' = background s /\
   length (heap s') = length (heap s)) /\
  (forall i o, heap s !! i = Some o ->
     exists o', heap s' !! i = Some o' /\ same_but_flags o o') /\
  (forall i o, heap s !! i = Some o -> i ∉ collectibles s -> player s <> Some i ->
     heap s' !! i = Some o) /\
  (forall p o a, player s = Some p -> heap s !! p = Some o -> kind o = KPlayer a ->
     exists o' a', heap s' !! p = Some o' /\ kind o' = KPlayer a' /\
       health a' = 100%Z /\
       physics_body a'
       = (fun b => {| b_x := 100; b_y := 400; b_vx := b_vx b; b_vy := b_vy b |})
           <$> physics_body a) /\
  (forall i o c, i ∈ collectibles s -> heap s !! i = Some o ->
     kind o = KCollectible c ->
     exists o', heap s' !! i = Some o' /\ active o' = true /\
       kind o' = KCollectible {| points := points c; collected := false |}).
Proof.
  intros s'. subst s'. split; [reflexivity|]. split.
  { repeat split; try reflexivity. unfold reset_game. simpl.
    rewrite foldl_modify_length. destruct (player s); [apply modify_length|reflexivity]. }
  split; [|split; [|split]].
  - intros i o Ho. rewrite reset_heap_lookup, Ho.
    repeat case_bool_decide; simpl; eexists; (split; [reflexivity|]).
    + eapply same_but_flags_trans; [apply reset_player_same|apply reset_collectible_same].
    + apply reset_collectible_same.
    + apply reset_player_same.
    + apply same_but_flags_refl.
  - intros i o Ho Hc Hp. rewrite reset_heap_lookup, Ho.
    rewrite !bool_decide_eq_false_2 by (assumption || congruence). reflexivity.
  - intros p o a Hp Ho Hk. rewrite reset_heap_lookup, Ho.
    rewrite (bool_decide_eq_true_2 (player s = Some p)) by assumption.
    assert (kind (reset_player o)
            = KPlayer (set_physics_body
                         ((fun b => {| b_x := 100; b_y := 400;
                                       b_vx := b_vx b; b_vy := b_vy b |})
                            <$> physics_body a) (set_health 100 a))) as Hk'.
    { unfold reset_player, set_player_attrs. now rewrite Hk. }
    case_bool_decide; simpl; eexists _, _; (split; [reflexivity|]).
    + split.
      * unfold reset_collectible. rewrite Hk'. simpl. exact Hk'.
      * split; reflexivity.
    + split.
      * exact Hk'.
      * split; reflexivity.
  - intros i o c Hi Ho Hk. rewrite reset_heap_lookup, Ho.
    rewrite (bool_decide_eq_true_2 (i ∈ collectibles s)) by assumption.
    assert (forall o0, kind o0 = KCollectible c ->
              active (reset_collectible o0) = true /\
              kind (reset_collectible o0)
              = KCollectible {| points := points c; collected := false |}) as Hr.
    { intros o0 H0. unfold reset_collectible. rewrite H0. simpl. auto. }
    case_bool_decide; simpl; eexists; (split; [reflexivity|]); apply Hr.
    + unfold reset_player, set_player_attrs. now rewrite Hk.
    + assumption.
Qed.

(** ** _create_entities *)

Lemma modify_fmap {B} (g : GameObject -> B) f i h :
  (forall o, g (f o) = g o) -> g <$> modify i f h = g <$> h.
Proof.
  intros Hg. apply list_eq. intros j.
  rewrite !list_lookup_fmap, modify_lookup.
  destruct (decide (i = j)); [|reflexivity].
  destruct (h !! j); simpl; [|reflexivity]. now rewrite Hg.
Qed.














(** An item after a player with no sprite: no object for the item, and the
    player turns from its green to the item's blue. *)
Example item_recolors_player :
  let s := snd (_create_entities example_config hex2 scales player_and_item
                  (Engine_new 800 600)) in
  all_objects s = [0%nat] /\ o_name <$> heap s = ["player"] /\
  color <$> heap s = [(0, 0, 255)%Z].
Proof. repeat split; vm_compute; reflexivity. Qed.

(** ** Heaps that evolve *)

Lemma evolves_refl h : evolves h h.
Proof. split; [reflexivity|]. intros i o Ho. exists o. auto. Qed.

Lemma evolves_trans h1 h2 h3 : evolves h1 h2 -> evolves h2 h3 -> evolves h1 h3.
Proof.
  intros [L12 H12] [L23 H23]. split; [congruence|].
  intros i o3 H3. destruct (H23 i o3 H3) as (o2 & H2 & Ha2 & Hp2).
  destruct (H12 i o2 H2) as (o1 & H1 & Ha1 & Hp1).
  exists o1. repeat split; [assumption|auto|congruence].
Qed.

Lemma evolves_modify f i h : keeps f -> evolves h (modify i f h).
Proof.
  intros Hk. split; [apply modify_length|].
  intros j o' Ho'. rewrite modify_lookup in Ho'.
  destruct (decide (i = j)) as [->|Hne]; [|exists o'; auto].
  destruct (h !! j) as [o|]; simplify_eq/=. exists o.
  destruct (Hk o). auto.
Qed.

Lemma evolves_insert i o o' (h : list GameObject) :
  h !! i = Some o ->
  (active o' = true -> active o = true) ->
  collectible_points o' = collectible_points o ->
  evolves h (<[i := o']> h).
Proof.
  intros Ho Ha Hp. split; [apply length_insert|].
  intros j o2 H2. destruct (decide (i = j)) as [->|Hne].
  - rewrite list_lookup_insert_eq in H2 by (eapply lookup_lt_Some; eassumption).
    simplify_eq. exists o. auto.
  - rewrite list_lookup_insert_ne in H2 by assumption. exists o2. auto.
Qed.

Lemma evolves_lookup h h' i o :
  evolves h h' -> h !! i = Some o ->
  exists o', h' !! i = Some o' /\ (active o' = true -> active o = true) /\
             collectible_points o' = collectible_points o.
Proof.
  intros [Hl He] Ho.
  destruct (h' !! i) as [o'|] eqn:Ho'.
  - destruct (He i o' Ho') as (o0 & H0 & Ha & Hp). simplify_eq. eauto.
  - apply lookup_ge_None in Ho'. apply lookup_lt_Some in Ho. lia.
Qed.

Lemma points_nonneg_spec h :
  points_nonneg h = true <->
  forall i o n, h !! i = Some o -> collectible_points o = Some n -> (0 <= n)%Z.
Proof.
  unfold points_nonneg. rewrite forallb_forall. split.
  - intros H i o n Ho Hn. apply list_elem_of_lookup_2, list_elem_of_In, H in Ho.
    rewrite Hn in Ho. simpl in Ho. lia.
  - intros H o Hin. apply list_elem_of_In, list_elem_of_lookup in Hin as [i Hi].
    destruct (collectible_points o) as [n|] eqn:En; [|reflexivity]. simpl.
    apply Z.leb_le. eauto.
Qed.

Lemma evolves_points_nonneg h h' :
  evolves h h' -> points_nonneg h = true -> points_nonneg h' = true.
Proof.
  rewrite !points_nonneg_spec. intros [_ He] H i o' n Ho' Hn.
  destruct (He i o' Ho') as (o & Ho & _ & Hp). eapply H; [eassumption|congruence].
Qed.

Lemma all_inactive_spec s :
  all_inactive s = true <->
  forall i o, i ∈ collectibles s -> heap s !! i = Some o -> active o = false.
Proof.
  unfold all_inactive. rewrite forallb_forall. split.
  - intros H i o Hi Ho. apply list_elem_of_In, H in Hi. rewrite Ho in Hi.
    simpl in Hi. now apply negb_true_iff.
  - intros H i Hi. apply list_elem_of_In in Hi.
    destruct (heap s !! i) as [o|] eqn:Ho; [|reflexivity]. simpl.
    apply negb_true_iff. eauto.
Qed.

Lemma evolves_all_inactive s s' :
  evolves (heap s) (heap s') -> collectibles s' = collectibles s ->
  all_inactive s = true -> all_inactive s' = true.
Proof.
  rewrite !all_inactive_spec. intros [_ He] Hc H i o' Hi Ho'. rewrite Hc in Hi.
  destruct (He i o' Ho') as (o & Ho & Ha & _).
  destruct (active o') eqn:E; [|reflexivity].
  rewrite (H i o Hi Ho) in Ha. symmetry. now apply Ha.
Qed.

(** ** What each method keeps *)

Lemma keeps_set_player_attrs g : keeps (set_player_attrs g).
Proof.
  intros o. unfold set_player_attrs, collectible_points.
  destruct o as [? ? ? ? ? ? ? ? ? ? []]; simpl; auto.
Qed.

Lemma keeps_sync_player space_step dt boxes o o' :
  sync_player space_step dt boxes o = Some o' ->
  (active o' = true -> active o = true) /\
  collectible_points o' = collectible_points o.
Proof.
  unfold sync_player, collectible_points.
  destruct o as [? ? ? ? ? ? ? ? ? ? [p| | |]]; simpl;
    try (intros H; injection H as <-; auto).
  destruct (physics_body p); [destruct (space_step _ _ _)|];
    intros H; simplify_eq; simpl; auto.
Qed.

Lemma keeps_update_method dt :
  keeps (fun obj => if active obj then update_method dt obj else obj).
Proof.
  intros o. unfold update_method, Enemy_update, GameObject_update, collectible_points.
  destruct o as [? ? ? ? ? ? ? ? ? [] []]; simpl; auto.
Qed.

Lemma keeps_handle_input_player cfg gt keys : keeps (handle_input_player cfg gt keys).
Proof.
  intros o. unfold handle_input_player, jump, set_player_attrs, collectible_points.
  destruct gt; auto;
    repeat match goal with |- context [if ?b then _ else _] => destruct b end;
    destruct o as [? ? ? ? ? ? ? ? ? ? [p| | |]]; simpl; auto;
    repeat match goal with |- context [if ?b then _ else _] => destruct b end;
    simpl; auto.
Qed.

Lemma collect_keeps o :
  (active (snd (collect o)) = true -> active o = true) /\
  collectible_points (snd (collect o)) = collectible_points o.
Proof.
  unfold collect, collectible_points.
  destruct o as [? ? ? ? ? ? ? ? ? ? [| |[pts []]|]]; simpl; auto.
  split; [discriminate|reflexivity].
Qed.

Lemma collect_points o :
  fst (collect o) = 0%Z \/ collectible_points o = Some (fst (collect o)).
Proof.
  unfold collect, collectible_points.
  destruct o as [? ? ? ? ? ? ? ? ? ? [| |[pts []]|]]; simpl; auto.
Qed.

(** ** The phases of update *)

Lemma foldl_update_if_active dt ids : forall h,
  evolves h (foldl (update_if_active dt) h ids).
Proof.
  induction ids as [|i ids IH]; intros h; cbn [foldl]; [apply evolves_refl|].
  eapply evolves_trans; [|apply IH].
  apply evolves_modify, keeps_update_method.
Qed.

Section Phases.

Context (cfg : Config) (colliderect : Rect -> Rect -> bool)
  (space_step : float -> list StaticBox -> Body -> option Body).

Lemma collect_step_effect rect h sc i h' sc' :
  collect_step colliderect rect (h, sc) i = (h', sc') ->
  evolves h h' /\ (points_nonneg h = true -> (sc <= sc')%Z).
Proof.
  unfold collect_step. intros H.
  destruct (h !! i) as [c|] eqn:Hc;
    [|simplify_eq; split; [apply evolves_refl|lia]].
  destruct (active c && colliderect rect (rect_of c));
    [|simplify_eq; split; [apply evolves_refl|lia]].
  destruct (collect c) as [pts c'] eqn:Ec. simplify_eq.
  pose proof (collect_keeps c) as [Ha Hp]. pose proof (collect_points c) as Hpts.
  rewrite Ec in *. simpl in *. split.
  - eapply evolves_insert; eassumption.
  - intros Hn. destruct Hpts as [->|Hs]; [lia|].
    rewrite points_nonneg_spec in Hn. specialize (Hn i c pts Hc Hs). lia.
Qed.

Lemma foldl_collect_step rect ids : forall h sc h' sc',
  foldl (collect_step colliderect rect) (h, sc) ids = (h', sc') ->
  evolves h h' /\ (points_nonneg h = true -> (sc <= sc')%Z).
Proof.
  induction ids as [|i ids IH]; intros h sc h' sc' H; cbn [foldl] in H.
  - simplify_eq. split; [apply evolves_refl|lia].
  - destruct (collect_step colliderect rect (h, sc) i) as [h1 sc1] eqn:E.
    apply collect_step_effect in E as [He Hs].
    apply IH in H as [He' Hs']. split.
    + eapply evolves_trans; eassumption.
    + intros Hn. specialize (Hs Hn).
      specialize (Hs' (evolves_points_nonneg _ _ He Hn)). lia.
Qed.

Lemma collect_step_inactive rect h sc i o :
  h !! i = Some o -> active o = false ->
  collect_step colliderect rect (h, sc) i = (h, sc).
Proof. intros Ho Ha. unfold collect_step. now rewrite Ho, Ha. Qed.

Lemma foldl_enemy_step p rect ids : forall h over h' over',
  foldl (enemy_step colliderect p rect) (h, over) ids = (h', over') ->
  evolves h h'.
Proof.
  induction ids as [|i ids IH]; intros h over h' over' H; cbn [foldl] in H.
  - simplify_eq. apply evolves_refl.
  - destruct (enemy_step colliderect p rect (h, over) i) as [h1 over1] eqn:E.
    apply IH in H. eapply evolves_trans; [|eassumption].
    unfold enemy_step in E. destruct (h !! i) as [e|]; [|simplify_eq; apply evolves_refl].
    destruct (active e && colliderect rect (rect_of e));
      [|simplify_eq; apply evolves_refl].
    destruct (h !! p ≫= player_attrs); simplify_eq; [|apply evolves_refl].
    apply evolves_modify, keeps_set_player_attrs.
Qed.

Lemma check_collisions_effect s :
  let s' := _check_collisions colliderect s in
  evolves (heap s) (heap s') /\ collectibles s' = collectibles s /\
  all_objects s' = all_objects s /\
  win (game_state s') = win (game_state s) /\
  (points_nonneg (heap s) = true ->
   (score (game_state s) <= score (game_state s'))%Z).
Proof.
  unfold _check_collisions.
  destruct (player s) as [p|]; [|simpl; split_all; first [apply evolves_refl|reflexivity|lia]].
  destruct (player_obj s) as [po|]; [|simpl; split_all; first [apply evolves_refl|reflexivity|lia]].
  destruct (foldl (collect_step colliderect (rect_of po)) _ _) as [h1 sc] eqn:E1.
  destruct (foldl (enemy_step colliderect p (rect_of po)) _ _) as [h2 over] eqn:E2.
  apply foldl_collect_step in E1 as [He1 Hs]. apply foldl_enemy_step in E2.
  simpl. split_all; [eapply evolves_trans; eassumption|reflexivity..|assumption].
Qed.

Lemma update_camera_effect s :
  let s' := _update_camera s in
  heap s' = heap s /\ collectibles s' = collectibles s /\
  all_objects s' = all_objects s /\ game_state s' = game_state s.
Proof. unfold _update_camera. destruct (player_obj s); simpl; auto. Qed.

Lemma check_game_conditions_effect s :
  let s' := _check_game_conditions s in
  heap s' = heap s /\ collectibles s' = collectibles s /\
  all_objects s' = all_objects s /\
  score (game_state s') = score (game_state s) /\
  win (game_state s')
  = win (game_state s) || (all_inactive s && (0 <? length (collectibles s))%nat).
Proof.
  unfold _check_game_conditions.
  destruct (all_inactive s && (0 <? length (collectibles s))%nat);
    [rewrite orb_true_r|rewrite orb_false_r].
  - destruct (player_obj _) as [po|]; [destruct (_ <? _)%float|]; simpl; auto.
  - destruct (player_obj _) as [po|]; [destruct (_ <? _)%float|]; simpl; auto.
Qed.

Lemma step_physics_effect dt s s2 :
  step_physics space_step dt s = Some s2 ->
  evolves (heap s) (heap s2) /\ collectibles s2 = collectibles s /\
  all_objects s2 = all_objects s /\ enemies s2 = enemies s /\
  player s2 = player s /\ game_state s2 = game_state s.
Proof.
  unfold step_physics, player_obj.
  destruct (player s) as [p|] eqn:Ep;
    [|intros H; injection H as <-; split_all; first [apply evolves_refl|auto]].
  destruct (heap s !! p) as [o|] eqn:Ho;
    [|intros H; injection H as <-; split_all; first [apply evolves_refl|auto]].
  destruct (sync_player space_step dt (space s) o) as [o'|] eqn:Es; [|discriminate].
  intros H. injection H as <-. apply keeps_sync_player in Es as [Ha Hp].
  simpl. split_all; try reflexivity; [|exact Ep].
  eapply evolves_insert; eassumption.
Qed.

Lemma update_objects_effect dt s :
  let s' := update_objects dt s in
  evolves (heap s) (heap s') /\ collectibles s' = collectibles s /\
  all_objects s' = all_objects s /\ game_state s' = game_state s.
Proof.
  unfold update_objects. simpl. split_all; try reflexivity.
  eapply evolves_trans; apply foldl_update_if_active.
Qed.

(** The two ways an [update] ends: [space.step] raises, and only the clock
    has moved; or every phase has run. *)
Lemma update_cases dt s :
  update colliderect space_step dt s = (false, advance_time dt s) \/
  exists s2,
    step_physics space_step dt (advance_time dt s) = Some s2 /\
    update colliderect space_step dt s
    = (true,
       _check_game_conditions
         (_update_camera (_check_collisions colliderect (update_objects dt s2)))).
Proof.
  unfold update. cbv zeta.
  destruct (step_physics space_step dt (advance_time dt s)) as [s2|]; eauto.
Qed.

Lemma all_inactive_ext s s' :
  heap s' = heap s -> collectibles s' = collectibles s ->
  all_inactive s' = all_inactive s.
Proof. unfold all_inactive. now intros -> ->. Qed.

(** One [update]: no object is created, activated or re-priced; the score
    does not decrease when no point value is negative; and the win flag is
    the old one or the win test on the state reached. *)
Lemma update_effect dt s :
  let s' := snd (update colliderect space_step dt s) in
  evolves (heap s) (heap s') /\ collectibles s' = collectibles s /\
  all_objects s' = all_objects s /\
  (points_nonneg (heap s) = true ->
   (score (game_state s) <= score (game_state s'))%Z) /\
  win (game_state s')
  = win (game_state s)
    || (fst (update colliderect space_step dt s)
        && (all_inactive s' && (0 <? length (collectibles s'))%nat)).
Proof.
  destruct (update_cases dt s) as [->|(s0 & E0 & ->)]; cbn [fst snd].
  { unfold advance_time. simpl. rewrite orb_false_r.
    split_all; first [apply evolves_refl|reflexivity|lia]. }
  apply step_physics_effect in E0 as (E0 & C0 & A0 & _ & _ & G0).
  unfold advance_time in E0, C0, A0, G0. simpl in E0, C0, A0, G0.
  set (s1 := update_objects dt s0).
  pose proof (update_objects_effect dt s0) as (E1 & C1 & A1 & G1). fold s1 in E1, C1, A1, G1.
  set (s2 := _check_collisions colliderect s1).
  pose proof (check_collisions_effect s1) as (E2 & C2 & A2 & W2 & S2). fold s2 in E2, C2, A2, W2, S2.
  set (s3 := _update_camera s2).
  pose proof (update_camera_effect s2) as (H3 & C3 & A3 & G3). fold s3 in H3, C3, A3, G3.
  pose proof (check_game_conditions_effect s3) as (H4 & C4 & A4 & S4 & W4).
  assert (evolves (heap s) (heap s1)) as E01 by (eapply evolves_trans; eassumption).
  split_all.
  - rewrite H4, H3. eapply evolves_trans; eassumption.
  - congruence.
  - congruence.
  - intros Hn. rewrite S4, G3.
    assert (score (game_state s1) = score (game_state s)) as <-
      by now rewrite G1, G0.
    apply S2. eapply evolves_points_nonneg; eassumption.
  - rewrite W4, G3, W2, G1, G0. simpl. f_equal.
    rewrite (all_inactive_ext s3 (_check_game_conditions s3)) by assumption.
    now rewrite C4.
Qed.

Lemma handle_input_effect keys s :
  let s' := handle_input cfg keys s in
  evolves (heap s) (heap s') /\ collectibles s' = collectibles s /\
  all_objects s' = all_objects s /\ game_state s' = game_state s.
Proof.
  unfold handle_input. simpl. destruct (player s) as [p|]; simpl; split_all;
    try reflexivity; try apply evolves_refl.
  apply evolves_modify, keeps_handle_input_player.
Qed.

Lemma step_effect s a :
  is_reset a = false ->
  let s' := step cfg colliderect space_step s a in
  evolves (heap s) (heap s') /\ collectibles s' = collectibles s /\
  all_objects s' = all_objects s /\
  (points_nonneg (heap s) = true ->
   (score (game_state s) <= score (game_state s'))%Z).
Proof.
  destruct a as [keys|dt|]; [| |discriminate]; intros _; unfold step.
  - pose proof (handle_input_effect keys s) as (E & C & A & G).
    split_all; try assumption. rewrite G. lia.
  - pose proof (update_effect dt s) as (E & C & A & S & _).
    split_all; assumption.
Qed.

Lemma run_effect actions : forall s,
  forallb (fun a => negb (is_reset a)) actions = true ->
  let s' := run cfg colliderect space_step actions s in
  evolves (heap s) (heap s') /\ collectibles s' = collectibles s /\
  all_objects s' = all_objects s /\
  (points_nonneg (heap s) = true ->
   (score (game_state s) <= score (game_state s'))%Z).
Proof.
  unfold run.
  induction actions as [|a actions IH]; intros s Hr; simpl in *.
  - split_all; first [apply evolves_refl|reflexivity|lia].
  - apply andb_true_iff in Hr as [Ha Hr]. apply negb_true_iff in Ha.
    pose proof (step_effect s a Ha) as (E & C & A & S).
    destruct (IH (step cfg colliderect space_step s a) Hr) as (E' & C' & A' & S').
    split; [eapply evolves_trans; eassumption|].
    split; [congruence|]. split; [congruence|].
    intros Hn. specialize (S Hn).
    specialize (S' (evolves_points_nonneg _ _ E Hn)). lia.
Qed.


Lemma rendered_active s i :
  i ∈ rendered s -> exists o, heap s !! i = Some o /\ active o = true.
Proof.
  unfold rendered. intros Hi. apply list_elem_of_In, filter_In in Hi as [_ Hi].
  destruct (heap s !! i) as [o|]; [|discriminate]. eauto.
Qed.

Lemma collect_twice o : collect (snd (collect o)) = (0%Z, snd (collect o)).
Proof.
  unfold collect. destruct o as [? ? ? ? ? ? ? ? ? ? [| |[pts []]|]]; reflexivity.
Qed.

(** C5, amended. Collecting is idempotent: the first [collect] awards the
    points and leaves the collectible inactive, [collect] on what [collect]
    returned awards 0 and changes nothing, the collision check passes over an
    inactive collectible whatever the overlap, and an inactive object stays
    inactive, and is not rendered, through every sequence of inputs and
    updates without a reset; and when no collectible has a negative point
    value the score does not decrease through such a sequence. *)
Theorem collecting_once_and_score_monotone s actions :
  forallb (fun a => negb (is_reset a)) actions = true ->
  (forall o c,
     kind o = KCollectible c -> collected c = false ->
     fst (collect o) = points c /\ active (snd (collect o)) = false) /\
  (forall o, collect (snd (collect o)) = (0%Z, snd (collect o))) /\
  (forall rect h sc i o,
     h !! i = Some o -> active o = false ->
     collect_step colliderect rect (h, sc) i = (h, sc)) /\
  (forall i o,
     heap s !! i = Some o -> active o = false ->
     exists o',
       heap (run cfg colliderect space_step actions s) !! i = Some o' /\
       active o' = false /\
       i ∉ rendered (run cfg colliderect space_step actions s)) /\
  (points_nonneg (heap s) = true ->
   (score (game_state s)
    <= score (game_state (run cfg colliderect space_step actions s)))%Z).
Proof.
  intros Hr. pose proof (run_effect actions s Hr) as (E & _ & _ & S).
  split; [intros o c Hk Hc; unfold collect; rewrite Hk, Hc; split; reflexivity|].
  split; [apply collect_twice|]. split; [apply collect_step_inactive|].
  split; [|exact S].
  intros i o Ho Ha. destruct (evolves_lookup _ _ i o E Ho) as (o' & Ho' & Hact & _).
  assert (active o' = false) as Ha'.
  { destruct (active o') eqn:Eo; [|reflexivity]. rewrite <- Ha. symmetry. now apply Hact. }
  exists o'. split_all; [assumption..|].
  intros (o2 & H2 & A2)%rendered_active. congruence.
Qed.

(** ** initialize_game *)

Lemma place_entity_frame scale_ok e s :
  game_state (snd (place_entity cfg scale_ok e s)) = game_state s /\
  collectibles (snd (place_entity cfg scale_ok e s)) = collectibles s /\
  platforms (snd (place_entity cfg scale_ok e s)) = platforms s /\
  space (snd (place_entity cfg scale_ok e s)) = space s /\
  assets (snd (place_entity cfg scale_ok e s)) = assets s.
Proof.
  unfold place_entity. cbv zeta.
  destruct (decide _); [|destruct (_ || _)];
    try destruct (sprite_for _ _ _ _ _); simpl; auto.
Qed.

Lemma create_entity_frame int16 scale_ok e s :
  game_state (snd (create_entity cfg int16 scale_ok e s)) = game_state s /\
  collectibles (snd (create_entity cfg int16 scale_ok e s)) = collectibles s /\
  platforms (snd (create_entity cfg int16 scale_ok e s)) = platforms s /\
  space (snd (create_entity cfg int16 scale_ok e s)) = space s /\
  assets (snd (create_entity cfg int16 scale_ok e s)) = assets s.
Proof.
  unfold create_entity.
  pose proof (place_entity_frame scale_ok e s) as H.
  destruct (place_entity cfg scale_ok e s) as [[|] s1]; cbn [snd] in *; [|exact H].
  destruct (parse_color _ _ _); cbn [snd]; [|exact H].
  destruct (last _); [|exact H]. exact H.
Qed.

Lemma create_entities_frame int16 scale_ok es : forall s,
  game_state (snd (_create_entities cfg int16 scale_ok es s)) = game_state s /\
  collectibles (snd (_create_entities cfg int16 scale_ok es s)) = collectibles s /\
  platforms (snd (_create_entities cfg int16 scale_ok es s)) = platforms s /\
  space (snd (_create_entities cfg int16 scale_ok es s)) = space s /\
  assets (snd (_create_entities cfg int16 scale_ok es s)) = assets s.
Proof.
  induction es as [|e es IH]; intros s; simpl; [auto|].
  pose proof (create_entity_frame int16 scale_ok e s) as (G & C & P & S & A).
  destruct (create_entity cfg int16 scale_ok e s) as [[] s1]; simpl in *.
  - destruct (IH s1) as (G' & C' & P' & S' & A'). split_all; congruence.
  - auto.
Qed.

Lemma create_platform_frame int16 p s :
  game_state (snd (create_platform int16 p s)) = game_state s /\
  collectibles (snd (create_platform int16 p s)) = collectibles s.
Proof. unfold create_platform. destruct (parse_color _ _ _); split; reflexivity. Qed.

Lemma create_platforms_frame int16 ps : forall s,
  game_state (snd (create_platforms int16 ps s)) = game_state s /\
  collectibles (snd (create_platforms int16 ps s)) = collectibles s.
Proof.
  induction ps as [|p ps IH]; intros s; simpl; [auto|].
  pose proof (create_platform_frame int16 p s) as [G C].
  destruct (create_platform int16 p s) as [[] s1]; simpl in *.
  - destruct (IH s1) as [G' C']. split; congruence.
  - auto.
Qed.

Lemma create_collectibles_game_state scale_ok cs : forall s,
  game_state (snd (create_collectibles scale_ok cs s)) = game_state s.
Proof.
  induction cs as [|c cs IH]; intros s; cbn [create_collectibles]; [reflexivity|].
  unfold create_collectible. cbv zeta.
  destruct (sprite_for _ _ _ _ _) as [sp|]; [|reflexivity].
  rewrite IH. reflexivity.
Qed.

Lemma create_level_objects_frame int16 scale_ok level_data s :
  game_state (snd (_create_level_objects int16 scale_ok level_data s)) = game_state s /\
  (l_collectibles level_data = [] ->
   collectibles (snd (_create_level_objects int16 scale_ok level_data s))
   = collectibles s).
Proof.
  unfold _create_level_objects.
  pose proof (create_platforms_frame int16 (l_platforms level_data) s) as [G C].
  destruct (create_platforms _ _ _) as [[] s1]; simpl in *.
  - rewrite create_collectibles_game_state. split; [assumption|].
    intros ->. assumption.
  - auto.
Qed.

Lemma setup_physics_frame s :
  game_state (_setup_physics s) = game_state s /\
  collectibles (_setup_physics s) = collectibles s.
Proof. unfold _setup_physics. simpl. destruct (player s); simpl; auto. Qed.

Lemma initialize_game_frame int16 image_load scale_ok g paths s :
  game_state (snd (initialize_game cfg int16 image_load scale_ok g paths s))
  = game_state s /\
  (zero_collectibles g ->
   collectibles (snd (initialize_game cfg int16 image_load scale_ok g paths s))
   = collectibles s).
Proof.
  unfold initialize_game. destruct (GameType_of _) as [gt|]; simpl; [|auto].
  match goal with |- context [_create_entities cfg int16 scale_ok ?es ?s1] =>
    pose proof (create_entities_frame int16 scale_ok es s1) as (G & C & _);
    destruct (_create_entities cfg int16 scale_ok es s1) as [[] s2] end;
    simpl in *; [|auto].
  destruct (first_level g) as [level_data|] eqn:El; simpl; [|auto].
  pose proof (create_level_objects_frame int16 scale_ok level_data s2) as [G' C'].
  destruct (_create_level_objects int16 scale_ok level_data s2) as [[] s3]; simpl in *.
  - destruct (setup_physics_frame s3) as [G2 C2]. split; [congruence|].
    intros Hz. rewrite C2, C' by (now apply Hz). assumption.
  - split; [congruence|]. intros Hz. rewrite C' by (now apply Hz). assumption.
Qed.

(** ** The win flag *)

Lemma reset_game_effect s :
  win (game_state (reset_game s)) = false /\
  collectibles (reset_game s) = collectibles s.
Proof. split; reflexivity. Qed.

Lemma step_collectibles s a :
  collectibles (step cfg colliderect space_step s a) = collectibles s.
Proof.
  destruct a as [keys|dt|]; unfold step.
  - apply handle_input_effect.
  - apply update_effect.
  - reflexivity.
Qed.

Lemma handle_input_win_sound keys s :
  win_sound s -> win_sound (handle_input cfg keys s).
Proof.
  unfold win_sound. intros Hinv.
  pose proof (handle_input_effect keys s) as (E & C & _ & G).
  rewrite G, C. intros Hw. specialize (Hinv Hw).
  apply andb_true_iff in Hinv as [Hl Hi]. apply andb_true_iff. split; [assumption|].
  eapply evolves_all_inactive; eassumption.
Qed.

Lemma update_win_sound dt s :
  win_sound s -> win_sound (snd (update colliderect space_step dt s)).
Proof.
  unfold win_sound. intros Hinv.
  pose proof (update_effect dt s) as (E & C & _ & _ & W).
  rewrite W. intros [Hw|Hc]%orb_true_iff.
  - specialize (Hinv Hw). apply andb_true_iff in Hinv as [Hl Hi].
    apply andb_true_iff. split; [now rewrite C|].
    eapply evolves_all_inactive; eassumption.
  - apply andb_true_iff in Hc as [_ Hc].
    apply andb_true_iff in Hc as [Hi Hl]. apply andb_true_iff. auto.
Qed.

Lemma step_win_sound s a :
  win_sound s -> win_sound (step cfg colliderect space_step s a).
Proof.
  intros Hinv. destruct a as [keys|dt|]; unfold step.
  - now apply handle_input_win_sound.
  - now apply update_win_sound.
  - unfold win_sound. discriminate.
Qed.

Lemma run_win_sound actions : forall s,
  win_sound s -> win_sound (run cfg colliderect space_step actions s).
Proof.
  unfold run. induction actions as [|a actions IH]; intros s H; simpl; [assumption|].
  apply IH, step_win_sound, H.
Qed.

Lemma run_collectibles actions : forall s,
  collectibles (run cfg colliderect space_step actions s) = collectibles s.
Proof.
  unfold run. induction actions as [|a actions IH]; intros s; simpl; [reflexivity|].
  now rewrite IH, step_collectibles.
Qed.

Lemma session_win_sound int16 image_load scale_ok g paths :
  win_sound (session cfg int16 image_load scale_ok g paths).
Proof.
  unfold win_sound, session.
  destruct (initialize_game_frame int16 image_load scale_ok g paths
              (Engine_new (GAME_WIDTH cfg) (GAME_HEIGHT cfg))) as [-> _].
  discriminate.
Qed.

Lemma win_test_spec s :
  (0 <? length (collectibles s))%nat && all_inactive s = true <->
  collectibles s <> [] /\
  forall i o, i ∈ collectibles s -> heap s !! i = Some o -> active o = false.
Proof.
  rewrite andb_true_iff, all_inactive_spec, Nat.ltb_lt.
  destruct (collectibles s); simpl; split; intros [H1 H2]; split;
    (congruence || lia || assumption).
Qed.

Lemma session_collectibles int16 image_load scale_ok g paths :
  zero_collectibles g -> collectibles (session cfg int16 image_load scale_ok g paths) = [].
Proof.
  intros Hz. unfold session.
  destruct (initialize_game_frame int16 image_load scale_ok g paths
              (Engine_new (GAME_WIDTH cfg) (GAME_HEIGHT cfg))) as [_ Hc].
  rewrite (Hc Hz). reflexivity.
Qed.

Lemma win_sound_no_collectibles s :
  win_sound s -> collectibles s = [] -> win (game_state s) = false.
Proof.
  unfold win_sound. intros Hinv Hc. rewrite Hc in Hinv.
  destruct (win (game_state s)); [|reflexivity].
  specialize (Hinv eq_refl). discriminate.
Qed.

End Phases.

(** C5, as stated, fails: a collectible worth -5 points lies under the
    player; one update takes the score from 0 to -5. *)
Lemma poison_lowers_score :
  score (game_state (session_of poison_game)) = 0%Z /\
  score (game_state (run example_config overlap free_fall [Update frame_dt]
                       (session_of poison_game))) = (-5)%Z.
Proof. split; vm_compute; reflexivity. Qed.

Lemma collecting_once_and_score_monotone_witness :
  forallb (fun a => negb (is_reset a)) short_play = true /\
  points_nonneg (heap (session_of demo_game)) = true /\
  (score (game_state (session_of demo_game))
   <= score (game_state (run example_config overlap free_fall short_play
                           (session_of demo_game))))%Z.
Proof.
  split; [reflexivity|]. split; [vm_compute; reflexivity|].
  apply (collecting_once_and_score_monotone example_config overlap free_fall
           (session_of demo_game) short_play eq_refl).
  vm_compute. reflexivity.
Defined.

(** ** update *)

(** C3, at the failing input. An enemy at its spawn x = 100: one
    [Enemy.update] with dt = 0.5 moves it to 125 (velocity 50), and one
    [update] of the engine, which returns, moves it to 150, for it is updated
    once through [all_objects] and once more through [enemies]. *)
Theorem enemy_moves_twice_per_update colliderect space_step :
  let s0 := session_of enemy_only in
  let s1 := snd (update colliderect space_step 0.5 s0) in
  fst (update colliderect space_step 0.5 s0) = true /\ all_objects s0 = [0%nat] /\ enemies s0 = [0%nat] /\
  (o_x <$> heap s0 !! 0%nat) = Some 100%float /\
  (o_x <$> (update_method 0.5 <$> heap s0 !! 0%nat)) = Some 125%float /\
  (velocity_x <$> (update_method 0.5 <$> heap s0 !! 0%nat)) = Some 50%float /\
  (o_x <$> heap s1 !! 0%nat) = Some 150%float /\
  (velocity_x <$> heap s1 !! 0%nat) = Some 50%float.
Proof. intros s0 s1. repeat split; vm_compute; reflexivity. Qed.

(** * More about the pipeline *)

Lemma get_remaining_raises es generated e :
  e ∈ es -> e_name e = None -> _get_remaining_entities es generated = None.
Proof.
  induction es as [|e0 es IH]; intros Hin Hn; [inversion Hin|].
  simpl. apply elem_of_cons in Hin as [<-|Hin].
  - now rewrite Hn.
  - destruct (e_name e0); [|reflexivity]. now rewrite IH.
Qed.

(** An entity without a name makes the pipeline raise, wherever it stands in
    the list and whatever the cache holds and the service answers: no
    dictionary is returned. *)
Theorem nameless_entity_raises cfg md5 dalle int16 save_ok g m e :
  e ∈ g_entities g -> e_name e = None ->
  fst (generate_game_assets cfg md5 dalle int16 save_ok g m) = None.
Proof.
  intros Hin Hn. unfold generate_game_assets.
  destruct (_identify_priority_assets cfg g) as [reqs|]; [|reflexivity].
  destruct (generate_priority _ _ _ _ _ _) as [assets m1].
  now rewrite (get_remaining_raises _ _ e).
Qed.

Lemma nameless_entity_raises_witness :
  nameless_item ∈ g_entities (game [entity "player" "player" 100 400 "#00FF00"; nameless_item] None) /\
  e_name nameless_item = None /\
  fst (generate_game_assets example_config md5_stub (fun _ _ => Stored) hex2
         (fun _ => true)
         (game [entity "player" "player" 100 400 "#00FF00"; nameless_item] None)
         manager_empty) = None.
Proof.
  assert (nameless_item ∈ g_entities
            (game [entity "player" "player" 100 400 "#00FF00"; nameless_item] None)) as H
    by (right; left).
  split; [exact H|]. split; [reflexivity|].
  exact (nameless_entity_raises example_config md5_stub (fun _ _ => Stored) hex2
           (fun _ => true) _ manager_empty nameless_item H eq_refl).
Defined.

Lemma slice_past_end c : (String.length c <= 4)%nat -> slice 4 6 c = "".
Proof.
  intros H. unfold slice. simpl.
  destruct c as [|? [|? [|? [|? [|? c]]]]]; simpl in *; try reflexivity; lia.
Qed.

Lemma hex_triple_short int16 c :
  int16 "" = None -> (String.length c <= 4)%nat -> hex_triple int16 c = None.
Proof.
  intros H0 Hl. unfold hex_triple. rewrite (slice_past_end c Hl), H0.
  destruct (int16 (slice 0 2 c)); [|reflexivity].
  destruct (int16 (slice 2 4 c)); reflexivity.
Qed.

(** A colour with fewer than five characters after its '#', such as '#FFF',
    makes [_create_fallback_asset] raise, for [int('', 16)] raises; unless
    the fallback image is already there, in which case the colour is not
    read. Nothing is written. *)
Theorem short_hex_colour_raises cfg int16 save_ok e m n c :
  int16 "" = None ->
  e_name e = Some n -> e_color e = Some (String "#" c) ->
  (String.length c <= 4)%nat ->
  fallback_path cfg n (String "#" c) ∉ files m ->
  _create_fallback_asset cfg int16 save_ok e m = (None, m).
Proof.
  intros H0 Hn Hc Hl Hf. unfold _create_fallback_asset. rewrite Hn, Hc. simpl default.
  rewrite bool_decide_eq_false_2 by assumption.
  change (startswith "#" (String "#" c)) with true. cbv iota.
  change (tail1 (String "#" c)) with c.
  now rewrite hex_triple_short.
Qed.


Lemma concat_cons_origin {A B} (f : A -> list B) (ls : list A) x rest :
  concat (map f ls) = x :: rest -> exists l, l ∈ ls /\ f l <> [].
Proof.
  induction ls as [|l ls IH]; simpl; [discriminate|].
  destruct (f l) as [|y ys] eqn:E; simpl.
  - intros H. destruct (IH H) as (l' & Hl & Hne). exists l'. split; [now right|assumption].
  - intros _. exists l. split; [left|congruence].
Qed.

Lemma enemy_name_is_some e : is_enemy_name e = true -> is_Some (e_name e).
Proof.
  unfold is_enemy_name. destruct (e_name e); [eauto|]. simpl. discriminate.
Qed.

Lemma candidates_origin cfg g l :
  priority_candidates cfg g = Some l ->
  (length l <= 5)%nat /\
  sublist (map a_type l) ["character"; "background"; "character"; "item"; "tile"] /\
  forall info, info ∈ l -> candidate_origin g info.
Proof.
  unfold priority_candidates. intros H.
  (* the player *)
  assert (exists pl, (length pl <= 1)%nat /\ sublist (map a_type pl) ["character"] /\
            (forall info, info ∈ pl -> candidate_origin g info) /\
            match find_player (g_entities g) with
            | None => Some []
            | Some p =>
                match e_name p with
                | None => None
                | Some n =>
                    Some [ {| a_name := n; a_type := "character";
                              a_prompt := _create_player_prompt p g;
                              a_size := (SPRITE_SIZE cfg, SPRITE_SIZE cfg) |} ]
                end
            end = Some pl) as (pl & Lpl & Spl & Opl & Epl).
  { destruct (find_player (g_entities g)) as [p|] eqn:Ep.
    - destruct (e_name p) as [n|] eqn:En; [|simpl in H; discriminate].
      eexists. split; [|split; [|split; [|reflexivity]]]; [simpl; lia|reflexivity|].
      intros info ->%list_elem_of_singleton. left. split; [reflexivity|].
      unfold find_player in Ep.
      apply head_Some_elem_of, list_elem_of_filter in Ep as [Ht Hin].
      exists p. auto.
    - exists []. split; [simpl; lia|]. split; [apply sublist_nil_l|]. split; [|reflexivity].
      intros info Hi. inversion Hi. }
  rewrite Epl in H. simplify_eq.
  set (bg := match levels_of g with [] => [] | level :: _ => _ end).
  set (en := match List.filter is_enemy_name (g_entities g) with [] => [] | e :: _ => _ end).
  set (co := match concat (map l_collectibles (levels_of g)) with [] => [] | c :: _ => _ end).
  set (pf := match concat (map l_platforms (levels_of g)) with [] => [] | c :: _ => _ end).
  assert ((length bg <= 1)%nat /\ sublist (map a_type bg) ["background"] /\
          forall info, info ∈ bg -> candidate_origin g info) as (Lbg & Sbg & Obg).
  { subst bg. destruct (levels_of g) as [|level rest] eqn:El.
    - split; [simpl; lia|]. split; [apply sublist_nil_l|]. intros info Hi. inversion Hi.
    - split; [simpl; lia|]. split; [reflexivity|].
      intros info ->%list_elem_of_singleton. right. left. repeat split. rewrite El. discriminate. }
  assert ((length en <= 1)%nat /\ sublist (map a_type en) ["character"] /\
          forall info, info ∈ en -> candidate_origin g info) as (Len & Sen & Oen).
  { subst en. destruct (List.filter is_enemy_name (g_entities g)) as [|e rest] eqn:Ef.
    - split; [simpl; lia|]. split; [apply sublist_nil_l|]. intros info Hi. inversion Hi.
    - split; [simpl; lia|]. split; [reflexivity|].
      intros info ->%list_elem_of_singleton. left. split; [reflexivity|].
      assert (In e (List.filter is_enemy_name (g_entities g))) as Hin
        by (rewrite Ef; now left).
      apply filter_In in Hin as [Hin He].
      destruct (enemy_name_is_some e He) as [n Hn].
      exists e. simpl. rewrite Hn. split; [now apply list_elem_of_In|]. auto. }
  assert ((length co <= 1)%nat /\ sublist (map a_type co) ["item"] /\
          forall info, info ∈ co -> candidate_origin g info) as (Lco & Sco & Oco).
  { subst co. destruct (concat (map l_collectibles (levels_of g))) as [|c rest] eqn:Ec.
    - split; [simpl; lia|]. split; [apply sublist_nil_l|]. intros info Hi. inversion Hi.
    - split; [simpl; lia|]. split; [reflexivity|].
      intros info ->%list_elem_of_singleton. right. right. left. repeat split.
      eapply concat_cons_origin, Ec. }
  assert ((length pf <= 1)%nat /\ sublist (map a_type pf) ["tile"] /\
          forall info, info ∈ pf -> candidate_origin g info) as (Lpf & Spf & Opf).
  { subst pf. destruct (concat (map l_platforms (levels_of g))) as [|c rest] eqn:Ec.
    - split; [simpl; lia|]. split; [apply sublist_nil_l|]. intros info Hi. inversion Hi.
    - split; [simpl; lia|]. split; [reflexivity|].
      intros info ->%list_elem_of_singleton. right. right. right. repeat split.
      eapply concat_cons_origin, Ec. }
  clearbody bg en co pf. split; [|split].
  - rewrite !length_app. lia.
  - rewrite !map_app.
    change ["character"; "background"; "character"; "item"; "tile"]
      with (["character"] ++ ["background"] ++ ["character"] ++ ["item"] ++ ["tile"])%list.
    repeat apply sublist_app; assumption.
  - intros info Hi. rewrite !elem_of_app in Hi.
    destruct Hi as [?|[?|[?|[?|?]]]]; auto.
Qed.

Lemma identify_ranked cfg g reqs :
  _identify_priority_assets cfg g = Some reqs ->
  (length reqs <= Nat.min (MAX_DALLE_REQUESTS_PER_GAME cfg) 5)%nat /\
  sublist (map a_type reqs) ["character"; "background"; "character"; "item"; "tile"] /\
  forall info, info ∈ reqs -> candidate_origin g info.
Proof.
  unfold _identify_priority_assets. intros H.
  destruct (priority_candidates cfg g) as [l|] eqn:El; [|discriminate].
  simpl in H. simplify_eq.
  apply candidates_origin in El as (Hl & Hs & Ho). split; [|split].
  - rewrite length_take. lia.
  - etransitivity; [|exact Hs]. rewrite <- firstn_map. apply sublist_take.
  - intros info Hi. apply Ho. eapply subseteq_take, Hi.
Qed.

(** The candidates of a description: at most five and at most the budget,
    ranked player, background, enemy, collectible, platform, each taken from
    the description. *)
Theorem priority_assets_ranked cfg g reqs :
  _identify_priority_assets cfg g = Some reqs ->
  (length reqs <= Nat.min (MAX_DALLE_REQUESTS_PER_GAME cfg) 5)%nat /\
  sublist (map a_type reqs) ["character"; "background"; "character"; "item"; "tile"] /\
  forall info, info ∈ reqs -> candidate_origin g info.
Proof. apply identify_ranked. Qed.

Lemma short_hex_colour_raises_witness :
  hex2 "" = None /\
  (fallback_path example_config "hero" "#FFF" ∉ files manager_empty) /\
  _create_fallback_asset example_config hex2 (fun _ => true)
    (entity "hero" "player" 0 0 "#FFF") manager_empty = (None, manager_empty).
Proof.
  split; [reflexivity|]. split; [apply not_elem_of_empty|].
  exact (short_hex_colour_raises example_config hex2 (fun _ => true)
           (entity "hero" "player" 0 0 "#FFF") manager_empty "hero" "FFF"
           eq_refl eq_refl eq_refl ltac:(simpl; lia) (not_elem_of_empty _)).
Defined.

Lemma priority_assets_ranked_witness :
  _identify_priority_assets example_config demo_game = Some demo_candidates /\
  (length demo_candidates <= Nat.min (MAX_DALLE_REQUESTS_PER_GAME example_config) 5)%nat /\
  sublist (map a_type demo_candidates)
    ["character"; "background"; "character"; "item"; "tile"] /\
  forall info, info ∈ demo_candidates -> candidate_origin demo_game info.
Proof.
  split; [reflexivity|].
  exact (priority_assets_ranked example_config demo_game demo_candidates eq_refl).
Defined.

(** One run posts at most five requests, however large the budget. *)
Theorem at_most_five_requests cfg md5 dalle int16 save_ok g m :
  (api_calls (snd (generate_game_assets cfg md5 dalle int16 save_ok g m))
   <= api_calls m + 5)%nat.
Proof.
  unfold generate_game_assets.
  destruct (_identify_priority_assets cfg g) as [reqs|] eqn:Er; simpl; [|lia].
  apply identify_ranked in Er as (Hl & _).
  destruct (generate_priority cfg md5 dalle reqs ∅ (set_count 0 m)) as [assets m1] eqn:Eg.
  apply generate_priority_inv in Eg as (Ha & _). simpl in Ha.
  destruct (_get_remaining_entities (g_entities g) assets) as [rem|]; simpl; [|lia].
  destruct (generate_fallbacks cfg int16 save_ok rem assets m1) as [r m2] eqn:Ef.
  apply generate_fallbacks_frame in Ef as [Ha2 _]. simpl. lia.
Qed.

(** ** The cache only grows *)

Lemma cache_grows_refl m : cache_grows m m.
Proof. split; auto. Qed.

Lemma cache_grows_trans m1 m2 m3 :
  cache_grows m1 m2 -> cache_grows m2 m3 -> cache_grows m1 m3.
Proof. intros [F1 C1] [F2 C2]. split; [set_solver|auto]. Qed.

Lemma cache_grows_same m m' :
  files m' = files m -> asset_cache m' = asset_cache m -> cache_grows m m'.
Proof. intros F C. split; [now rewrite F|]. now rewrite C. Qed.

Lemma store_grows k p m : cache_grows m (store k p m).
Proof.
  split; simpl; [set_solver|]. intros k' Hk.
  destruct (decide (k = k')) as [->|Hne].
  - rewrite lookup_insert_eq. eauto.
  - now rewrite lookup_insert_ne.
Qed.

Lemma dalle_asset_grows cfg md5 dalle info m :
  cache_grows m (snd (_generate_dalle_asset cfg md5 dalle info m)).
Proof.
  unfold _generate_dalle_asset.
  destruct (_ && _); [apply cache_grows_refl|].
  destruct (dalle _ _); simpl;
    first [ now apply cache_grows_same
          | eapply cache_grows_trans; [|apply store_grows]; now apply cache_grows_same ].
Qed.

Lemma generate_priority_grows cfg md5 dalle reqs : forall assets m,
  cache_grows m (snd (generate_priority cfg md5 dalle reqs assets m)).
Proof.
  induction reqs as [|info rest IH]; intros assets m; simpl; [apply cache_grows_refl|].
  destruct (_ <=? _)%nat; [apply cache_grows_refl|].
  pose proof (dalle_asset_grows cfg md5 dalle info m) as Hg.
  destruct (_generate_dalle_asset cfg md5 dalle info m) as [[p|] m1]; simpl in Hg.
  - eapply cache_grows_trans; [exact Hg|].
    eapply cache_grows_trans; [|apply IH]. now apply cache_grows_same.
  - eapply cache_grows_trans; [exact Hg|apply IH].
Qed.

Lemma create_fallback_grows cfg int16 save_ok e m :
  cache_grows m (snd (_create_fallback_asset cfg int16 save_ok e m)).
Proof.
  unfold _create_fallback_asset.
  repeat case_match; simpl; try apply cache_grows_refl.
  all: split; simpl; [set_solver|auto].
Qed.

Lemma generate_fallbacks_grows cfg int16 save_ok remaining : forall assets m,
  cache_grows m (snd (generate_fallbacks cfg int16 save_ok remaining assets m)).
Proof.
  induction remaining as [|e rest IH]; intros assets m; simpl; [apply cache_grows_refl|].
  pose proof (create_fallback_grows cfg int16 save_ok e m) as Hg.
  destruct (_create_fallback_asset cfg int16 save_ok e m) as [[p|] m1]; simpl in Hg;
    [destruct (e_name e)|]; simpl; try assumption.
  eapply cache_grows_trans; [exact Hg|apply IH].
Qed.

Lemma generate_game_assets_grows cfg md5 dalle int16 save_ok g m :
  cache_grows m (snd (generate_game_assets cfg md5 dalle int16 save_ok g m)).
Proof.
  unfold generate_game_assets.
  assert (cache_grows m (set_count 0 m)) as H0 by now apply cache_grows_same.
  destruct (_identify_priority_assets cfg g) as [reqs|]; [|exact H0].
  pose proof (generate_priority_grows cfg md5 dalle reqs ∅ (set_count 0 m)) as H1.
  destruct (generate_priority _ _ _ _ _ _) as [assets m1]. simpl in H1.
  destruct (_get_remaining_entities _ _) as [rem|]; simpl.
  - eapply cache_grows_trans; [exact H0|]. eapply cache_grows_trans; [exact H1|].
    apply generate_fallbacks_grows.
  - eapply cache_grows_trans; [exact H0|exact H1].
Qed.

Lemma cache_hit_grows cfg md5 info m m' :
  cache_grows m m' -> cache_hit cfg md5 info m -> cache_hit cfg md5 info m'.
Proof. intros [F C] [Hk Hf]. split; [auto|set_solver]. Qed.

(** Nothing is ever evicted: whatever a run does, and whether or not it
    returns, the files and the index entries that were there before are
    there after, and a candidate that was a cache hit still is one. *)
Theorem cache_never_shrinks cfg md5 dalle int16 save_ok g m :
  let m' := snd (generate_game_assets cfg md5 dalle int16 save_ok g m) in
  files m ⊆ files m' /\
  (forall k, is_Some (asset_cache m !! k) -> is_Some (asset_cache m' !! k)) /\
  (forall info, cache_hit cfg md5 info m -> cache_hit cfg md5 info m').
Proof.
  intros m'. pose proof (generate_game_assets_grows cfg md5 dalle int16 save_ok g m) as H.
  fold m' in H. split; [apply H|]. split; [apply H|].
  intros info. now apply cache_hit_grows.
Qed.

(** ** A second run *)

Lemma cache_hit_same cfg md5 info m m' :
  files m' = files m -> asset_cache m' = asset_cache m ->
  cache_hit cfg md5 info m -> cache_hit cfg md5 info m'.
Proof. unfold cache_hit. now intros -> ->. Qed.

Lemma all_stored_run cfg md5 dalle reqs : forall assets m,
  (forall n i, dalle n i = Stored) ->
  (dalle_request_count m + length reqs <= MAX_DALLE_REQUESTS_PER_GAME cfg)%nat ->
  exists m',
    generate_priority cfg md5 dalle reqs assets m = (bind_all cfg md5 reqs assets, m') /\
    (forall info, info ∈ reqs -> cache_hit cfg md5 info m') /\
    dalle_request_count m' = (dalle_request_count m + length reqs)%nat /\
    cache_grows m m'.
Proof.
  induction reqs as [|info rest IH]; intros assets m Hs Hk; simpl in Hk.
  - exists m. split; [reflexivity|]. split; [intros i Hi; inversion Hi|].
    split; [simpl; lia|apply cache_grows_refl].
  - destruct (decide (cache_hit cfg md5 info m)) as [Hh|Hm].
    + rewrite generate_priority_hit by (assumption || lia).
      destruct (IH (<[a_name info := cache_path cfg md5 info]> assets)
                  (set_count (S (dalle_request_count m)) m) Hs)
        as (m' & E & Hhits & Hc & Hg); [simpl; lia|].
      exists m'. split; [exact E|]. split; [|split].
      * intros i [->|Hi]%elem_of_cons; [|auto].
        eapply cache_hit_grows; [exact Hg|]. now apply (cache_hit_same _ _ _ m).
      * rewrite Hc. simpl. lia.
      * eapply cache_grows_trans; [|exact Hg]. now apply cache_grows_same.
    + rewrite generate_priority_stored by (auto || lia).
      set (m1 := set_count _ _).
      destruct (IH (<[a_name info := cache_path cfg md5 info]> assets) m1 Hs)
        as (m' & E & Hhits & Hc & Hg); [subst m1; simpl; lia|].
      exists m'. split; [exact E|]. split; [|split].
      * intros i [->|Hi]%elem_of_cons; [|auto].
        eapply cache_hit_grows; [exact Hg|]. subst m1. split; simpl.
        -- rewrite lookup_insert_eq. eauto.
        -- set_solver.
      * rewrite Hc. subst m1. simpl. lia.
      * eapply cache_grows_trans; [|exact Hg]. subst m1.
        eapply cache_grows_trans; [|apply cache_grows_same; reflexivity].
        eapply cache_grows_trans; [|apply store_grows]. now apply cache_grows_same.
Qed.

Lemma all_hits_run cfg md5 dalle reqs : forall assets m,
  (forall info, info ∈ reqs -> cache_hit cfg md5 info m) ->
  (dalle_request_count m + length reqs <= MAX_DALLE_REQUESTS_PER_GAME cfg)%nat ->
  generate_priority cfg md5 dalle reqs assets m
  = (bind_all cfg md5 reqs assets,
     set_count (dalle_request_count m + length reqs) m).
Proof.
  induction reqs as [|info rest IH]; intros assets m Hh Hk; simpl in Hk.
  - simpl. rewrite Nat.add_0_r. now destruct m.
  - rewrite generate_priority_hit by (lia || apply Hh; left).
    rewrite IH.
    + simpl. f_equal. unfold set_count. simpl. f_equal. lia.
    + intros i Hi. apply (cache_hit_same _ _ _ m); [reflexivity..|]. apply Hh. now right.
    + simpl. lia.
Qed.

Lemma create_fallback_file cfg int16 save_ok e m p m1 :
  _create_fallback_asset cfg int16 save_ok e m = (Some p, m1) -> p ∈ files m1.
Proof.
  unfold _create_fallback_asset. intros H.
  destruct (e_name e) as [n|]; [|discriminate].
  case_bool_decide; [now simplify_eq|].
  repeat case_match; simplify_eq; simpl; set_solver.
Qed.

Lemma create_fallback_reuse cfg int16 save_ok e m n :
  e_name e = Some n ->
  fallback_path cfg n (default "#4A90E2" (e_color e)) ∈ files m ->
  _create_fallback_asset cfg int16 save_ok e m
  = (Some (fallback_path cfg n (default "#4A90E2" (e_color e))), m).
Proof.
  intros Hn Hf. unfold _create_fallback_asset. rewrite Hn.
  now rewrite bool_decide_eq_true_2.
Qed.

Lemma fallbacks_rerun cfg int16 int16' save_ok save_ok' remaining :
  forall assets m a' m',
    generate_fallbacks cfg int16 save_ok remaining assets m = (Some a', m') ->
    forall m2, files m' ⊆ files m2 ->
      generate_fallbacks cfg int16' save_ok' remaining assets m2 = (Some a', m2).
Proof.
  induction remaining as [|e rest IH]; intros assets m a' m' H m2 Hsub; simpl in H.
  - simplify_eq. reflexivity.
  - destruct (_create_fallback_asset cfg int16 save_ok e m) as [[p|] m1] eqn:E;
      [|discriminate].
    pose proof (create_fallback_file _ _ _ _ _ _ _ E) as Hp.
    apply create_fallback_frame in E as (_ & _ & Hpath).
    destruct (Hpath p eq_refl) as (n & Hn & ->). rewrite Hn in H.
    pose proof (generate_fallbacks_grows cfg int16 save_ok rest
                  (<[n := fallback_path cfg n (default "#4A90E2" (e_color e))]> assets) m1)
      as [Hg _].
    rewrite H in Hg. simpl in Hg.
    simpl. rewrite (create_fallback_reuse cfg int16' save_ok' e m2 n Hn) by set_solver.
    rewrite Hn. eapply IH; eassumption.
Qed.

(** After a run in which every request was answered and stored, a second run
    on the same description posts no request and writes no file, whatever the
    service would answer: it returns the same dictionary and leaves the
    manager as it was. *)
Theorem rerun_posts_no_request cfg md5 dalle dalle' int16 int16' save_ok save_ok'
    g m assets m1 :
  (forall n i, dalle n i = Stored) ->
  generate_game_assets cfg md5 dalle int16 save_ok g m = (Some assets, m1) ->
  generate_game_assets cfg md5 dalle' int16' save_ok' g m1 = (Some assets, m1).
Proof.
  intros Hs H. unfold generate_game_assets in *.
  destruct (_identify_priority_assets cfg g) as [reqs|] eqn:Er; [|discriminate].
  pose proof (identify_length _ _ _ Er) as Hl.
  destruct (all_stored_run cfg md5 dalle reqs ∅ (set_count 0 m) Hs)
    as (m' & E & Hhits & Hc & _); [simpl; lia|].
  rewrite E in H. simpl in Hc.
  destruct (_get_remaining_entities (g_entities g) (bind_all cfg md5 reqs ∅))
    as [rem|] eqn:Erem; [|discriminate].
  pose proof (generate_fallbacks_frame _ _ _ _ _ _ _ _ H) as [_ Hc1].
  pose proof (generate_fallbacks_grows cfg int16 save_ok rem (bind_all cfg md5 reqs ∅) m')
    as Hg.
  rewrite H in Hg. simpl in Hg.
  rewrite all_hits_run.
  - rewrite Erem. simpl.
    rewrite (fallbacks_rerun _ _ int16' _ save_ok' _ _ _ _ _ H) by reflexivity.
    f_equal. destruct m1. simpl in *. unfold set_count. simpl. f_equal. lia.
  - intros info Hi. apply (cache_hit_same _ _ _ m1); [reflexivity..|].
    eapply cache_hit_grows; [exact Hg|]. now apply Hhits.
  - simpl. lia.
Qed.

Lemma rerun_posts_no_request_witness :
  exists assets m1,
    generate_game_assets example_config md5_stub (fun _ _ => Stored) hex2
      (fun _ => true) demo_game manager_empty = (Some assets, m1) /\
    generate_game_assets example_config md5_stub (fun _ _ => BadStatus) hex2
      (fun _ => false) demo_game m1 = (Some assets, m1).
Proof.
  destruct (generate_game_assets_returns example_config md5_stub (fun _ _ => Stored)
              hex2 (fun _ => true) demo_game manager_empty demo_game_well_formed
              (fun _ => eq_refl)) as [assets Ha].
  destruct (generate_game_assets example_config md5_stub (fun _ _ => Stored) hex2
              (fun _ => true) demo_game manager_empty) as [r m1] eqn:E.
  simpl in Ha. subst r. exists assets, m1. split; [reflexivity|].
  exact (rerun_posts_no_request example_config md5_stub (fun _ _ => Stored)
           (fun _ _ => BadStatus) hex2 hex2 (fun _ => true) (fun _ => false)
           demo_game manager_empty assets m1 (fun _ _ => eq_refl) E).
Defined.

(** ** The budget, the images bound, and a store that fails *)

Lemma dalle_asset_file cfg md5 dalle info m p m' :
  _generate_dalle_asset cfg md5 dalle info m = (Some p, m') -> p ∈ files m'.
Proof.
  unfold _generate_dalle_asset. cbv zeta.
  destruct (bool_decide _ && bool_decide _) eqn:E.
  - intros H. injection H as <- <-. apply andb_true_iff in E as [_ E].
    now apply bool_decide_eq_true in E.
  - destruct (dalle _ _); intros H; simplify_eq. simpl. set_solver.
Qed.

Lemma dalle_asset_index cfg md5 dalle info m k :
  k <> cache_key_of cfg md5 info ->
  asset_cache (snd (_generate_dalle_asset cfg md5 dalle info m)) !! k
  = asset_cache m !! k.
Proof.
  intros Hk. unfold _generate_dalle_asset. cbv zeta.
  destruct (bool_decide _ && bool_decide _); [reflexivity|].
  destruct (dalle _ _); simpl; rewrite ?lookup_insert_ne by congruence; reflexivity.
Qed.

Lemma generate_priority_files cfg md5 dalle reqs : forall assets m assets' m',
  generate_priority cfg md5 dalle reqs assets m = (assets', m') ->
  forall n p, assets' !! n = Some p -> assets !! n = Some p \/ p ∈ files m'.
Proof.
  induction reqs as [|info rest IH]; intros assets m assets' m' H n p Hn; simpl in H.
  - simplify_eq. auto.
  - destruct (_ <=? _)%nat; [simplify_eq; auto|].
    destruct (_generate_dalle_asset cfg md5 dalle info m) as [[q|] m1] eqn:E.
    + pose proof (dalle_asset_file _ _ _ _ _ _ _ E) as Hq.
      pose proof (generate_priority_grows cfg md5 dalle rest
                    (<[a_name info := q]> assets)
                    (set_count (S (dalle_request_count m1)) m1)) as [Hg _].
      rewrite H in Hg. simpl in Hg.
      destruct (IH _ _ _ _ H n p Hn) as [Hin|Hf]; [|auto].
      destruct (decide (a_name info = n)) as [<-|Hne].
      * rewrite lookup_insert_eq in Hin. simplify_eq. right. set_solver.
      * rewrite lookup_insert_ne in Hin by assumption. auto.
    + eapply IH; eassumption.
Qed.

Lemma generate_fallbacks_files cfg int16 save_ok remaining :
  forall assets m assets' m',
    generate_fallbacks cfg int16 save_ok remaining assets m = (Some assets', m') ->
    forall n p, assets' !! n = Some p -> assets !! n = Some p \/ p ∈ files m'.
Proof.
  induction remaining as [|e rest IH]; intros assets m assets' m' H n p Hn; simpl in H.
  - simplify_eq. auto.
  - destruct (_create_fallback_asset cfg int16 save_ok e m) as [[q|] m1] eqn:E;
      [|discriminate].
    destruct (e_name e) as [n0|] eqn:En; [|discriminate].
    pose proof (create_fallback_file _ _ _ _ _ _ _ E) as Hq.
    pose proof (generate_fallbacks_grows cfg int16 save_ok rest (<[n0 := q]> assets) m1)
      as [Hg _].
    rewrite H in Hg. simpl in Hg.
    destruct (IH _ _ _ _ H n p Hn) as [Hin|Hf]; [|auto].
    destruct (decide (n0 = n)) as [<-|Hne].
    + rewrite lookup_insert_eq in Hin. simplify_eq. right. set_solver.
    + rewrite lookup_insert_ne in Hin by assumption. auto.
Qed.

Lemma get_remaining_kept es generated : forall remaining,
  _get_remaining_entities es generated = Some remaining ->
  forall e n, e ∈ remaining -> e_name e = Some n -> generated !! n = None.
Proof.
  induction es as [|e0 es IH]; intros remaining H e n He Hn; simpl in H.
  - simplify_eq. inversion He.
  - destruct (e_name e0) as [n0|] eqn:En; [|discriminate].
    destruct (_get_remaining_entities es generated) as [r|]; [|discriminate].
    injection H as <-. case_bool_decide as Hb.
    + eapply IH; eauto.
    + apply elem_of_cons in He as [->|He]; [|eapply IH; eauto].
      rewrite En in Hn. injection Hn as <-.
      destruct (generated !! n0) eqn:Eg; [|reflexivity].
      exfalso. apply Hb. eauto.
Qed.

(** What a run that returns has bound: the name of every entity, and every
    name to an image that exists. *)
Lemma generate_game_assets_bound cfg md5 dalle int16 save_ok g m reqs assets m' :
  _identify_priority_assets cfg g = Some reqs ->
  generate_game_assets cfg md5 dalle int16 save_ok g m = (Some assets, m') ->
  let loop := generate_priority cfg md5 dalle reqs ∅ (set_count 0 m) in
  (forall e, e ∈ g_entities g -> exists n, e_name e = Some n /\ is_Some (assets !! n)) /\
  (forall n p, assets !! n = Some p ->
     p ∈ files m' /\
     (fst loop !! n = Some p /\ priority_image cfg md5 reqs n p \/
      fst loop !! n = None /\ fallback_image cfg (g_entities g) n p)) /\
  (forall n, is_Some (assets !! n) ->
     is_Some (fst loop !! n) \/ exists e, e ∈ g_entities g /\ e_name e = Some n).
Proof.
  intros Hreqs H loop. subst loop. unfold generate_game_assets in H.
  rewrite Hreqs in H.
  destruct (generate_priority cfg md5 dalle reqs ∅ (set_count 0 m))
    as [assets1 m1] eqn:Eg.
  pose proof (generate_priority_files _ _ _ _ _ _ _ _ Eg) as Hf1.
  apply generate_priority_inv in Eg as (_ & _ & Himg1).
  destruct (_get_remaining_entities (g_entities g) assets1) as [rem|] eqn:Er;
    [|discriminate].
  pose proof (get_remaining_kept _ _ _ Er) as Hrem.
  apply get_remaining_spec in Er as [Hcov Hsub].
  pose proof (generate_fallbacks_files _ _ _ _ _ _ _ _ H) as Hf2.
  pose proof (generate_fallbacks_grows cfg int16 save_ok rem assets1 m1) as [Hg _].
  rewrite H in Hg. simpl in Hg.
  apply generate_fallbacks_inv in H as (Hall & Hmono & Himg2).
  cbn [fst]. split; [|split].
  - intros e He. destruct (Hcov e He) as (n & Hn & [Hb|Hb]); [eauto|].
    destruct (Hall e Hb) as (n' & Hn' & Hs). eauto.
  - intros n p Hp. split.
    + destruct (Hf2 n p Hp) as [H1|Hfile]; [|exact Hfile].
      destruct (Hf1 n p H1) as [H0|Hfile]; [|set_solver].
      rewrite lookup_empty in H0. discriminate.
    + destruct (Himg2 n p Hp) as [H1|(e' & He' & Hn' & ->)].
      * left. split; [exact H1|].
        destruct (Himg1 n p H1) as [H0|Hi]; [|exact Hi].
        rewrite lookup_empty in H0. discriminate.
      * right. split; [now apply (Hrem e')|].
        exists e'. repeat split; auto.
  - intros n [p Hp]. destruct (Himg2 n p Hp) as [H1|(e' & He' & Hn' & _)]; eauto.
Qed.

(** C1. One run of [generate_game_assets] posts at most
    [MAX_DALLE_REQUESTS_PER_GAME] requests, whether it returns or raises; and
    when it returns every entity of the description has a name that the
    returned dictionary binds to one image, a file that exists in the cache
    directory: the cached or generated image of a candidate of that name, or
    the fallback image of an entity of that name. *)
Theorem generate_game_assets_budget_and_coverage cfg md5 dalle int16 save_ok g m :
  let r := generate_game_assets cfg md5 dalle int16 save_ok g m in
  (api_calls m <= api_calls (snd r)
     <= api_calls m + MAX_DALLE_REQUESTS_PER_GAME cfg)%nat /\
  forall assets, fst r = Some assets ->
    forall e, e ∈ g_entities g ->
      exists n p, e_name e = Some n /\ assets !! n = Some p /\
        (forall q, assets !! n = Some q -> q = p) /\
        p ∈ files (snd r) /\
        (priority_image cfg md5 (default [] (_identify_priority_assets cfg g)) n p \/
         fallback_image cfg (g_entities g) n p).
Proof.
  intros r. split.
  { apply (generate_game_assets_calls cfg md5 dalle int16 save_ok g m). }
  intros assets Hr e He.
  assert (generate_game_assets cfg md5 dalle int16 save_ok g m = (Some assets, snd r))
    as H.
  { subst r. destruct (generate_game_assets cfg md5 dalle int16 save_ok g m) as [a m'].
    simpl in *. congruence. }
  destruct (_identify_priority_assets cfg g) as [reqs|] eqn:Ereqs.
  2:{ unfold generate_game_assets in H. rewrite Ereqs in H. discriminate. }
  destruct (generate_game_assets_bound _ _ _ _ _ _ _ _ _ _ Ereqs H)
    as (Hcov & Himg & _).
  destruct (Hcov e He) as (n & Hn & [p Hp]).
  destruct (Himg n p Hp) as (Hfile & Hkind).
  exists n, p. split; [exact Hn|]. split; [exact Hp|]. split; [congruence|].
  split; [exact Hfile|]. simpl. destruct Hkind as [[_ ?]|[_ ?]]; auto.
Qed.

Lemma generate_priority_none_stored cfg md5 dalle reqs : forall assets m,
  (forall n i, dalle n i <> Stored) ->
  NoDup (cache_key_of cfg md5 <$> reqs) ->
  (forall info, info ∈ reqs -> asset_cache m !! cache_key_of cfg md5 info = None) ->
  (reqs <> [] -> (dalle_request_count m < MAX_DALLE_REQUESTS_PER_GAME cfg)%nat) ->
  exists m',
    generate_priority cfg md5 dalle reqs assets m = (assets, m') /\
    dalle_request_count m' = dalle_request_count m /\
    api_calls m' = (api_calls m + length reqs)%nat.
Proof.
  induction reqs as [|info rest IH]; intros assets m Hs Hnd Hk Hlt.
  - exists m. simpl. split; [reflexivity|]. split; [reflexivity|lia].
  - rewrite fmap_cons in Hnd. apply NoDup_cons in Hnd as [Hni Hnd].
    assert (~ cache_hit cfg md5 info m) as Hm.
    { intros [[p Hp] _]. rewrite Hk in Hp by left. discriminate. }
    destruct (generate_priority_unbound cfg md5 dalle info rest assets m)
      as (m1 & E & Hc & Ha & ->); [apply Hlt; discriminate|exact Hm|apply Hs|].
    destruct (IH assets m1 Hs Hnd) as (m' & E' & Hc' & Ha').
    + intros info' Hin'.
      replace m1 with (snd (_generate_dalle_asset cfg md5 dalle info m))
        by now rewrite E.
      rewrite dalle_asset_index; [apply Hk; now right|].
      intros Heq. apply Hni. rewrite <- Heq.
      apply list_elem_of_fmap. eauto.
    + intros _. rewrite Hc. apply Hlt. discriminate.
    + exists m'. split; [exact E'|]. split; [lia|]. simpl. lia.
Qed.

(** C9, amended. When the call succeeds and the write of the image or of
    the index fails, [_generate_dalle_asset] catches the error and returns
    [None]: nothing is raised there, the request is not counted, and the loop
    goes on to the next candidate with this one unbound, as after a failed
    call. The generated image is bound to nothing: when the run returns, an
    entity whose name the loop left unbound is bound to its fallback
    rectangle, a file that exists. In a run where every store fails, the
    candidates having distinct keys that the index does not hold, every
    candidate is requested, none is counted or bound, and a dictionary that
    is returned binds the names of the entities and nothing else, each to a
    fallback rectangle. *)
Theorem store_failure_leaves_candidate_unbound cfg md5 dalle int16 save_ok :
  (forall info rest assets m,
     (dalle_request_count m < MAX_DALLE_REQUESTS_PER_GAME cfg)%nat ->
     ~ cache_hit cfg md5 info m ->
     dalle (S (api_calls m)) info = SaveImageFails \/
     dalle (S (api_calls m)) info = SaveIndexFails ->
     exists m1,
       _generate_dalle_asset cfg md5 dalle info m = (None, m1) /\
       dalle_request_count m1 = dalle_request_count m /\
       api_calls m1 = S (api_calls m) /\
       generate_priority cfg md5 dalle (info :: rest) assets m =
       generate_priority cfg md5 dalle rest assets m1) /\
  (forall g m reqs assets,
     _identify_priority_assets cfg g = Some reqs ->
     fst (generate_game_assets cfg md5 dalle int16 save_ok g m) = Some assets ->
     forall e n,
       e ∈ g_entities g -> e_name e = Some n ->
       fst (generate_priority cfg md5 dalle reqs ∅ (set_count 0 m)) !! n = None ->
       exists p,
         assets !! n = Some p /\ fallback_image cfg (g_entities g) n p /\
         p ∈ files (snd (generate_game_assets cfg md5 dalle int16 save_ok g m))) /\
  (forall g m reqs,
     _identify_priority_assets cfg g = Some reqs ->
     (forall n i, dalle n i = SaveImageFails \/ dalle n i = SaveIndexFails) ->
     NoDup (cache_key_of cfg md5 <$> reqs) ->
     (forall info, info ∈ reqs -> asset_cache m !! cache_key_of cfg md5 info = None) ->
     let r := generate_game_assets cfg md5 dalle int16 save_ok g m in
     fst (generate_priority cfg md5 dalle reqs ∅ (set_count 0 m)) = ∅ /\
     dalle_request_count (snd r) = 0%nat /\
     api_calls (snd r) = (api_calls m + length reqs)%nat /\
     forall assets, fst r = Some assets ->
       (forall n, is_Some (assets !! n) <->
          exists e, e ∈ g_entities g /\ e_name e = Some n) /\
       (forall n p, assets !! n = Some p ->
          fallback_image cfg (g_entities g) n p /\ p ∈ files (snd r))).
Proof.
  split; [|split].
  - intros info rest assets m Hlt Hm Ho.
    apply generate_priority_unbound; [assumption..|].
    destruct Ho as [-> | ->]; discriminate.
  - intros g m reqs assets Hreqs Hr e n He Hn Hloop.
    destruct (generate_game_assets cfg md5 dalle int16 save_ok g m) as [r m'] eqn:H.
    cbn [fst snd] in *. subst r.
    destruct (generate_game_assets_bound _ _ _ _ _ _ _ _ _ _ Hreqs H)
      as (Hcov & Himg & _).
    destruct (Hcov e He) as (n' & Hn' & [p Hp]).
    assert (n' = n) as -> by congruence.
    exists p. split; [exact Hp|].
    destruct (Himg n p Hp) as (Hfile & [[Hl _]|[_ Hfb]]); [congruence|auto].
  - intros g m reqs Hreqs Ho Hnd Hk r.
    destruct (generate_priority_none_stored cfg md5 dalle reqs ∅ (set_count 0 m))
      as (m1 & E & Hc & Ha); [| exact Hnd | exact Hk | |].
    { intros n i. destruct (Ho n i) as [-> | ->]; discriminate. }
    { intros Hne. pose proof (identify_length _ _ _ Hreqs) as Hl.
      destruct reqs; [congruence|]. simpl in *. lia. }
    simpl in Hc, Ha. rewrite E. cbn [fst]. split; [reflexivity|].
    assert (dalle_request_count (snd r) = 0%nat /\
            api_calls (snd r) = (api_calls m + length reqs)%nat) as [Hc' Ha'].
    { subst r. unfold generate_game_assets. rewrite Hreqs, E.
      destruct (_get_remaining_entities (g_entities g) ∅) as [rem|]; cbn [snd];
        [|split; assumption].
      destruct (generate_fallbacks cfg int16 save_ok rem ∅ m1) as [r2 m2] eqn:Ef.
      apply generate_fallbacks_frame in Ef as [Ha2 Hc2]. cbn [snd].
      rewrite Hc2, Ha2. split; assumption. }
    split; [exact Hc'|]. split; [exact Ha'|].
    intros assets Hr.
    assert (generate_game_assets cfg md5 dalle int16 save_ok g m = (Some assets, snd r))
      as H.
    { subst r. destruct (generate_game_assets cfg md5 dalle int16 save_ok g m) as [a m'].
      simpl in *. congruence. }
    destruct (generate_game_assets_bound _ _ _ _ _ _ _ _ _ _ Hreqs H)
      as (Hcov & Himg & Hdom).
    rewrite E in Himg, Hdom. cbn [fst] in Himg, Hdom. split.
    + intros n. split.
      * intros Hs. destruct (Hdom n Hs) as [[p Hp]|He]; [|exact He].
        rewrite lookup_empty in Hp. discriminate.
      * intros (e & He & Hn). destruct (Hcov e He) as (n' & Hn' & Hs). congruence.
    + intros n p Hp. destruct (Himg n p Hp) as (Hfile & [[Hl _]|[_ Hfb]]); [|auto].
      rewrite lookup_empty in Hl. discriminate.
Qed.

Lemma store_failure_leaves_candidate_unbound_witness :
  _identify_priority_assets example_config player_only = Some [player_candidate] /\
  fst (generate_priority example_config md5_stub (fun _ _ => SaveIndexFails)
         [player_candidate] ∅ (set_count 0 manager_empty)) = ∅ /\
  dalle_request_count (snd store_failure_run) = 0%nat /\
  api_calls (snd store_failure_run) = 1%nat /\
  forall assets, fst store_failure_run = Some assets ->
    (forall n, is_Some (assets !! n) <->
       exists e, e ∈ g_entities player_only /\ e_name e = Some n) /\
    (forall n p, assets !! n = Some p ->
       fallback_image example_config (g_entities player_only) n p /\
       p ∈ files (snd store_failure_run)).
Proof.
  split; [reflexivity|].
  refine (proj2 (proj2 (store_failure_leaves_candidate_unbound example_config md5_stub
                          (fun _ _ => SaveIndexFails) hex2 (fun _ => true)))
            player_only manager_empty [player_candidate] eq_refl
            (fun _ _ => or_intror eq_refl) _ _).
  - apply NoDup_singleton.
  - intros info _. apply lookup_empty.
Defined.

(** The pipeline can still raise after a store that failed: here the image
    is generated, the index cannot be written, and the fallback rectangle
    cannot be written either. *)
Lemma store_failure_then_fallback_failure :
  let r := generate_game_assets example_config md5_stub (fun _ _ => SaveIndexFails)
             hex2 (fun _ => false) player_only manager_empty in
  fst r = None /\ api_calls (snd r) = 1%nat /\ dalle_request_count (snd r) = 0%nat.
Proof. repeat split; vm_compute; reflexivity. Qed.

(** ** When every call fails *)

Lemma get_remaining_empty es : forall remaining,
  _get_remaining_entities es ∅ = Some remaining -> remaining = es.
Proof.
  induction es as [|e es IH]; intros remaining H; simpl in H; [congruence|].
  destruct (e_name e) as [n|]; [|discriminate].
  destruct (_get_remaining_entities es ∅) as [r|]; [|discriminate].
  rewrite (IH r eq_refl) in H. rewrite lookup_empty in H.
  rewrite bool_decide_eq_false_2 in H by (intros [? ?]; discriminate).
  congruence.
Qed.

(** When every request fails and the index is empty, a run that returns has
    posted one request per candidate and counted none, and its dictionary
    binds the names of the entities, and nothing else, each to the fallback
    rectangle of an entity of that name. *)
Theorem all_calls_fail_all_fallbacks cfg md5 dalle int16 save_ok g m assets m' :
  (forall n i, call_failed (dalle n i)) ->
  asset_cache m = ∅ ->
  generate_game_assets cfg md5 dalle int16 save_ok g m = (Some assets, m') ->
  dalle_request_count m' = 0%nat /\
  api_calls m'
  = (api_calls m + length (default [] (_identify_priority_assets cfg g)))%nat /\
  (forall n, is_Some (assets !! n) <->
     exists e, e ∈ g_entities g /\ e_name e = Some n) /\
  (forall n p, assets !! n = Some p -> fallback_image cfg (g_entities g) n p).
Proof.
  intros Hf He H. unfold generate_game_assets in H.
  destruct (_identify_priority_assets cfg g) as [reqs|] eqn:Er; [|discriminate].
  pose proof (identify_length _ _ _ Er) as Hl. simpl.
  assert (generate_priority cfg md5 dalle reqs ∅ (set_count 0 m)
          = (∅, set_api_calls (api_calls (set_count 0 m) + length reqs)
                  (set_count 0 m))) as E.
  { destruct reqs as [|info rest].
    - simpl. rewrite Nat.add_0_r. reflexivity.
    - apply generate_priority_all_failed; [assumption..|]. simpl in *. lia. }
  rewrite E in H.
  destruct (_get_remaining_entities (g_entities g) ∅) as [rem|] eqn:Erem; [|discriminate].
  apply get_remaining_empty in Erem as ->.
  pose proof (generate_fallbacks_frame _ _ _ _ _ _ _ _ H) as [Ha Hc].
  apply generate_fallbacks_inv in H as (Hall & _ & Himg).
  assert (forall n p, assets !! n = Some p -> fallback_image cfg (g_entities g) n p) as Hfb.
  { intros n p Hp. destruct (Himg n p Hp) as [H0|Hi]; [|exact Hi].
    rewrite lookup_empty in H0. discriminate. }
  split; [rewrite Hc; reflexivity|]. split; [rewrite Ha; reflexivity|].
  split; [|exact Hfb]. intros n. split.
  - intros [p Hp]. destruct (Hfb n p Hp) as (e & He' & Hn & _). eauto.
  - intros (e & He' & Hn). destruct (Hall e He') as (n' & Hn' & Hs). congruence.
Qed.

Lemma all_calls_fail_all_fallbacks_witness :
  exists assets m',
    generate_game_assets example_config md5_stub (fun _ _ => PostRaises) hex2
      (fun _ => true) demo_game manager_empty = (Some assets, m') /\
    dalle_request_count m' = 0%nat /\ api_calls m' = 5%nat /\
    (forall n, is_Some (assets !! n) <->
       exists e, e ∈ g_entities demo_game /\ e_name e = Some n).
Proof.
  destruct (generate_game_assets_returns example_config md5_stub (fun _ _ => PostRaises)
              hex2 (fun _ => true) demo_game manager_empty demo_game_well_formed
              (fun _ => eq_refl)) as [assets Ha].
  destruct (generate_game_assets example_config md5_stub (fun _ _ => PostRaises) hex2
              (fun _ => true) demo_game manager_empty) as [r m'] eqn:E.
  simpl in Ha. subst r. exists assets, m'. split; [reflexivity|].
  destruct (all_calls_fail_all_fallbacks example_config md5_stub (fun _ _ => PostRaises)
              hex2 (fun _ => true) demo_game manager_empty assets m'
              (fun _ _ => or_introl eq_refl) eq_refl E) as (Hc & Hapi & Hdom & _).
  split; [exact Hc|]. split; [exact Hapi|exact Hdom].
Defined.

(** * More about the engine *)

Section Related.

Context (R : GameObject -> GameObject -> Prop).
Hypothesis R_refl : forall o, R o o.
Hypothesis R_trans : forall o1 o2 o3, R o1 o2 -> R o2 o3 -> R o1 o3.

Lemma related_refl h : related R h h.
Proof. split; [reflexivity|]. intros i o Ho. eauto. Qed.

Lemma related_trans h1 h2 h3 :
  related R h1 h2 -> related R h2 h3 -> related R h1 h3.
Proof.
  intros [L12 H12] [L23 H23]. split; [congruence|].
  intros i o1 H1. destruct (H12 i o1 H1) as (o2 & H2 & R12).
  destruct (H23 i o2 H2) as (o3 & H3 & R23). eauto.
Qed.

Lemma related_modify f i h :
  (forall o, h !! i = Some o -> R o (f o)) -> related R h (modify i f h).
Proof.
  intros Hf. split; [apply modify_length|].
  intros j o Ho. rewrite modify_lookup, Ho.
  destruct (decide (i = j)) as [->|Hne]; simpl; eauto.
Qed.

Lemma related_insert i o o' (h : list GameObject) :
  h !! i = Some o -> R o o' -> related R h (<[i := o']> h).
Proof.
  intros Ho Hr. split; [apply length_insert|].
  intros j o2 H2. destruct (decide (i = j)) as [->|Hne].
  - rewrite list_lookup_insert_eq by (eapply lookup_lt_Some; eassumption).
    simplify_eq. eauto.
  - rewrite list_lookup_insert_ne by assumption. eauto.
Qed.

Hypothesis R_update : forall dt o, R o (update_method dt o).
Hypothesis R_collect : forall o, R o (snd (collect o)).
Hypothesis R_hit : forall o a,
  player_attrs o = Some a -> R o (set_player_attrs (set_health (health a - 10)) o).

Lemma foldl_update_related dt ids : forall h,
  related R h (foldl (update_if_active dt) h ids).
Proof.
  induction ids as [|i ids IH]; intros h; cbn [foldl]; [apply related_refl|].
  eapply related_trans; [|apply IH].
  apply related_modify. intros o _. destruct (active o); auto.
Qed.

Lemma update_objects_related dt s :
  related R (heap s) (heap (update_objects dt s)).
Proof.
  unfold update_objects. simpl.
  eapply related_trans; apply foldl_update_related.
Qed.

Lemma foldl_collect_related colliderect rect ids : forall h sc,
  related R h (fst (foldl (collect_step colliderect rect) (h, sc) ids)).
Proof.
  induction ids as [|i ids IH]; intros h sc; cbn [foldl]; [apply related_refl|].
  destruct (collect_step colliderect rect (h, sc) i) as [h1 sc1] eqn:E.
  eapply related_trans; [|apply IH].
  unfold collect_step in E. destruct (h !! i) as [c|] eqn:Hc;
    [|simplify_eq; apply related_refl].
  destruct (active c && colliderect rect (rect_of c));
    [|simplify_eq; apply related_refl].
  pose proof (R_collect c) as Hr.
  destruct (collect c) as [pts c']. simplify_eq. eapply related_insert; eassumption.
Qed.

Lemma foldl_enemy_related colliderect p rect ids : forall h over,
  related R h (fst (foldl (enemy_step colliderect p rect) (h, over) ids)).
Proof.
  induction ids as [|i ids IH]; intros h over; cbn [foldl]; [apply related_refl|].
  destruct (enemy_step colliderect p rect (h, over) i) as [h1 over1] eqn:E.
  eapply related_trans; [|apply IH].
  unfold enemy_step in E. destruct (h !! i) as [e|];
    [|simplify_eq; apply related_refl].
  destruct (active e && colliderect rect (rect_of e));
    [|simplify_eq; apply related_refl].
  destruct (h !! p ≫= player_attrs) as [a|] eqn:Ha; simplify_eq;
    [|apply related_refl].
  apply related_modify. intros o Ho. rewrite Ho in Ha. simpl in Ha. auto.
Qed.

Lemma check_collisions_related colliderect s :
  related R (heap s) (heap (_check_collisions colliderect s)).
Proof.
  unfold _check_collisions.
  destruct (player s) as [p|]; [|apply related_refl].
  destruct (player_obj s) as [po|]; [|apply related_refl].
  pose proof (foldl_collect_related colliderect (rect_of po) (collectibles s)
                (heap s) (score (game_state s))) as H1.
  destruct (foldl (collect_step colliderect (rect_of po)) _ _) as [h1 sc].
  pose proof (foldl_enemy_related colliderect p (rect_of po) (enemies s)
                h1 (game_over (game_state s))) as H2.
  destruct (foldl (enemy_step colliderect p (rect_of po)) _ _) as [h2 over].
  simpl in *. eapply related_trans; eassumption.
Qed.

(** The phases of [update] that follow the physics step. *)
Lemma after_physics_related colliderect dt s :
  related R (heap s)
    (heap (_check_game_conditions
             (_update_camera (_check_collisions colliderect (update_objects dt s))))).
Proof.
  set (s1 := update_objects dt s).
  set (s2 := _check_collisions colliderect s1).
  destruct (update_camera_effect s2) as (H3 & _).
  destruct (check_game_conditions_effect (_update_camera s2)) as (H4 & _).
  rewrite H4, H3.
  eapply related_trans; [apply update_objects_related|].
  apply check_collisions_related.
Qed.

Hypothesis R_sync : forall space_step dt boxes o o',
  sync_player space_step dt boxes o = Some o' -> R o o'.

Lemma step_physics_related space_step dt s s2 :
  step_physics space_step dt s = Some s2 -> related R (heap s) (heap s2).
Proof.
  unfold step_physics, player_obj.
  destruct (player s) as [p|]; [|intros H; injection H as <-; apply related_refl].
  destruct (heap s !! p) as [o|] eqn:Ho;
    [|intros H; injection H as <-; apply related_refl].
  destruct (sync_player space_step dt (space s) o) as [o'|] eqn:Es; [|discriminate].
  intros H. injection H as <-. simpl. eapply related_insert; eauto.
Qed.

Lemma update_related colliderect space_step dt s :
  related R (heap s) (heap (snd (update colliderect space_step dt s))).
Proof.
  unfold update. cbv zeta.
  destruct (step_physics space_step dt (advance_time dt s)) as [s2|] eqn:E;
    cbn [snd]; [|apply related_refl].
  eapply related_trans; [|apply after_physics_related].
  apply step_physics_related in E. exact E.
Qed.

Hypothesis R_input : forall cfg gt keys o, R o (handle_input_player cfg gt keys o).

Lemma handle_input_related cfg keys s :
  related R (heap s) (heap (handle_input cfg keys s)).
Proof.
  unfold handle_input. simpl. destruct (player s) as [p|]; simpl;
    [|apply related_refl].
  apply related_modify. auto.
Qed.

Hypothesis R_reset_player : forall o, R o (reset_player o).
Hypothesis R_reset_collectible : forall o, R o (reset_collectible o).

Lemma reset_game_related s : related R (heap s) (heap (reset_game s)).
Proof.
  unfold reset_game. simpl.
  assert (forall ids h, related R h (foldl (fun h i => modify i reset_collectible h) h ids))
    as Hf.
  { induction ids as [|i ids IH]; intros h; cbn [foldl]; [apply related_refl|].
    eapply related_trans; [|apply IH]. apply related_modify. auto. }
  eapply related_trans; [|apply Hf].
  destruct (player s); [|apply related_refl]. apply related_modify. auto.
Qed.

Lemma step_related cfg colliderect space_step s a :
  related R (heap s) (heap (step cfg colliderect space_step s a)).
Proof.
  destruct a as [keys|dt|]; unfold step.
  - apply handle_input_related.
  - apply update_related.
  - apply reset_game_related.
Qed.

Lemma run_related cfg colliderect space_step actions : forall s,
  related R (heap s) (heap (run cfg colliderect space_step actions s)).
Proof.
  unfold run. induction actions as [|a actions IH]; intros s; simpl;
    [apply related_refl|].
  eapply related_trans; [apply step_related|apply IH].
Qed.

End Related.

(** ** What stays as initialisation left it *)

Lemma steady_refl o : steady o o.
Proof.
  split; [|auto]. unfold same_identity.
  destruct o as [? ? ? ? ? ? ? ? ? ? []]; simpl; repeat split.
Qed.

Lemma same_identity_trans o1 o2 o3 :
  same_identity o1 o2 -> same_identity o2 o3 -> same_identity o1 o3.
Proof.
  unfold same_identity.
  destruct o1 as [? ? ? ? ? ? ? ? ? ? []], o2 as [? ? ? ? ? ? ? ? ? ? []],
    o3 as [? ? ? ? ? ? ? ? ? ? []]; simpl; intuition congruence.
Qed.

Lemma steady_trans o1 o2 o3 : steady o1 o2 -> steady o2 o3 -> steady o1 o3.
Proof.
  intros [I12 S12] [I23 S23]. split; [eapply same_identity_trans; eassumption|auto].
Qed.

Lemma steady_update dt o : steady o (update_method dt o).
Proof.
  unfold steady, same_identity, sound, update_method, Enemy_update, GameObject_update.
  destruct o as [? ? ? ? ? ? ? ? ? ? [a|e|c|b]]; simpl; repeat split; auto;
    try tauto.
  repeat case_match; tauto.
Qed.

Lemma steady_collect o : steady o (snd (collect o)).
Proof.
  unfold steady, same_identity, sound, collect.
  destruct o as [? ? ? ? ? ? ? ? ? ? [a|e|[pts []]|b]]; simpl; repeat split; auto;
    tauto.
Qed.

Lemma steady_hit o a :
  player_attrs o = Some a -> steady o (set_player_attrs (set_health (health a - 10)) o).
Proof.
  unfold steady, same_identity, sound, set_player_attrs, player_attrs.
  destruct o as [? ? ? ? ? ? ? ? ? ? [a0|e|c|b]]; simpl; intros H; simplify_eq;
    repeat split; auto; try tauto; intuition lia.
Qed.

Lemma steady_sync space_step dt boxes o o' :
  sync_player space_step dt boxes o = Some o' -> steady o o'.
Proof.
  unfold sync_player. intros H.
  destruct (kind o) as [a|e|c|b] eqn:Hk;
    try (injection H as <-; apply steady_refl).
  destruct (physics_body a); [|injection H as <-; apply steady_refl].
  destruct (space_step _ _ _) as [body'|]; [|discriminate]. injection H as <-.
  unfold steady, same_identity, sound. simpl. rewrite Hk. simpl.
  repeat split; auto; tauto.
Qed.

Lemma steady_input cfg gt keys o : steady o (handle_input_player cfg gt keys o).
Proof.
  unfold steady, same_identity, sound, handle_input_player, jump, set_player_attrs.
  destruct gt; try apply steady_refl;
    repeat match goal with |- context [if ?b then _ else _] => destruct b end;
    destruct o as [? ? ? ? ? ? ? ? ? ? [a|e|c|b]]; simpl;
    repeat match goal with |- context [if ?b then _ else _] => destruct b end;
    simpl; repeat split; auto; tauto.
Qed.

Lemma steady_reset_player o : steady o (reset_player o).
Proof.
  unfold steady, same_identity, sound, reset_player, set_player_attrs.
  destruct o as [? ? ? ? ? ? ? ? ? ? [a|e|c|b]]; simpl; repeat split; auto;
    try tauto; intuition lia.
Qed.

Lemma steady_reset_collectible o : steady o (reset_collectible o).
Proof.
  unfold steady, same_identity, sound, reset_collectible.
  destruct o as [? ? ? ? ? ? ? ? ? ? [a|e|c|b]]; simpl; repeat split; auto;
    tauto.
Qed.

Lemma run_steady cfg colliderect space_step actions s :
  related steady (heap s) (heap (run cfg colliderect space_step actions s)).
Proof.
  apply run_related.
  - apply steady_refl.
  - apply steady_trans.
  - apply steady_update.
  - apply steady_collect.
  - apply steady_hit.
  - apply steady_sync.
  - apply steady_input.
  - apply steady_reset_player.
  - apply steady_reset_collectible.
Qed.

Section Layout.

Context (cfg : Config) (colliderect : Rect -> Rect -> bool)
  (space_step : float -> list StaticBox -> Body -> option Body).

Lemma check_collisions_layout s : layout (_check_collisions colliderect s) = layout s.
Proof.
  unfold _check_collisions.
  destruct (player s) as [p|] eqn:Ep; [|reflexivity].
  destruct (player_obj s) as [po|]; [|reflexivity].
  destruct (foldl (collect_step _ _) _ _) as [h1 sc].
  destruct (foldl (enemy_step _ _ _) _ _) as [h2 over].
  unfold layout. simpl. now rewrite Ep.
Qed.

Lemma update_camera_layout s :
  (eng_width (_update_camera s), eng_height (_update_camera s),
   game_type (_update_camera s), game_data (_update_camera s),
   player (_update_camera s), enemies (_update_camera s),
   collectibles (_update_camera s), platforms (_update_camera s),
   all_objects (_update_camera s), space (_update_camera s),
   assets (_update_camera s), background (_update_camera s)) = layout s.
Proof. unfold _update_camera. destruct (player_obj s); reflexivity. Qed.

Lemma check_game_conditions_layout s : layout (_check_game_conditions s) = layout s.
Proof.
  unfold _check_game_conditions.
  destruct (_ && _); destruct (player_obj _) as [po|];
    try destruct (_ <? _)%float; reflexivity.
Qed.

Lemma step_physics_layout dt s s2 :
  step_physics space_step dt s = Some s2 -> layout s2 = layout s.
Proof.
  unfold step_physics, player_obj.
  destruct (player s) as [p|] eqn:Ep; [|now intros H; injection H as <-].
  destruct (heap s !! p) as [o|]; [|now intros H; injection H as <-].
  destruct (sync_player _ _ _ _) as [o'|]; [|discriminate].
  intros H. injection H as <-. unfold layout. simpl. now rewrite Ep.
Qed.

Lemma after_physics_layout dt s :
  layout (_check_game_conditions
            (_update_camera (_check_collisions colliderect (update_objects dt s))))
  = layout s.
Proof.
  rewrite check_game_conditions_layout.
  change (layout (_update_camera ?x)) with
    (eng_width (_update_camera x), eng_height (_update_camera x),
     game_type (_update_camera x), game_data (_update_camera x),
     player (_update_camera x), enemies (_update_camera x),
     collectibles (_update_camera x), platforms (_update_camera x),
     all_objects (_update_camera x), space (_update_camera x),
     assets (_update_camera x), background (_update_camera x)).
  rewrite update_camera_layout, check_collisions_layout. reflexivity.
Qed.

Lemma update_layout dt s :
  layout (snd (update colliderect space_step dt s)) = layout s.
Proof.
  unfold update. cbv zeta.
  destruct (step_physics space_step dt (advance_time dt s)) as [s2|] eqn:E;
    cbn [snd]; [|reflexivity].
  rewrite after_physics_layout. now apply step_physics_layout in E.
Qed.

Lemma handle_input_layout keys s : layout (handle_input cfg keys s) = layout s.
Proof.
  unfold handle_input. simpl. destruct (player s) as [p|] eqn:Ep;
    unfold layout; simpl; now rewrite ?Ep.
Qed.

Lemma reset_game_layout s : layout (reset_game s) = layout s.
Proof. reflexivity. Qed.

Lemma step_layout s a : layout (step cfg colliderect space_step s a) = layout s.
Proof.
  destruct a as [keys|dt|]; unfold step.
  - apply handle_input_layout.
  - apply update_layout.
  - apply reset_game_layout.
Qed.

Lemma run_layout actions : forall s,
  layout (run cfg colliderect space_step actions s) = layout s.
Proof.
  unfold run. induction actions as [|a actions IH]; intros s; simpl; [reflexivity|].
  now rewrite IH, step_layout.
Qed.

End Layout.

(** ** The lists of the engine *)

Lemma indices_of_ext c h h' :
  class_of <$> h' = class_of <$> h -> indices_of c h' = indices_of c h.
Proof.
  intros H. unfold indices_of.
  assert (length h' = length h) as ->
    by now rewrite <- (length_fmap class_of h'), H, length_fmap.
  apply List.filter_ext. intros i.
  assert ((class_of <$> h') !! i = (class_of <$> h) !! i) as Hi by now rewrite H.
  rewrite !list_lookup_fmap in Hi. now rewrite Hi.
Qed.

Lemma indices_of_snoc c h o :
  indices_of c (h ++ [o])
  = (indices_of c h ++ if decide (class_of o = c) then [length h] else [])%list.
Proof.
  unfold indices_of. rewrite length_app. simpl length.
  rewrite Nat.add_1_r, seq_S, List.filter_app. simpl. f_equal.
  - apply List.filter_ext_in. intros i Hi. apply in_seq in Hi.
    rewrite lookup_app_l by lia. reflexivity.
  - rewrite list_lookup_middle by reflexivity. simpl.
    destruct (decide (class_of o = c)) as [->|Hne].
    + rewrite bool_decide_eq_true_2 by reflexivity. reflexivity.
    + rewrite bool_decide_eq_false_2 by congruence. reflexivity.
Qed.

Lemma indices_of_spec c h i :
  i ∈ indices_of c h <-> exists o, h !! i = Some o /\ class_of o = c.
Proof.
  unfold indices_of. rewrite list_elem_of_In, filter_In, in_seq, bool_decide_eq_true.
  split.
  - intros [_ H]. destruct (h !! i) as [o|]; simplify_eq/=. eauto.
  - intros (o & Ho & Hc). split; [|rewrite Ho; simpl; congruence].
    apply lookup_lt_Some in Ho. lia.
Qed.

Lemma indices_of_NoDup c h : NoDup (indices_of c h).
Proof.
  unfold indices_of. apply NoDup_ListNoDup, List.NoDup_filter, seq_NoDup.
Qed.

Lemma related_classes R h h' :
  (forall o o', R o o' -> class_of o' = class_of o) ->
  related R h h' -> class_of <$> h' = class_of <$> h.
Proof.
  intros Hc [Hl Hr]. apply list_eq. intros i. rewrite !list_lookup_fmap.
  destruct (h !! i) as [o|] eqn:Ho.
  - destruct (Hr i o Ho) as (o' & -> & Hoo). simpl. f_equal. eauto.
  - apply lookup_ge_None in Ho. rewrite (proj2 (lookup_ge_None h' i)) by lia.
    reflexivity.
Qed.

Lemma steady_class o o' : steady o o' -> class_of o' = class_of o.
Proof.
  intros [(_ & _ & _ & _ & _ & H) _]. unfold class_of.
  destruct (kind o), (kind o'); tauto.
Qed.

Lemma steady_sprite_rule scale_ok A o o' :
  steady o o' -> sprite_rule scale_ok A o -> sprite_rule scale_ok A o'.
Proof.
  intros [(Hn & Hw & Hh & _ & Hs & H) _]. unfold sprite_rule, sprite_from.
  rewrite Hn, Hw, Hh, Hs. destruct (kind o), (kind o'); tauto.
Qed.

Lemma well_formed_ext s s' :
  class_of <$> heap s' = class_of <$> heap s ->
  all_objects s' = all_objects s -> enemies s' = enemies s ->
  collectibles s' = collectibles s -> platforms s' = platforms s ->
  player s' = player s ->
  well_formed s -> well_formed s'.
Proof.
  intros Hc Ha He Hco Hp Hpl (W0 & W1 & W2 & W3 & W4 & W5).
  unfold well_formed. rewrite !(indices_of_ext _ _ _ Hc), Ha, He, Hco, Hp, Hpl.
  assert (length (heap s') = length (heap s)) as ->
    by now rewrite <- (length_fmap class_of (heap s')), Hc, length_fmap.
  auto 10.
Qed.

Lemma built_related scale_ok F A s s' :
  related steady (heap s) (heap s') -> layout s' = layout s ->
  built scale_ok F A s -> built scale_ok anything A s'.
Proof.
  intros Hr Hl (W & HA & Ho). unfold layout in Hl. simplify_eq.
  split; [|split].
  - apply (well_formed_ext s); [|assumption..].
    eapply related_classes; [apply steady_class|eassumption].
  - congruence.
  - intros i o' Ho'. destruct Hr as [Hlen Hr].
    destruct (heap s !! i) as [o|] eqn:E.
    + destruct (Hr i o E) as (o2 & Hl2 & Hst). simplify_eq.
      destruct (Ho i o E) as (So & [Sp1 Sp2] & _). split; [now apply Hst|].
      split; [|exact I]. unfold sprite_ok.
      match goal with H : all_objects s' = all_objects s |- _ => rewrite H end.
      split.
      * intros Hi. eapply steady_sprite_rule; [eassumption|auto].
      * intros Hi. destruct Hst as [(_ & _ & _ & _ & Hs & _) _]. rewrite Hs. auto.
    + apply lookup_ge_None in E. apply lookup_lt_Some in Ho'. lia.
Qed.

Lemma built_modify scale_ok F A s i f :
  (forall o, class_of (f o) = class_of o /\ (sound o -> sound (f o)) /\
             (sprite_rule scale_ok A o -> sprite_rule scale_ok A (f o)) /\
             sprite (f o) = sprite o /\ (F o -> F (f o))) ->
  built scale_ok F A s -> built scale_ok F A (set_heap (modify i f (heap s)) s).
Proof.
  intros Hf (W & HA & Ho). split; [|split; [exact HA|]].
  - apply (well_formed_ext s); [|reflexivity..|exact W]. simpl.
    apply modify_fmap. intros o. apply Hf.
  - simpl. intros j o' Ho'. rewrite modify_lookup in Ho'.
    destruct (decide (i = j)) as [->|Hne]; [|now apply (Ho j)].
    destruct (heap s !! j) as [o|] eqn:E; simplify_eq/=.
    destruct (Ho j o E) as (So & [Sp1 Sp2] & Fo).
    destruct (Hf o) as (_ & H1 & H2 & H3 & H4).
    split; [auto|]. split; [|auto]. split; cbn [all_objects set_heap].
    + auto.
    + intros Hj. rewrite H3. auto.
Qed.

Lemma complete_modify s i f : complete s -> complete (set_heap (modify i f (heap s)) s).
Proof. unfold complete. simpl. now rewrite modify_length. Qed.

Lemma complete_listed s i :
  well_formed s -> complete s -> i ∈ all_objects s <-> (i < length (heap s))%nat.
Proof.
  intros (W0 & _) Hc. rewrite W0, Hc, list_elem_of_In, in_seq. lia.
Qed.

Lemma built_alloc scale_ok F A s s' o :
  built scale_ok F A s -> complete s ->
  sound o -> sprite_rule scale_ok A o -> F o ->
  heap s' = (heap s ++ [o])%list -> assets s' = assets s ->
  all_objects s' = (all_objects s ++ [length (heap s)])%list ->
  enemies s'
  = (enemies s ++ if decide (class_of o = CEnemy) then [length (heap s)] else [])%list ->
  collectibles s'
  = (collectibles s
       ++ if decide (class_of o = CCollectible) then [length (heap s)] else [])%list ->
  platforms s'
  = (platforms s ++ if decide (class_of o = CPlatform) then [length (heap s)] else [])%list ->
  player s'
  = (if decide (class_of o = CPlayer) then Some (length (heap s)) else player s) ->
  built scale_ok F A s' /\ complete s'.
Proof.
  intros (W & HA & Ho) Hco So Sp Fo Hh Has Hall He Hc Hp Hpl.
  pose proof W as (W0 & W1 & W2 & W3 & W4 & W5).
  assert (complete s') as Hco'.
  { unfold complete in *. rewrite Hh, Hall, !length_app. simpl. lia. }
  split; [|exact Hco']. split; [|split; [congruence|]].
  - unfold well_formed. rewrite <- Hco'. rewrite Hh, !indices_of_snoc, He, Hc, Hp, Hpl.
    rewrite W2, W3, W4. split_all; auto.
    + rewrite Hall, W0, <- Hco, length_app. simpl length.
      rewrite Nat.add_1_r, seq_S. reflexivity.
    + destruct (decide (class_of o = CPlayer)).
      * now rewrite last_snoc.
      * now rewrite app_nil_r.
  - rewrite Hh. intros i o' Ho'. apply lookup_app_Some in Ho' as [Ho'|[Hge Ho']].
    + destruct (Ho i o' Ho') as (So' & [Sp1 Sp2] & Fo').
      split; [exact So'|]. split; [|exact Fo']. split; intros Hi.
      * apply Sp1. apply (complete_listed s i W Hco).
        eapply lookup_lt_Some, Ho'.
      * apply Sp2. intros Hin. apply Hi. rewrite Hall. apply elem_of_app. now left.
    + apply list_lookup_singleton_Some in Ho' as [Hi <-].
      split; [exact So|]. split; [|exact Fo]. split; [auto|].
      intros Hn. exfalso. apply Hn. rewrite Hall. apply elem_of_app. right.
      apply list_elem_of_singleton. lia.
Qed.

(** The state a raise leaves in the player branch of [_create_entities]. *)
Lemma built_player_left_out scale_ok F A s o :
  built scale_ok F A s -> complete s ->
  sound o -> F o -> class_of o = CPlayer -> sprite o = None ->
  built scale_ok F A (set_player (Some (length (heap s))) (alloc o s)).
Proof.
  intros (W & HA & Ho) Hco So Fo Hcl Hsp.
  pose proof W as (W0 & W1 & W2 & W3 & W4 & W5).
  split; [|split; [exact HA|]].
  - unfold well_formed.
    cbn [all_objects heap player enemies collectibles platforms set_player alloc
         set_heap].
    rewrite !indices_of_snoc, Hcl. rewrite length_app. simpl length.
    rewrite !decide_False by discriminate. rewrite !app_nil_r.
    rewrite (decide_True (P := CPlayer = CPlayer)) by reflexivity.
    rewrite last_snoc. unfold complete in Hco. split_all; auto.
    right. split; [lia|]. now rewrite Hco.
  - cbn [all_objects heap set_player alloc set_heap].
    intros i o' Ho'. apply lookup_app_Some in Ho' as [Ho'|[Hge Ho']].
    + now apply (Ho i).
    + apply list_lookup_singleton_Some in Ho' as [Hi <-].
      split; [exact So|]. split; [|exact Fo]. split; [|auto].
      intros Hin. apply (complete_listed s i W Hco) in Hin. lia.
Qed.

(** ** Creation *)

Lemma recolor_keeps scale_ok A c o :
  class_of (recolor c o) = class_of o /\ (sound o -> sound (recolor c o)) /\
  (sprite_rule scale_ok A o -> sprite_rule scale_ok A (recolor c o)) /\
  sprite (recolor c o) = sprite o /\ (fresh o -> fresh (recolor c o)).
Proof.
  unfold recolor. destruct (sprite o) eqn:E; [auto 10|].
  unfold class_of, sound, sprite_rule, sprite_from, fresh.
  destruct o as [? ? ? ? ? ? ? ? ? ? []]; simpl; auto 10.
Qed.

Lemma sprite_for_from scale_ok s key o sp :
  sprite_for scale_ok s key (o_width o) (o_height o) = Some sp ->
  sprite o = sp -> sprite_from scale_ok (assets s) key o.
Proof.
  unfold sprite_for, scale_to_size, transform_scale, sprite_from.
  destruct (assets s !! key) as [a|]; [|now intros H <-; injection H as <-].
  destruct (int_of_float (o_width o)) as [w|]; [|discriminate].
  destruct (int_of_float (o_height o)) as [h|]; [|discriminate].
  destruct (scale_ok w h) eqn:Ek; [|discriminate].
  intros H <-. injection H as <-. eauto 10.
Qed.

Lemma built_place_entity scale_ok A cfg e s :
  built scale_ok fresh A s -> complete s ->
  built scale_ok fresh A (snd (place_entity cfg scale_ok e s)) /\
  (fst (place_entity cfg scale_ok e s) = true ->
   complete (snd (place_entity cfg scale_ok e s))).
Proof.
  intros Hb Hco. unfold place_entity. cbv zeta.
  assert (assets s = A) as HA by apply Hb.
  destruct (decide _) as [Hp|Hp]; [|destruct (_ || _)].
  - destruct (sprite_for _ _ _ _ _) as [sp|] eqn:Es; cbn [fst snd].
    + assert (built scale_ok fresh A
                (set_all_objects (all_objects s ++ [length (heap s)])
                   (set_player (Some (length (heap s)))
                      (alloc (set_sprite sp
                                (Player_new cfg (default "unnamed" (e_name e))
                                   (default 0%float (e_x e)) (default 0%float (e_y e))
                                   (default 32%float (e_width e))
                                   (default 32%float (e_height e)))) s))) /\
              complete
                (set_all_objects (all_objects s ++ [length (heap s)])
                   (set_player (Some (length (heap s)))
                      (alloc (set_sprite sp
                                (Player_new cfg (default "unnamed" (e_name e))
                                   (default 0%float (e_x e)) (default 0%float (e_y e))
                                   (default 32%float (e_width e))
                                   (default 32%float (e_height e)))) s)))) as [H1 H2].
      { eapply (built_alloc scale_ok fresh A s); [exact Hb|exact Hco|..];
          try reflexivity.
        - split; [reflexivity|]. simpl. lia.
        - unfold sprite_rule. cbn [kind set_sprite Player_new GameObject_new o_name].
          rewrite <- HA. eapply sprite_for_from; [exact Es|reflexivity].
        - reflexivity.
        - simpl. now rewrite app_nil_r.
        - simpl. now rewrite app_nil_r.
        - simpl. now rewrite app_nil_r. }
      auto.
    + split; [|discriminate].
      apply built_player_left_out; [exact Hb|exact Hco|..]; try reflexivity.
      split; [reflexivity|]. simpl. lia.
  - destruct (sprite_for _ _ _ _ _) as [sp|] eqn:Es; cbn [fst snd]; [|auto].
    assert (built scale_ok fresh A
              (set_all_objects (all_objects s ++ [length (heap s)])
                 (set_enemies (enemies s ++ [length (heap s)])
                    (alloc (set_sprite sp
                              (Enemy_new (default "unnamed" (e_name e))
                                 (default 0%float (e_x e)) (default 0%float (e_y e))
                                 (default 32%float (e_width e))
                                 (default 32%float (e_height e)))) s))) /\
            complete
              (set_all_objects (all_objects s ++ [length (heap s)])
                 (set_enemies (enemies s ++ [length (heap s)])
                    (alloc (set_sprite sp
                              (Enemy_new (default "unnamed" (e_name e))
                                 (default 0%float (e_x e)) (default 0%float (e_y e))
                                 (default 32%float (e_width e))
                                 (default 32%float (e_height e)))) s)))) as [H1 H2].
    { eapply (built_alloc scale_ok fresh A s); [exact Hb|exact Hco|..];
        try reflexivity.
      - simpl. repeat split. now left.
      - unfold sprite_rule. cbn [kind set_sprite Enemy_new GameObject_new o_name].
        rewrite <- HA. eapply sprite_for_from; [exact Es|reflexivity].
      - exact I.
      - simpl. now rewrite app_nil_r.
      - simpl. now rewrite app_nil_r. }
    auto.
  - cbn [fst snd]. auto.
Qed.

Lemma built_create_entity scale_ok A cfg int16 e s :
  built scale_ok fresh A s -> complete s ->
  built scale_ok fresh A (snd (create_entity cfg int16 scale_ok e s)) /\
  (fst (create_entity cfg int16 scale_ok e s) = true ->
   complete (snd (create_entity cfg int16 scale_ok e s))).
Proof.
  intros Hb Hco. unfold create_entity.
  destruct (built_place_entity scale_ok A cfg e s Hb Hco) as [H1 H2].
  destruct (place_entity cfg scale_ok e s) as [[|] s1]; cbn [fst snd] in *;
    [|split; [exact H1|discriminate]].
  specialize (H2 eq_refl).
  destruct (parse_color _ _ _) as [c|]; cbn [fst snd]; [|split; [exact H1|discriminate]].
  destruct (last _) as [i|]; [|auto]. split.
  - apply built_modify; [|exact H1]. intros o. apply recolor_keeps.
  - intros _. now apply complete_modify.
Qed.

Lemma built_create_entities scale_ok A cfg int16 es : forall s,
  built scale_ok fresh A s -> complete s ->
  built scale_ok fresh A (snd (_create_entities cfg int16 scale_ok es s)) /\
  (fst (_create_entities cfg int16 scale_ok es s) = true ->
   complete (snd (_create_entities cfg int16 scale_ok es s))).
Proof.
  induction es as [|e es IH]; intros s Hb Hco; simpl; [auto|].
  destruct (built_create_entity scale_ok A cfg int16 e s Hb Hco) as [H1 H2].
  destruct (create_entity cfg int16 scale_ok e s) as [[] s1]; cbn [fst snd] in *.
  - apply IH; auto.
  - split; [exact H1|discriminate].
Qed.

Lemma built_create_platform scale_ok A int16 p s :
  built scale_ok fresh A s -> complete s ->
  built scale_ok fresh A (snd (create_platform int16 p s)) /\
  complete (snd (create_platform int16 p s)).
Proof.
  intros Hb Hco. unfold create_platform. cbv zeta.
  destruct (parse_color _ _ _) as [c|]; [|auto]. cbn [snd].
  eapply (built_alloc scale_ok fresh A s); [exact Hb|exact Hco|..]; try reflexivity.
  - unfold sound. cbn [kind active set_color Platform_new GameObject_new]. auto.
  - unfold sprite_rule. cbn [kind sprite set_color Platform_new GameObject_new].
    reflexivity.
  - exact I.
  - cbn [enemies set_all_objects set_platforms alloc set_heap].
    change (class_of _) with CPlatform. cbn. now rewrite app_nil_r.
  - cbn [collectibles set_all_objects set_platforms alloc set_heap].
    change (class_of _) with CPlatform. cbn. now rewrite app_nil_r.
Qed.

Lemma built_create_platforms scale_ok A int16 ps : forall s,
  built scale_ok fresh A s -> complete s ->
  built scale_ok fresh A (snd (create_platforms int16 ps s)) /\
  complete (snd (create_platforms int16 ps s)).
Proof.
  induction ps as [|p ps IH]; intros s Hb Hco; simpl; [auto|].
  destruct (built_create_platform scale_ok A int16 p s Hb Hco) as [H1 H2].
  destruct (create_platform int16 p s) as [[] s1]; cbn [snd] in *; auto.
Qed.

Lemma built_create_collectible scale_ok A c s :
  built scale_ok fresh A s -> complete s ->
  built scale_ok fresh A (snd (create_collectible scale_ok c s)) /\
  complete (snd (create_collectible scale_ok c s)).
Proof.
  intros Hb Hco. unfold create_collectible. cbv zeta.
  assert (assets s = A) as HA by apply Hb.
  destruct (sprite_for _ _ _ _ _) as [[sp|]|] eqn:Es; cbn [snd]; [| |auto].
  - eapply (built_alloc scale_ok fresh A s); [exact Hb|exact Hco|..]; try reflexivity.
    + unfold sound. cbn [kind active set_sprite Collectible_new GameObject_new collected].
      reflexivity.
    + unfold sprite_rule.
      cbn [kind set_sprite Collectible_new GameObject_new].
      rewrite <- HA. eapply sprite_for_from; [exact Es|reflexivity].
    + reflexivity.
    + cbn [enemies set_all_objects set_collectibles alloc set_heap].
      change (class_of _) with CCollectible. cbn. now rewrite app_nil_r.
    + cbn [platforms set_all_objects set_collectibles alloc set_heap].
      change (class_of _) with CCollectible. cbn. now rewrite app_nil_r.
  - eapply (built_alloc scale_ok fresh A s); [exact Hb|exact Hco|..]; try reflexivity.
    + unfold sound. cbn [kind active set_color Collectible_new GameObject_new collected].
      reflexivity.
    + unfold sprite_rule.
      cbn [kind set_color Collectible_new GameObject_new].
      rewrite <- HA. eapply sprite_for_from; [exact Es|reflexivity].
    + reflexivity.
    + cbn [enemies set_all_objects set_collectibles alloc set_heap].
      change (class_of _) with CCollectible. cbn. now rewrite app_nil_r.
    + cbn [platforms set_all_objects set_collectibles alloc set_heap].
      change (class_of _) with CCollectible. cbn. now rewrite app_nil_r.
Qed.

Lemma built_create_collectibles scale_ok A cs : forall s,
  built scale_ok fresh A s -> complete s ->
  built scale_ok fresh A (snd (create_collectibles scale_ok cs s)) /\
  complete (snd (create_collectibles scale_ok cs s)).
Proof.
  induction cs as [|c cs IH]; intros s Hb Hco; cbn [create_collectibles]; [auto|].
  destruct (built_create_collectible scale_ok A c s Hb Hco) as [H1 H2].
  destruct (create_collectible scale_ok c s) as [[] s1]; cbn [snd] in *; auto.
Qed.

Lemma built_create_level_objects scale_ok A int16 level_data s :
  built scale_ok fresh A s -> complete s ->
  built scale_ok fresh A (snd (_create_level_objects int16 scale_ok level_data s)) /\
  complete (snd (_create_level_objects int16 scale_ok level_data s)).
Proof.
  intros Hb Hco. unfold _create_level_objects.
  destruct (built_create_platforms scale_ok A int16 (l_platforms level_data) s Hb Hco)
    as [H1 H2].
  destruct (create_platforms _ _ _) as [[] s1]; cbn [snd] in *; [|auto].
  now apply built_create_collectibles.
Qed.

Lemma built_setup_physics scale_ok A s :
  built scale_ok fresh A s -> complete s ->
  built scale_ok fresh A (_setup_physics s) /\ complete (_setup_physics s).
Proof.
  intros Hb Hco. unfold _setup_physics. cbv zeta.
  destruct (player _) as [p|] eqn:Ep; [|auto]. split.
  - apply (built_modify scale_ok fresh A (set_space _ s)); [|exact Hb].
    intros o. unfold class_of, sound, sprite_rule, sprite_from, fresh, set_player_attrs.
    destruct o as [? ? ? ? ? ? ? ? ? ? []]; simpl; auto 10.
  - unfold complete in *. simpl. now rewrite modify_length.
Qed.

Lemma built_new scale_ok A w h :
  built scale_ok fresh A (set_assets A (Engine_new w h)) /\
  complete (set_assets A (Engine_new w h)).
Proof.
  split; [|reflexivity]. split; [|split; [reflexivity|]].
  - unfold well_formed. simpl. auto 10.
  - intros i o Ho. simpl in Ho. discriminate.
Qed.

Section Sessions.

Context (cfg : Config) (int16 : string -> option Z) (image_load : string -> bool)
  (scale_ok : Z -> Z -> bool) (colliderect : Rect -> Rect -> bool)
  (space_step : float -> list StaticBox -> Body -> option Body).

Lemma initialize_game_built g paths w h :
  let r := initialize_game cfg int16 image_load scale_ok g paths (Engine_new w h) in
  built scale_ok fresh (assets (snd r)) (snd r) /\ (fst r = true -> complete (snd r)).
Proof.
  cbv zeta.
  assert (exists A,
            built scale_ok fresh A
              (snd (initialize_game cfg int16 image_load scale_ok g paths
                      (Engine_new w h))) /\
            (fst (initialize_game cfg int16 image_load scale_ok g paths
                    (Engine_new w h)) = true ->
             complete (snd (initialize_game cfg int16 image_load scale_ok g paths
                              (Engine_new w h))))) as (A & HA & Hc).
  { unfold initialize_game. cbv zeta.
    destruct (GameType_of _) as [gt|].
    - set (s1 := _load_assets _ _ _ _).
      exists (assets s1).
      assert (built scale_ok fresh (assets s1) s1 /\ complete s1) as [H1 C1].
      { split; [|reflexivity]. split; [|split; [reflexivity|]].
        - unfold well_formed. simpl. auto 10.
        - intros i o Ho. simpl in Ho. discriminate. }
      destruct (built_create_entities scale_ok _ cfg int16 (g_entities g) s1 H1 C1)
        as [H2 C2].
      destruct (_create_entities cfg int16 scale_ok (g_entities g) s1) as [[] s2];
        cbn [fst snd] in *; [|split; [exact H2|discriminate]].
      specialize (C2 eq_refl).
      destruct (first_level g) as [level_data|]; [|split; [exact H2|discriminate]].
      destruct (built_create_level_objects scale_ok _ int16 level_data s2 H2 C2)
        as [H3 C3].
      destruct (_create_level_objects int16 scale_ok level_data s2) as [[] s3];
        cbn [fst snd] in *; [|split; [exact H3|discriminate]].
      destruct (built_setup_physics scale_ok _ s3 H3 C3) as [H4 C4]. auto.
    - exists ∅. split; [|discriminate]. split; [|split; [reflexivity|]].
      + unfold well_formed. simpl. auto 10.
      + intros i o Ho. simpl in Ho. discriminate. }
  split; [|exact Hc].
  assert (assets (snd (initialize_game cfg int16 image_load scale_ok g paths
                         (Engine_new w h))) = A) as -> by apply HA.
  exact HA.
Qed.

Lemma session_built g paths :
  built scale_ok fresh (assets (session cfg int16 image_load scale_ok g paths))
    (session cfg int16 image_load scale_ok g paths).
Proof. apply initialize_game_built. Qed.

Lemma session_complete g paths :
  fst (initialize_game cfg int16 image_load scale_ok g paths
         (Engine_new (GAME_WIDTH cfg) (GAME_HEIGHT cfg))) = true ->
  complete (session cfg int16 image_load scale_ok g paths).
Proof. apply initialize_game_built. Qed.

Lemma run_built F A actions s :
  built scale_ok F A s ->
  built scale_ok anything A (run cfg colliderect space_step actions s).
Proof.
  intros Hb. eapply built_related; [apply run_steady|apply run_layout|exact Hb].
Qed.

Lemma run_complete actions s :
  complete s -> complete (run cfg colliderect space_step actions s).
Proof.
  unfold complete. intros Hc.
  destruct (run_steady cfg colliderect space_step actions s) as [-> _].
  pose proof (run_layout cfg colliderect space_step actions s) as Hl.
  unfold layout in Hl. simplify_eq. congruence.
Qed.

End Sessions.

(** ** Sessions: structure *)

Lemma related_weaken (R R' : GameObject -> GameObject -> Prop) h h' :
  (forall o o', R o o' -> R' o o') -> related R h h' -> related R' h h'.
Proof.
  intros Hw [Hl Hr]. split; [assumption|].
  intros i o Ho. destruct (Hr i o Ho) as (o' & Ho' & Hoo). eauto.
Qed.

(** No input, update or reset creates or removes an object, changes a list
    of the engine, the physics boxes, the images or the description, or
    assigns an object's name, size, colour, sprite or class, an enemy's
    speed, patrol range or origin, a collectible's points, or a player's
    jump force, move speed or [can_jump]. *)
Theorem run_keeps_identity cfg colliderect space_step actions s :
  let s' := run cfg colliderect space_step actions s in
  layout s' = layout s /\ related same_identity (heap s) (heap s').
Proof.
  intros s'. split; [apply run_layout|].
  eapply related_weaken; [|apply run_steady]. now intros o o' [H _].
Qed.

Section SessionFacts.

Context (cfg : Config) (int16 : string -> option Z) (image_load : string -> bool)
  (scale_ok : Z -> Z -> bool) (colliderect : Rect -> Rect -> bool)
  (space_step : float -> list StaticBox -> Body -> option Body).

Lemma running_built g paths actions :
  let s := run cfg colliderect space_step actions
             (session cfg int16 image_load scale_ok g paths) in
  built scale_ok anything (assets s) s.
Proof.
  intros s.
  pose proof (run_built cfg scale_ok colliderect space_step _ _ actions _
                (session_built cfg int16 image_load scale_ok g paths)) as H.
  fold s in H.
  assert (assets (session cfg int16 image_load scale_ok g paths) = assets s) as E
    by (symmetry; apply H).
  now rewrite E in H.
Qed.

Lemma running_complete g paths actions :
  fst (initialize_game cfg int16 image_load scale_ok g paths
         (Engine_new (GAME_WIDTH cfg) (GAME_HEIGHT cfg))) = true ->
  complete (run cfg colliderect space_step actions
              (session cfg int16 image_load scale_ok g paths)).
Proof. intros H. now apply run_complete, session_complete. Qed.

(** In every state of a session each of [enemies], [collectibles] and
    [platforms] holds exactly the objects of its class, [player] is the
    Player created last, and [all_objects] holds the objects in the order of
    creation, each once: all of them when initialisation returned; all of
    them, or all but the last, which is then the [player], when it raised
    (the Player whose image could not be scaled is bound to [self.player]
    and never appended). *)
Theorem session_lists_hold_the_heap g paths actions :
  let s := run cfg colliderect space_step actions
             (session cfg int16 image_load scale_ok g paths) in
  all_objects s = seq 0 (length (all_objects s)) /\
  (length (heap s) = length (all_objects s) \/
   length (heap s) = S (length (all_objects s)) /\
   player s = Some (length (all_objects s))) /\
  enemies s = indices_of CEnemy (heap s) /\
  collectibles s = indices_of CCollectible (heap s) /\
  platforms s = indices_of CPlatform (heap s) /\
  player s = last (indices_of CPlayer (heap s)) /\
  (fst (initialize_game cfg int16 image_load scale_ok g paths
          (Engine_new (GAME_WIDTH cfg) (GAME_HEIGHT cfg))) = true ->
   all_objects s = seq 0 (length (heap s))).
Proof.
  intros s. destruct (running_built g paths actions) as (W & _). fold s in W.
  pose proof W as (W0 & W1 & W2 & W3 & W4 & W5). split_all; auto.
  intros Hr. pose proof (running_complete g paths actions Hr) as Hc. fold s in Hc.
  unfold complete in Hc. now rewrite Hc.
Qed.

(** In every state of a session every Player, Enemy and Platform is active;
    a player's health is at most 100; an enemy has speed 50, patrol range 100
    and direction 1 or -1; a collectible is collected exactly when it is not
    active. *)
Theorem session_objects_are_sound g paths actions i o :
  heap (run cfg colliderect space_step actions
          (session cfg int16 image_load scale_ok g paths)) !! i = Some o ->
  match kind o with
  | KPlayer a => active o = true /\ (health a <= 100)%Z
  | KEnemy e =>
      active o = true /\ (direction e = 1%float \/ direction e = (-1)%float) /\
      speed e = 50%float /\ patrol_range e = 100%float
  | KCollectible c => collected c = negb (active o)
  | KPlatform b => active o = true /\ b = true
  end.
Proof.
  intros Ho. destruct (running_built g paths actions) as (_ & _ & H).
  apply (H i o Ho).
Qed.

(** Sprites are decided at creation and never change. In every state of a
    session an object of [all_objects] has the loaded image of its own name
    when it is a Player or an Enemy, the image named 'collectible' when it
    is a Collectible, scaled to the object's size truncated to integers, a
    size that [int] and [pygame] accepted, or no sprite when no such image
    is loaded; a Platform never has a sprite, whatever was loaded under the
    name 'platform'; and the Player that a raise left out of [all_objects]
    has none. *)
Theorem session_sprites g paths actions :
  let s := run cfg colliderect space_step actions
             (session cfg int16 image_load scale_ok g paths) in
  (forall i o, heap s !! i = Some o -> i ∈ all_objects s ->
     let image key :=
       match assets s !! key with
       | Some a =>
           exists w h,
             int_of_float (o_width o) = Some w /\ int_of_float (o_height o) = Some h /\
             scale_ok w h = true /\ sprite o = Some (Scaled a w h)
       | None => sprite o = None
       end in
     match kind o with
     | KPlayer _ | KEnemy _ => image (o_name o)
     | KCollectible _ => image "collectible"
     | KPlatform _ => sprite o = None
     end) /\
  (forall i o, heap s !! i = Some o -> i ∉ all_objects s ->
     sprite o = None /\ player s = Some i) /\
  (forall i o, i ∈ platforms s -> heap s !! i = Some o -> sprite o = None).
Proof.
  intros s. destruct (running_built g paths actions) as (W & _ & H). fold s in W, H.
  split; [|split].
  - intros i o Ho Hi. destruct (H i o Ho) as (_ & [Hs _] & _). apply (Hs Hi).
  - intros i o Ho Hi. destruct (H i o Ho) as (_ & [_ Hs] & _). split; [auto|].
    destruct W as (W0 & [W1|[W1 Wp]] & _).
    + exfalso. apply Hi. rewrite W0, <- W1. apply list_elem_of_In, in_seq.
      apply lookup_lt_Some in Ho. lia.
    + rewrite Wp. f_equal. apply lookup_lt_Some in Ho.
      destruct (decide (i = length (all_objects s))) as [->|Hne]; [reflexivity|].
      exfalso. apply Hi. rewrite W0. apply list_elem_of_In, in_seq. lia.
  - intros i o Hi Ho. destruct W as (W0 & W1 & _ & _ & Wp & W5).
    rewrite Wp in Hi. apply indices_of_spec in Hi as (o' & Ho' & Hc).
    rewrite Ho in Ho'. injection Ho' as <-.
    destruct (H i o Ho) as (_ & [Hs1 Hs2] & _).
    destruct (decide (i ∈ all_objects s)) as [Hin|Hin]; [|auto].
    specialize (Hs1 Hin). unfold sprite_rule in Hs1. unfold class_of in Hc.
    destruct (kind o); try discriminate. exact Hs1.
Qed.

End SessionFacts.

(** ** The win flag of a session *)

Lemma handle_input_player_active cfg gt keys o :
  active (handle_input_player cfg gt keys o) = active o.
Proof.
  unfold handle_input_player, jump, set_player_attrs.
  destruct o as [? ? ? ? ? ? ? ? ? ? []]; destruct gt; simpl;
    repeat match goal with
           | |- context [if ?b then _ else _] => destruct b; simpl
           end; reflexivity.
Qed.

Lemma handle_input_win_exact cfg keys s :
  win_exact s -> win_exact (handle_input cfg keys s).
Proof.
  unfold win_exact. intros Hw. unfold handle_input. cbv zeta.
  cbn [player set_keys_pressed].
  destruct (player s) as [p|]; [|exact Hw].
  cbn [game_state collectibles set_heap set_keys_pressed]. rewrite Hw. f_equal.
  unfold all_inactive. cbn [heap collectibles set_heap set_keys_pressed].
  clear Hw. induction (collectibles s) as [|i ids IH]; [reflexivity|].
  cbn [forallb]. rewrite IH. f_equal. rewrite modify_lookup.
  destruct (decide (p = i)); [|reflexivity].
  destruct (heap s !! i) as [o|]; [|reflexivity]. simpl.
  now rewrite handle_input_player_active.
Qed.

Lemma update_win_exact colliderect space_step dt s :
  win_exact s -> win_exact (snd (update colliderect space_step dt s)).
Proof.
  unfold win_exact. intros Hw.
  destruct (update_cases colliderect space_step dt s) as [E|(s2 & _ & E)].
  - rewrite E. exact Hw.
  - pose proof (update_effect colliderect space_step dt s) as (Ev & C & _ & _ & W).
    cbv zeta in *. rewrite W, Hw, C. rewrite E at 1. cbn [fst andb].
    destruct ((0 <? length (collectibles s))%nat) eqn:El; cbn [andb].
    + rewrite andb_true_r.
      destruct (all_inactive s) eqn:Ei; [|reflexivity]. cbn [orb]. symmetry.
      eapply evolves_all_inactive; eassumption.
    + now rewrite andb_false_r.
Qed.

Lemma reset_game_win_exact s :
  (forall i, i ∈ collectibles s -> is_Some (heap s !! i)) ->
  win_exact (reset_game s).
Proof.
  intros Hv. unfold win_exact.
  destruct (reset_game_effect s) as [-> ->]. symmetry.
  destruct (collectibles s) as [|i ids] eqn:Ec; [reflexivity|]. cbn [length Nat.ltb Nat.leb andb].
  apply not_true_is_false. intros Hi.
  rewrite all_inactive_spec in Hi.
  destruct (Hv i) as [o Ho]; [left|].
  pose proof (reset_heap_lookup s i) as Hl.
  rewrite Ec, bool_decide_eq_true_2, Ho in Hl by left.
  assert (exists o', heap (reset_game s) !! i = Some (reset_collectible o')) as [o' Ho'].
  { rewrite Hl. destruct (bool_decide (player s = Some i)); simpl; eauto. }
  assert (active (reset_collectible o') = false) as Ha.
  { apply (Hi i); [|exact Ho'].
    destruct (reset_game_effect s) as [_ ->]. rewrite Ec. left. }
  unfold reset_collectible in Ha. destruct (kind o'); discriminate.
Qed.

Lemma built_collectibles_valid scale_ok F A s :
  built scale_ok F A s -> forall i, i ∈ collectibles s -> is_Some (heap s !! i).
Proof.
  intros ((_ & _ & _ & W3 & _) & _) i Hi. rewrite W3 in Hi.
  apply indices_of_spec in Hi as (o & Ho & _). eauto.
Qed.

Lemma step_win_exact cfg scale_ok colliderect space_step F A s a :
  built scale_ok F A s -> win_exact s ->
  win_exact (step cfg colliderect space_step s a).
Proof.
  intros B Hw. destruct a as [keys|dt|]; unfold step.
  - now apply handle_input_win_exact.
  - now apply update_win_exact.
  - eapply reset_game_win_exact, built_collectibles_valid, B.
Qed.

Lemma run_win_exact cfg scale_ok colliderect space_step A actions : forall F s,
  built scale_ok F A s -> win_exact s ->
  win_exact (run cfg colliderect space_step actions s).
Proof.
  induction actions as [|a actions IH]; intros F s B Hw; [exact Hw|].
  change (run cfg colliderect space_step (a :: actions) s)
    with (run cfg colliderect space_step actions (step cfg colliderect space_step s a)).
  apply (IH anything).
  - exact (run_built cfg scale_ok colliderect space_step F A [a] s B).
  - eapply step_win_exact; eassumption.
Qed.

Lemma session_win_exact cfg int16 image_load scale_ok g paths :
  win_exact (session cfg int16 image_load scale_ok g paths).
Proof.
  unfold win_exact.
  pose proof (session_built cfg int16 image_load scale_ok g paths)
    as ((_ & _ & _ & W3 & _) & _ & Hobj).
  assert (win (game_state (session cfg int16 image_load scale_ok g paths)) = false)
    as ->.
  { unfold session.
    destruct (initialize_game_frame cfg int16 image_load scale_ok g paths
                (Engine_new (GAME_WIDTH cfg) (GAME_HEIGHT cfg))) as [-> _].
    reflexivity. }
  symmetry.
  destruct (collectibles (session cfg int16 image_load scale_ok g paths))
    as [|i ids] eqn:Ec; [reflexivity|]. cbn [length Nat.ltb Nat.leb andb].
  apply not_true_is_false. intros Hi. rewrite all_inactive_spec in Hi.
  assert (i ∈ indices_of CCollectible
                (heap (session cfg int16 image_load scale_ok g paths))) as Hin
    by (rewrite <- W3; left).
  apply indices_of_spec in Hin as (o & Ho & Hc).
  assert (active o = false) as Ha by (apply (Hi i); [rewrite Ec; left|exact Ho]).
  destruct (Hobj i o Ho) as (_ & _ & Hf). unfold fresh in Hf. unfold class_of in Hc.
  destruct (kind o); try discriminate. congruence.
Qed.

(** C6. In a session (a new engine initialised from a description, then any
    inputs, updates and resets), after an update, whether it returned or
    raised, the win flag is set exactly when the list of collectibles is not
    empty and every collectible in it is inactive; and for a description
    whose level has no collectible the win flag is never set. *)
Theorem win_iff_all_collected cfg int16 image_load scale_ok colliderect space_step
    g paths actions dt :
  let s := snd (update colliderect space_step dt
                  (run cfg colliderect space_step actions
                     (session cfg int16 image_load scale_ok g paths))) in
  (win (game_state s) = true <->
   collectibles s <> [] /\
   forall i o, i ∈ collectibles s -> heap s !! i = Some o -> active o = false) /\
  (zero_collectibles g ->
   forall actions',
     win (game_state (run cfg colliderect space_step actions'
                        (session cfg int16 image_load scale_ok g paths))) = false).
Proof.
  cbv zeta. split.
  - rewrite <- win_test_spec.
    pose proof (run_win_exact cfg scale_ok colliderect space_step _ actions _ _
                  (session_built cfg int16 image_load scale_ok g paths)
                  (session_win_exact cfg int16 image_load scale_ok g paths)) as Hw.
    apply (update_win_exact colliderect space_step dt) in Hw.
    unfold win_exact in Hw. rewrite Hw. reflexivity.
  - intros Hz actions'. apply win_sound_no_collectibles.
    + apply run_win_sound, session_win_sound.
    + rewrite run_collectibles. now apply session_collectibles.
Qed.

(** ** update, object by object *)

Lemma foldl_modify_lookup_NoDup (f : GameObject -> GameObject) ids :
  NoDup ids ->
  forall h i,
    foldl (fun h j => modify j f h) h ids !! i
    = if bool_decide (i ∈ ids) then f <$> h !! i else h !! i.
Proof.
  induction 1 as [|j ids Hnin Hnd IH]; intros h i; cbn [foldl].
  - rewrite bool_decide_eq_false_2 by apply not_elem_of_nil. reflexivity.
  - rewrite IH, modify_lookup. destruct (decide (j = i)) as [->|Hne].
    + rewrite (bool_decide_eq_false_2 (i ∈ ids)) by assumption.
      rewrite bool_decide_eq_true_2 by left. reflexivity.
    + destruct (decide (i ∈ ids)) as [Hin|Hni].
      * rewrite !bool_decide_eq_true_2; [reflexivity|now right|assumption].
      * rewrite !bool_decide_eq_false_2; [reflexivity| |assumption].
        intros [?|?]%elem_of_cons; congruence.
Qed.

Lemma update_objects_lookup dt s i :
  NoDup (all_objects s) -> NoDup (enemies s) ->
  heap (update_objects dt s) !! i
  = (if bool_decide (i ∈ enemies s)
     then fmap (fun obj => if active obj then update_method dt obj else obj)
     else id)
      ((if bool_decide (i ∈ all_objects s)
        then fmap (fun obj => if active obj then update_method dt obj else obj)
        else id) (heap s !! i)).
Proof.
  intros Ha He. unfold update_objects. simpl.
  change (update_if_active dt)
    with (fun h j => modify j (fun obj => if active obj then update_method dt obj else obj) h).
  rewrite !foldl_modify_lookup_NoDup by assumption.
  repeat case_bool_decide; reflexivity.
Qed.

Lemma foldl_collect_lookup colliderect rect ids : forall h sc i,
  i ∉ ids -> fst (foldl (collect_step colliderect rect) (h, sc) ids) !! i = h !! i.
Proof.
  induction ids as [|j ids IH]; intros h sc i Hi; cbn [foldl]; [reflexivity|].
  apply not_elem_of_cons in Hi as [Hne Hi].
  destruct (collect_step colliderect rect (h, sc) j) as [h1 sc1] eqn:E.
  rewrite IH by assumption.
  unfold collect_step in E. destruct (h !! j) as [c|]; [|now simplify_eq].
  destruct (active c && colliderect rect (rect_of c)); [|now simplify_eq].
  destruct (collect c) as [pts c']. simplify_eq.
  now rewrite list_lookup_insert_ne by congruence.
Qed.

Lemma foldl_enemy_lookup colliderect p rect ids : forall h over i,
  i <> p -> fst (foldl (enemy_step colliderect p rect) (h, over) ids) !! i = h !! i.
Proof.
  induction ids as [|j ids IH]; intros h over i Hi; cbn [foldl]; [reflexivity|].
  destruct (enemy_step colliderect p rect (h, over) j) as [h1 over1] eqn:E.
  rewrite IH by assumption.
  unfold enemy_step in E. destruct (h !! j) as [e|]; [|now simplify_eq].
  destruct (active e && colliderect rect (rect_of e)); [|now simplify_eq].
  destruct (h !! p ≫= player_attrs); simplify_eq; [|reflexivity].
  rewrite modify_lookup. destruct (decide (p = i)); [congruence|reflexivity].
Qed.

Lemma check_collisions_lookup colliderect s i :
  i ∉ collectibles s -> player s <> Some i ->
  heap (_check_collisions colliderect s) !! i = heap s !! i.
Proof.
  intros Hc Hp. unfold _check_collisions.
  destruct (player s) as [p|]; [|reflexivity].
  destruct (player_obj s) as [po|]; [|reflexivity].
  pose proof (foldl_collect_lookup colliderect (rect_of po) (collectibles s)
                (heap s) (score (game_state s)) i Hc) as H1.
  destruct (foldl (collect_step colliderect (rect_of po)) _ _) as [h1 sc].
  pose proof (foldl_enemy_lookup colliderect p (rect_of po) (enemies s)
                h1 (game_over (game_state s)) i) as H2.
  destruct (foldl (enemy_step colliderect p (rect_of po)) _ _) as [h2 over].
  simpl in *. rewrite H2 by congruence. exact H1.
Qed.

Lemma update_method_active dt o : active (update_method dt o) = active o.
Proof.
  unfold update_method, Enemy_update, GameObject_update.
  destruct o as [? ? ? ? ? ? ? ? ? ? []]; reflexivity.
Qed.

Lemma layout_fields s s' :
  layout s' = layout s ->
  player s' = player s /\ enemies s' = enemies s /\
  collectibles s' = collectibles s /\ all_objects s' = all_objects s.
Proof. unfold layout. intros H. simplify_eq. auto. Qed.

Section Twice.

Context (cfg : Config) (int16 : string -> option Z) (image_load : string -> bool)
  (scale_ok : Z -> Z -> bool) (colliderect : Rect -> Rect -> bool)
  (space_step : float -> list StaticBox -> Body -> option Body).

Lemma step_physics_lookup dt s s2 i :
  step_physics space_step dt s = Some s2 -> player s <> Some i ->
  heap s2 !! i = heap s !! i.
Proof.
  unfold step_physics, player_obj.
  destruct (player s) as [p|]; [|now intros H; injection H as <-].
  destruct (heap s !! p) as [o|]; [|now intros H; injection H as <-].
  destruct (sync_player _ _ _ _) as [o'|]; [|discriminate].
  intros H Hp. injection H as <-. simpl.
  apply list_lookup_insert_ne. congruence.
Qed.

Lemma enemy_updated_twice F A dt s s' i o :
  built scale_ok F A s -> update colliderect space_step dt s = (true, s') ->
  i ∈ enemies s -> heap s !! i = Some o ->
  (exists e, kind o = KEnemy e) /\
  heap s' !! i = Some (update_method dt (update_method dt o)).
Proof.
  intros ((W0 & W1 & W2 & W3 & W4 & W5) & _ & Hobj) Hu Hi Ho.
  assert (class_of o = CEnemy) as Hc.
  { rewrite W2 in Hi. apply indices_of_spec in Hi as (o' & Ho' & Hc). congruence. }
  assert (exists e, kind o = KEnemy e) as [e He].
  { unfold class_of in Hc. destruct (kind o); try discriminate. eauto. }
  split; [eauto|].
  assert (active o = true) as Hact.
  { destruct (Hobj i o Ho) as (Hs & _). unfold sound in Hs. rewrite He in Hs.
    apply Hs. }
  assert (i ∉ collectibles s) as Hnc.
  { rewrite W3. intros (o' & Ho' & Hc')%indices_of_spec. congruence. }
  assert (player s <> Some i) as Hnp.
  { rewrite W5. intros Hl. apply last_Some_elem_of in Hl.
    apply indices_of_spec in Hl as (o' & Ho' & Hc'). congruence. }
  assert (i ∈ all_objects s) as Hall.
  { rewrite W0. apply list_elem_of_In, in_seq. apply lookup_lt_Some in Ho.
    destruct W1 as [W1|[W1 Wp]]; [lia|].
    destruct (decide (i = length (all_objects s))) as [->|Hne]; [congruence|lia]. }
  destruct (update_cases colliderect space_step dt s) as [E|(s0 & E0 & E)];
    rewrite E in Hu; [discriminate|]. injection Hu as <-.
  set (s1 := update_objects dt s0).
  set (s2 := _check_collisions colliderect s1).
  destruct (update_camera_effect s2) as (H3 & _).
  destruct (check_game_conditions_effect (_update_camera s2)) as (H4 & _).
  rewrite H4, H3.
  pose proof (step_physics_effect space_step dt _ _ E0) as (_ & C0 & A0 & E0' & P0 & _).
  cbn [collectibles all_objects enemies player advance_time set_game_state set_dt]
    in C0, A0, E0', P0.
  assert (heap s0 !! i = Some o) as H0.
  { rewrite (step_physics_lookup dt _ _ i E0); [exact Ho|exact Hnp]. }
  assert (player s1 = player s0 /\ collectibles s1 = collectibles s0) as [P1 C1]
    by (split; reflexivity).
  subst s2. rewrite check_collisions_lookup by congruence.
  subst s1. rewrite update_objects_lookup.
  - rewrite A0, E0', H0.
    rewrite (bool_decide_eq_true_2 (i ∈ enemies s)) by assumption.
    rewrite (bool_decide_eq_true_2 (i ∈ all_objects s)) by assumption.
    simpl. rewrite Hact, update_method_active, Hact. reflexivity.
  - rewrite A0, W0. apply NoDup_ListNoDup, seq_NoDup.
  - rewrite E0', W2. apply indices_of_NoDup.
Qed.

(** In every state of a session, an [update] of the engine that returns has
    applied [Enemy.update] twice to every enemy: once in the loop over
    [all_objects] and once more in the loop over [enemies]. An [update] in
    which [space.step] raises has changed no object. *)
Theorem every_enemy_is_updated_twice g paths actions dt i o :
  let s := run cfg colliderect space_step actions
             (session cfg int16 image_load scale_ok g paths) in
  i ∈ enemies s -> heap s !! i = Some o ->
  (exists e, kind o = KEnemy e) /\
  (fst (update colliderect space_step dt s) = true ->
   heap (snd (update colliderect space_step dt s)) !! i
   = Some (update_method dt (update_method dt o))) /\
  (fst (update colliderect space_step dt s) = false ->
   heap (snd (update colliderect space_step dt s)) = heap s).
Proof.
  intros s Hi Ho.
  pose proof (running_built cfg int16 image_load scale_ok colliderect space_step
                g paths actions) as Hb. fold s in Hb.
  destruct (update colliderect space_step dt s) as [[|] s'] eqn:E; cbn [fst snd].
  - destruct (enemy_updated_twice _ _ dt s s' i o Hb E Hi Ho) as [H1 H2].
    split; [exact H1|]. split; [auto|discriminate].
  - split.
    + destruct Hb as ((_ & _ & W2 & _) & _). rewrite W2 in Hi.
      apply indices_of_spec in Hi as (o' & Ho' & Hc).
      rewrite Ho in Ho'. injection Ho' as <-. unfold class_of in Hc.
      destruct (kind o); try discriminate. eauto.
    + split; [discriminate|]. intros _.
      destruct (update_cases colliderect space_step dt s) as [E'|(s0 & _ & E')];
        rewrite E' in E; [|discriminate]. now injection E as <-.
Qed.

End Twice.

(** ** The game state *)

Lemma flags_kept_refl g : flags_kept g g.
Proof. repeat split; auto. Qed.

Lemma flags_kept_trans g1 g2 g3 :
  flags_kept g1 g2 -> flags_kept g2 g3 -> flags_kept g1 g3.
Proof. unfold flags_kept. intuition congruence. Qed.

Lemma foldl_enemy_over colliderect p rect ids : forall h over,
  over = true -> snd (foldl (enemy_step colliderect p rect) (h, over) ids) = true.
Proof.
  induction ids as [|i ids IH]; intros h over Ho; cbn [foldl]; [exact Ho|].
  destruct (enemy_step colliderect p rect (h, over) i) as [h1 over1] eqn:E.
  apply IH. unfold enemy_step in E.
  repeat case_match; simplify_eq; reflexivity.
Qed.

Section GameStateFacts.

Context (cfg : Config) (colliderect : Rect -> Rect -> bool)
  (space_step : float -> list StaticBox -> Body -> option Body).

Lemma check_collisions_flags s :
  flags_kept (game_state s) (game_state (_check_collisions colliderect s)) /\
  time (game_state (_check_collisions colliderect s)) = time (game_state s).
Proof.
  unfold _check_collisions.
  destruct (player s) as [p|]; [|split; [apply flags_kept_refl|reflexivity]].
  destruct (player_obj s) as [po|]; [|split; [apply flags_kept_refl|reflexivity]].
  destruct (foldl (collect_step colliderect (rect_of po)) _ _) as [h1 sc].
  pose proof (foldl_enemy_over colliderect p (rect_of po) (enemies s) h1
                (game_over (game_state s))) as Ho.
  destruct (foldl (enemy_step colliderect p (rect_of po)) _ _) as [h2 over].
  simpl in *. repeat split; auto.
Qed.

Lemma check_game_conditions_flags s :
  flags_kept (game_state s) (game_state (_check_game_conditions s)) /\
  time (game_state (_check_game_conditions s)) = time (game_state s).
Proof.
  unfold _check_game_conditions.
  destruct (_ && _); destruct (player_obj _) as [po|];
    try destruct (_ <? _)%float; simpl; repeat split; auto.
Qed.

Lemma update_flags dt s :
  flags_kept (game_state s) (game_state (snd (update colliderect space_step dt s))) /\
  time (game_state (snd (update colliderect space_step dt s)))
  = (time (game_state s) + dt)%float.
Proof.
  destruct (update_cases colliderect space_step dt s) as [->|(s0 & E0 & ->)];
    cbn [snd].
  { split; [|reflexivity]. repeat split; auto. }
  set (s1 := update_objects dt s0).
  assert (game_state s1 = set_time (time (game_state s) + dt)%float (game_state s))
    as G1.
  { apply step_physics_effect in E0 as (_ & _ & _ & _ & _ & G0).
    subst s1. unfold update_objects. simpl. rewrite G0. reflexivity. }
  destruct (check_collisions_flags s1) as [F2 T2].
  set (s2 := _check_collisions colliderect s1) in *.
  destruct (update_camera_effect s2) as (_ & _ & _ & G3).
  destruct (check_game_conditions_flags (_update_camera s2)) as [F4 T4].
  rewrite G3 in F4, T4. split.
  - eapply flags_kept_trans; [|exact F4]. eapply flags_kept_trans; [|exact F2].
    rewrite G1. repeat split; auto.
  - rewrite T4, T2, G1. reflexivity.
Qed.

Lemma step_flags s a :
  is_reset a = false ->
  flags_kept (game_state s) (game_state (step cfg colliderect space_step s a)).
Proof.
  destruct a as [keys|dt|]; [| |discriminate]; intros _; unfold step.
  - destruct (handle_input_effect cfg keys s) as (_ & _ & _ & ->).
    apply flags_kept_refl.
  - apply update_flags.
Qed.

(** Neither flag is cleared by an input or an update: once the game is over,
    or won, it stays so through every sequence of inputs and updates, until
    [reset_game]; and [update] goes on advancing the clock all the same. *)
Theorem flags_stay_set s actions :
  forallb (fun a => negb (is_reset a)) actions = true ->
  let s' := run cfg colliderect space_step actions s in
  (game_over (game_state s) = true -> game_over (game_state s') = true) /\
  (win (game_state s) = true -> win (game_state s') = true) /\
  (forall dt,
     time (game_state (snd (update colliderect space_step dt s')))
     = (time (game_state s') + dt)%float).
Proof.
  intros Hr s'.
  assert (flags_kept (game_state s) (game_state s')) as (_ & _ & _ & Ho & Hw).
  { subst s'. unfold run. revert s.
    induction actions as [|a actions IH]; intros s; simpl in *;
      [apply flags_kept_refl|].
    apply andb_true_iff in Hr as [Ha Hr]. apply negb_true_iff in Ha.
    eapply flags_kept_trans; [apply step_flags, Ha|apply IH, Hr]. }
  split; [exact Ho|]. split; [exact Hw|]. intros dt. apply update_flags.
Qed.

Lemma step_unwritten s a :
  gs_health (game_state s) = 100%Z /\ level (game_state s) = 0%Z /\
  lives (game_state s) = 3%Z ->
  gs_health (game_state (step cfg colliderect space_step s a)) = 100%Z /\
  level (game_state (step cfg colliderect space_step s a)) = 0%Z /\
  lives (game_state (step cfg colliderect space_step s a)) = 3%Z.
Proof.
  intros (H1 & H2 & H3). destruct a as [keys|dt|]; unfold step.
  - destruct (handle_input_effect cfg keys s) as (_ & _ & _ & ->). auto.
  - destruct (update_flags dt s) as [(-> & -> & -> & _) _]. auto.
  - repeat split.
Qed.

Lemma session_unwritten int16 image_load scale_ok g paths actions :
  let s := run cfg colliderect space_step actions
             (session cfg int16 image_load scale_ok g paths) in
  gs_health (game_state s) = 100%Z /\ level (game_state s) = 0%Z /\
  lives (game_state s) = 3%Z.
Proof.
  cbv zeta. unfold run.
  assert (gs_health (game_state (session cfg int16 image_load scale_ok g paths)) = 100%Z /\
          level (game_state (session cfg int16 image_load scale_ok g paths)) = 0%Z /\
          lives (game_state (session cfg int16 image_load scale_ok g paths)) = 3%Z) as H0.
  { unfold session.
    destruct (initialize_game_frame cfg int16 image_load scale_ok g paths
                (Engine_new (GAME_WIDTH cfg) (GAME_HEIGHT cfg))) as [-> _].
    repeat split. }
  revert H0. generalize (session cfg int16 image_load scale_ok g paths).
  induction actions as [|a actions IH]; intros s H0; simpl; [exact H0|].
  apply IH, step_unwritten, H0.
Qed.

(** The fields [health], [level] and [lives] of the game state are never
    written: in every state of a session they are 100, 0 and 3. *)
Theorem unwritten_state_fields int16 image_load scale_ok g paths actions :
  let s := run cfg colliderect space_step actions
             (session cfg int16 image_load scale_ok g paths) in
  gs_health (game_state s) = 100%Z /\ level (game_state s) = 0%Z /\
  lives (game_state s) = 3%Z.
Proof. apply session_unwritten. Qed.

End GameStateFacts.

(** ** Health *)

Lemma same_health_refl o : same_health o o.
Proof. reflexivity. Qed.

Lemma same_health_trans o1 o2 o3 :
  same_health o1 o2 -> same_health o2 o3 -> same_health o1 o3.
Proof. unfold same_health. congruence. Qed.

Lemma same_health_update dt o : same_health o (update_method dt o).
Proof.
  unfold same_health, update_method, Enemy_update, GameObject_update, player_attrs.
  destruct o as [? ? ? ? ? ? ? ? ? ? []]; reflexivity.
Qed.

Lemma same_health_collect o : same_health o (snd (collect o)).
Proof.
  unfold same_health, collect, player_attrs.
  destruct o as [? ? ? ? ? ? ? ? ? ? [| |[pts []]|]]; reflexivity.
Qed.

Lemma same_health_sync space_step dt boxes o o' :
  sync_player space_step dt boxes o = Some o' -> same_health o o'.
Proof.
  unfold same_health, sync_player, player_attrs.
  destruct o as [? ? ? ? ? ? ? ? ? ? [a| | |]]; simpl;
    try (intros H; injection H as <-; reflexivity).
  destruct (physics_body a); [destruct (space_step _ _ _)|];
    intros H; simplify_eq; reflexivity.
Qed.

Lemma same_health_input cfg gt keys o :
  same_health o (handle_input_player cfg gt keys o).
Proof.
  unfold same_health, handle_input_player, jump, set_player_attrs, player_attrs.
  destruct gt; try reflexivity;
    repeat match goal with |- context [if ?b then _ else _] => destruct b end;
    destruct o as [? ? ? ? ? ? ? ? ? ? [a| | |]]; simpl;
    repeat match goal with |- context [if ?b then _ else _] => destruct b end;
    reflexivity.
Qed.

Lemma same_health_reset_collectible o : same_health o (reset_collectible o).
Proof.
  unfold same_health, reset_collectible, player_attrs.
  destruct o as [? ? ? ? ? ? ? ? ? ? []]; reflexivity.
Qed.

Lemma related_hp_at p h h' : related same_health h h' -> hp_at p h' = hp_at p h.
Proof.
  intros [Hl Hr]. unfold hp_at. destruct (h !! p) as [o|] eqn:Ho.
  - destruct (Hr p o Ho) as (o' & -> & Hoo). exact Hoo.
  - apply lookup_ge_None in Ho. rewrite (proj2 (lookup_ge_None h' p)) by lia.
    reflexivity.
Qed.

Lemma foldl_enemy_dead colliderect p rect ids : forall h over,
  dead_is_over p h over ->
  dead_is_over p (fst (foldl (enemy_step colliderect p rect) (h, over) ids))
    (snd (foldl (enemy_step colliderect p rect) (h, over) ids)).
Proof.
  induction ids as [|i ids IH]; intros h over Hd; cbn [foldl]; [exact Hd|].
  destruct (enemy_step colliderect p rect (h, over) i) as [h1 over1] eqn:E.
  apply IH. unfold enemy_step in E.
  destruct (h !! i) as [e|]; [|now simplify_eq].
  destruct (active e && colliderect rect (rect_of e)); [|now simplify_eq].
  destruct (h !! p ≫= player_attrs) as [a|] eqn:Ha; [|now simplify_eq].
  simplify_eq. intros hp Hhp Hle. unfold hp_at in Hhp.
  rewrite modify_lookup in Hhp. destruct (decide (p = p)); [|congruence].
  destruct (h !! p) as [o|] eqn:Ho; [|discriminate]. simpl in Ha, Hhp.
  unfold set_player_attrs, player_attrs in *.
  destruct (kind o) eqn:Hk; simplify_eq. simpl in Hhp. simplify_eq.
  destruct (Z.leb_spec (health a - 10) 0); [reflexivity|lia].
Qed.

Section Health.

Context (cfg : Config) (int16 : string -> option Z) (image_load : string -> bool)
  (scale_ok : Z -> Z -> bool) (colliderect : Rect -> Rect -> bool)
  (space_step : float -> list StaticBox -> Body -> option Body).

Lemma check_collisions_dead s :
  ends_when_dead s -> ends_when_dead (_check_collisions colliderect s).
Proof.
  intros Hd. unfold _check_collisions.
  destruct (player s) as [p|] eqn:Ep; [|exact Hd].
  destruct (player_obj s) as [po|]; [|exact Hd].
  pose proof (foldl_collect_related same_health same_health_refl same_health_trans
                same_health_collect colliderect (rect_of po) (collectibles s)
                (heap s) (score (game_state s))) as H1.
  destruct (foldl (collect_step colliderect (rect_of po)) _ _) as [h1 sc].
  pose proof (foldl_enemy_dead colliderect p (rect_of po) (enemies s) h1
                (game_over (game_state s))) as H2.
  destruct (foldl (enemy_step colliderect p (rect_of po)) _ _) as [h2 over].
  simpl in *. intros p' Hp'. simpl in Hp'. rewrite Ep in Hp'. simplify_eq. simpl.
  apply H2. intros hp Hhp. rewrite (related_hp_at _ _ _ H1) in Hhp.
  now apply (Hd p' Ep).
Qed.

Lemma ends_when_dead_ext s s' :
  player s' = player s ->
  (forall p, hp_at p (heap s') = hp_at p (heap s)) ->
  (game_over (game_state s) = true -> game_over (game_state s') = true) ->
  ends_when_dead s -> ends_when_dead s'.
Proof.
  intros Hp Hh Ho Hd p Ep hp Hhp Hle. rewrite Hp in Ep. rewrite Hh in Hhp.
  apply Ho. eapply Hd; eassumption.
Qed.

Lemma update_dead dt s :
  ends_when_dead s -> ends_when_dead (snd (update colliderect space_step dt s)).
Proof.
  intros Hd.
  destruct (update_cases colliderect space_step dt s) as [->|(s0 & E0 & ->)];
    cbn [snd].
  { apply (ends_when_dead_ext s); [reflexivity|reflexivity|auto|exact Hd]. }
  set (s1 := update_objects dt s0).
  pose proof (step_physics_effect space_step dt _ _ E0) as (_ & _ & _ & _ & P0 & G0).
  assert (ends_when_dead s1) as H1.
  { apply (ends_when_dead_ext s); [| | |exact Hd].
    - subst s1. unfold update_objects. simpl. exact P0.
    - intros p. apply related_hp_at. subst s1.
      eapply related_trans; [apply same_health_trans| |
        apply update_objects_related;
          [apply same_health_refl|apply same_health_trans|apply same_health_update]].
      change (heap s) with (heap (advance_time dt s)).
      eapply (step_physics_related same_health);
        [apply same_health_refl|apply same_health_trans| |exact E0].
      intros ? ? ? ? ?. apply same_health_sync.
    - subst s1. unfold update_objects. simpl. rewrite G0. auto. }
  apply check_collisions_dead in H1.
  set (s2 := _check_collisions colliderect s1) in *.
  destruct (update_camera_effect s2) as (H3 & _ & _ & G3).
  assert (ends_when_dead (_update_camera s2)) as Hc.
  { apply (ends_when_dead_ext s2); [| | |exact H1].
    - unfold _update_camera. destruct (player_obj s2); reflexivity.
    - intros p. now rewrite H3.
    - now rewrite G3. }
  destruct (check_game_conditions_effect (_update_camera s2)) as (H4 & _).
  apply (ends_when_dead_ext (_update_camera s2)); [| | |exact Hc].
  - now destruct (layout_fields _ _ (check_game_conditions_layout (_update_camera s2))).
  - intros p. now rewrite H4.
  - apply check_game_conditions_flags.
Qed.

Lemma handle_input_dead keys s :
  ends_when_dead s -> ends_when_dead (handle_input cfg keys s).
Proof.
  apply ends_when_dead_ext.
  - now destruct (layout_fields _ _ (handle_input_layout cfg keys s)).
  - intros p. apply related_hp_at. unfold handle_input. simpl.
    destruct (player s); simpl; [|apply related_refl, same_health_refl].
    apply related_modify; [apply same_health_refl|].
    intros o _. apply same_health_input.
  - destruct (handle_input_effect cfg keys s) as (_ & _ & _ & ->). auto.
Qed.

Lemma reset_game_dead s : ends_when_dead (reset_game s).
Proof.
  intros p Ep hp Hhp Hle. exfalso. simpl in Ep.
  unfold hp_at in Hhp. rewrite reset_heap_lookup in Hhp.
  rewrite (bool_decide_eq_true_2 (player s = Some p)) in Hhp by assumption.
  destruct (heap s !! p) as [o|]; [|now case_bool_decide].
  assert (health <$> player_attrs (reset_player o) = Some hp) as H.
  { case_bool_decide; simpl in Hhp; [|exact Hhp].
    now rewrite same_health_reset_collectible in Hhp. }
  unfold reset_player, set_player_attrs, player_attrs in H.
  destruct (kind o) eqn:Hk; simpl in H; rewrite ?Hk in H; simpl in H;
    [injection H as <-; lia|discriminate..].
Qed.

Lemma run_dead actions : forall s,
  ends_when_dead s -> ends_when_dead (run cfg colliderect space_step actions s).
Proof.
  unfold run. induction actions as [|a actions IH]; intros s Hd; simpl; [exact Hd|].
  apply IH. destruct a as [keys|dt|]; unfold step.
  - now apply handle_input_dead.
  - now apply update_dead.
  - apply reset_game_dead.
Qed.

Lemma session_dead g paths : ends_when_dead (session cfg int16 image_load scale_ok g paths).
Proof.
  intros p Ep hp Hhp Hle. exfalso.
  destruct (session_built cfg int16 image_load scale_ok g paths) as (_ & _ & H).
  unfold hp_at in Hhp.
  destruct (heap (session cfg int16 image_load scale_ok g paths) !! p) as [o|] eqn:Ho;
    [|discriminate].
  destruct (H p o Ho) as (_ & _ & Hf). unfold fresh in Hf.
  simpl in Hhp. unfold player_attrs in Hhp.
  destruct (kind o) eqn:Hk; simpl in Hhp; rewrite ?Hk in Hhp; simpl in Hhp;
    [injection Hhp as <-; lia|discriminate..].
Qed.

(** In every state of a session [get_game_state] returns a report; the
    level it reports is 0 and the health at most 100, and when the health
    reported is used up the report says the game is over. Without a player
    the health reported is 100. *)
Theorem state_report_in_sessions g paths actions fps :
  let s := run cfg colliderect space_step actions
             (session cfg int16 image_load scale_ok g paths) in
  exists r,
    get_game_state fps s = Some r /\
    r_score r = score (game_state s) /\ r_level r = 0%Z /\
    (r_health r <= 100)%Z /\
    ((r_health r <= 0)%Z -> r_game_over r = true) /\
    (player s = None -> r_health r = 100%Z).
Proof.
  intros s.
  pose proof (run_dead actions _ (session_dead g paths)) as Hd. fold s in Hd.
  destruct (running_built cfg int16 image_load scale_ok colliderect space_step g paths actions)
    as ((_ & _ & _ & _ & _ & W5) & _ & Hobj). fold s in W5, Hobj.
  destruct (session_unwritten cfg colliderect space_step int16 image_load scale_ok
              g paths actions) as (_ & Hlevel & _). fold s in Hlevel.
  unfold get_game_state. destruct (player s) as [p|] eqn:Ep.
  - symmetry in W5. apply last_Some_elem_of, indices_of_spec in W5 as (o & Ho & Hc).
    unfold class_of in Hc. destruct (kind o) as [a| | |] eqn:Hk; try discriminate.
    rewrite Ho. simpl. unfold player_attrs. rewrite Hk. simpl.
    eexists. split; [reflexivity|]. simpl. split; [reflexivity|].
    split; [exact Hlevel|].
    destruct (Hobj p o Ho) as (Hs & _). unfold sound in Hs. rewrite Hk in Hs.
    split; [apply Hs|]. split; [|discriminate].
    intros Hle. apply (Hd p Ep (health a)); [|exact Hle].
    unfold hp_at. rewrite Ho. simpl. unfold player_attrs. now rewrite Hk.
  - eexists. split; [reflexivity|]. simpl. split; [reflexivity|].
    split; [exact Hlevel|]. split; [lia|]. split; [lia|reflexivity].
Qed.

End Health.

(** ** Input *)

(** Only platformer and racing games read the keys: with any other game
    type, in every state a session reaches from there, [handle_input] records
    the keys and changes nothing else. *)
Theorem input_ignored_by_other_game_types cfg colliderect space_step s actions keys :
  game_type s <> PLATFORMER -> game_type s <> RACING ->
  let s' := run cfg colliderect space_step actions s in
  handle_input cfg keys s' = set_keys_pressed keys s'.
Proof.
  intros Hp Hr s'.
  assert (game_type s' = game_type s) as Hg.
  { pose proof (run_layout cfg colliderect space_step actions s) as Hl.
    fold s' in Hl. unfold layout in Hl. now simplify_eq. }
  unfold handle_input. simpl. destruct (player s') as [p|]; [|reflexivity].
  assert (modify p (handle_input_player cfg (game_type s') keys) (heap s') = heap s')
    as ->.
  { unfold modify. apply list_alter_id. intros o. rewrite Hg.
    destruct (game_type s); try reflexivity; congruence. }
  now destruct s'.
Qed.

Lemma same_body_refl o : same_body o o.
Proof. reflexivity. Qed.

Lemma same_body_trans o1 o2 o3 : same_body o1 o2 -> same_body o2 o3 -> same_body o1 o3.
Proof. unfold same_body. congruence. Qed.

Lemma same_body_update dt o : same_body o (update_method dt o).
Proof.
  unfold same_body, update_method, Enemy_update, GameObject_update, player_attrs.
  destruct o as [? ? ? ? ? ? ? ? ? ? []]; reflexivity.
Qed.

Lemma same_body_collect o : same_body o (snd (collect o)).
Proof.
  unfold same_body, collect, player_attrs.
  destruct o as [? ? ? ? ? ? ? ? ? ? [| |[pts []]|]]; reflexivity.
Qed.

Lemma same_body_hit o hp : same_body o (set_player_attrs (set_health hp) o).
Proof.
  unfold same_body, set_player_attrs, player_attrs.
  destruct o as [? ? ? ? ? ? ? ? ? ? []]; reflexivity.
Qed.

Lemma same_body_input cfg gt keys o : same_body o (handle_input_player cfg gt keys o).
Proof.
  unfold same_body, handle_input_player, jump, set_player_attrs, player_attrs.
  destruct gt; try reflexivity;
    repeat match goal with |- context [if ?b then _ else _] => destruct b end;
    destruct o as [? ? ? ? ? ? ? ? ? ? [a| | |]]; simpl;
    repeat match goal with |- context [if ?b then _ else _] => destruct b end;
    reflexivity.
Qed.

Lemma sync_player_body space_step dt boxes o :
  match sync_player space_step dt boxes o with
  | Some o' =>
      player_attrs o' ≫= physics_body
      = (fun b => default b (space_step dt boxes b)) <$> (player_attrs o ≫= physics_body) /\
      forall b, player_attrs o ≫= physics_body = Some b ->
        is_Some (space_step dt boxes b)
  | None =>
      exists b, player_attrs o ≫= physics_body = Some b /\ space_step dt boxes b = None
  end.
Proof.
  unfold sync_player, player_attrs.
  destruct o as [? ? ? ? ? ? ? ? ? ? [a| | |]]; try (split; [reflexivity|discriminate]).
  simpl. destruct (physics_body a) as [b|] eqn:E; simpl; rewrite ?E;
    [|split; [reflexivity|discriminate]].
  destruct (space_step dt boxes b) as [b'|] eqn:Es; simpl; rewrite ?E; simpl; [|eauto].
  split; [reflexivity|]. intros b0 Hb. injection Hb as <-. rewrite Es. eauto.
Qed.

Lemma related_body p h h' :
  related same_body h h' ->
  (h' !! p ≫= player_attrs) ≫= physics_body
  = (h !! p ≫= player_attrs) ≫= physics_body.
Proof.
  intros [Hl Hr]. destruct (h !! p) as [o|] eqn:Ho.
  - destruct (Hr p o Ho) as (o' & -> & Hoo). exact Hoo.
  - apply lookup_ge_None in Ho. rewrite (proj2 (lookup_ge_None h' p)) by lia.
    reflexivity.
Qed.

Lemma after_physics_body colliderect dt s :
  player_body
    (_check_game_conditions
       (_update_camera (_check_collisions colliderect (update_objects dt s))))
  = player_body s.
Proof.
  unfold player_body, player_obj.
  pose proof (after_physics_layout colliderect dt s) as Hl.
  apply layout_fields in Hl as (-> & _).
  destruct (player s) as [p|]; [|reflexivity].
  apply related_body.
  apply (after_physics_related same_body same_body_refl same_body_trans
           same_body_update same_body_collect
           (fun o a _ => same_body_hit o (health a - 10)) colliderect dt s).
Qed.

Lemma step_physics_body space_step dt s :
  match step_physics space_step dt s with
  | Some s2 =>
      player_body s2
      = (fun b => default b (space_step dt (space s) b)) <$> player_body s /\
      forall b, player_body s = Some b -> is_Some (space_step dt (space s) b)
  | None =>
      exists b, player_body s = Some b /\ space_step dt (space s) b = None
  end.
Proof.
  unfold step_physics, player_body, player_obj.
  destruct (player s) as [p|] eqn:Ep; [|rewrite Ep; split; [reflexivity|discriminate]].
  destruct (heap s !! p) as [o|] eqn:Ho;
    [|rewrite Ep, Ho; split; [reflexivity|discriminate]].
  pose proof (sync_player_body space_step dt (space s) o) as Hs.
  destruct (sync_player space_step dt (space s) o) as [o'|]; [|exact Hs].
  cbn [player heap set_heap]. rewrite Ep.
  rewrite list_lookup_insert_eq by (eapply lookup_lt_Some; eassumption).
  exact Hs.
Qed.

(** Whether [space.step] returns depends on the body alone, and so does the
    body an [update] leaves. *)
Lemma update_body colliderect space_step dt s :
  fst (update colliderect space_step dt s)
  = default true
      ((fun b => bool_decide (is_Some (space_step dt (space s) b))) <$> player_body s) /\
  player_body (snd (update colliderect space_step dt s))
  = (fun b => default b (space_step dt (space s) b)) <$> player_body s.
Proof.
  unfold update. cbv zeta.
  pose proof (step_physics_body space_step dt (advance_time dt s)) as Hs.
  change (space (advance_time dt s)) with (space s) in Hs.
  change (player_body (advance_time dt s)) with (player_body s) in Hs.
  destruct (step_physics space_step dt (advance_time dt s)) as [s2|]; cbn [fst snd].
  - destruct Hs as [Hb Hr]. rewrite after_physics_body. split; [|exact Hb].
    destruct (player_body s) as [b|]; [|reflexivity]. simpl.
    now rewrite bool_decide_eq_true_2 by auto.
  - destruct Hs as (b & Hb & Hn).
    change (player_body (advance_time dt s)) with (player_body s).
    rewrite Hb. simpl. rewrite Hn. split; [|reflexivity].
    rewrite bool_decide_eq_false_2; [reflexivity|]. intros [? ?]. discriminate.
Qed.

(** The keys never reach the physics body of the player: [handle_input]
    leaves it as it is, whatever the keys and the game type, and [update]
    changes it by [space.step] alone (and leaves it as it is when the step
    raises), so that whether an update returns and the body it leaves are
    the same with and without the input before it. *)
Theorem keys_never_reach_the_physics_body cfg colliderect space_step s keys dt :
  player_body (handle_input cfg keys s) = player_body s /\
  player_body (snd (update colliderect space_step dt s))
  = (fun b => default b (space_step dt (space s) b)) <$> player_body s /\
  player_body (snd (update colliderect space_step dt (handle_input cfg keys s)))
  = player_body (snd (update colliderect space_step dt s)) /\
  fst (update colliderect space_step dt (handle_input cfg keys s))
  = fst (update colliderect space_step dt s).
Proof.
  assert (player_body (handle_input cfg keys s) = player_body s) as Hi.
  { unfold player_body, player_obj, handle_input. simpl.
    destruct (player s) as [p|] eqn:Ep; simpl; rewrite Ep; [|reflexivity].
    rewrite modify_lookup. destruct (decide (p = p)); [|congruence].
    destruct (heap s !! p) as [o|]; [|reflexivity]. simpl.
    apply same_body_input. }
  assert (space (handle_input cfg keys s) = space s) as Hsp.
  { unfold handle_input. simpl. now destruct (player s). }
  destruct (update_body colliderect space_step dt s) as [F1 B1].
  destruct (update_body colliderect space_step dt (handle_input cfg keys s)) as [F2 B2].
  split; [exact Hi|]. split; [exact B1|]. split.
  - now rewrite B1, B2, Hi, Hsp.
  - now rewrite F1, F2, Hi, Hsp.
Qed.

(** ** A colour that cannot be read *)



Lemma create_entities_level cfg int16 scale_ok es s :
  platforms (snd (_create_entities cfg int16 scale_ok es s)) = platforms s /\
  collectibles (snd (_create_entities cfg int16 scale_ok es s)) = collectibles s /\
  space (snd (_create_entities cfg int16 scale_ok es s)) = space s.
Proof.
  destruct (create_entities_frame cfg int16 scale_ok es s) as (_ & C & P & S & _).
  auto.
Qed.


(** ** Witnesses *)

Lemma session_objects_are_sound_witness :
  exists o,
    heap (run example_config overlap free_fall [Update frame_dt]
            (session example_config hex2 (fun _ => true) scales demo_game ∅)) !! 0%nat
    = Some o /\
    match kind o with
    | KPlayer a => active o = true /\ (health a <= 100)%Z
    | KEnemy e =>
        active o = true /\ (direction e = 1%float \/ direction e = (-1)%float) /\
        speed e = 50%float /\ patrol_range e = 100%float
    | KCollectible c => collected c = negb (active o)
    | KPlatform b => active o = true /\ b = true
    end.
Proof.
  assert (is_Some (heap (run example_config overlap free_fall [Update frame_dt]
                           (session example_config hex2 (fun _ => true) scales
                              demo_game ∅))
                   !! 0%nat)) as [o Ho].
  { vm_compute. eexists. reflexivity. }
  exists o. split; [exact Ho|].
  exact (session_objects_are_sound example_config hex2 (fun _ => true) scales overlap
           free_fall demo_game ∅ [Update frame_dt] 0%nat o Ho).
Defined.

Lemma every_enemy_is_updated_twice_witness :
  exists o,
    0%nat ∈ enemies (run example_config overlap free_fall []
                       (session example_config hex2 (fun _ => true) scales
                          enemy_only ∅)) /\
    heap (run example_config overlap free_fall []
            (session example_config hex2 (fun _ => true) scales enemy_only ∅)) !! 0%nat
    = Some o /\
    fst (update overlap free_fall 0.5
           (run example_config overlap free_fall []
              (session example_config hex2 (fun _ => true) scales enemy_only ∅)))
    = true /\
    heap (snd (update overlap free_fall 0.5
                 (run example_config overlap free_fall []
                    (session example_config hex2 (fun _ => true) scales
                       enemy_only ∅)))) !! 0%nat
    = Some (update_method 0.5 (update_method 0.5 o)).
Proof.
  assert (0%nat ∈ enemies (run example_config overlap free_fall []
                             (session example_config hex2 (fun _ => true) scales
                                enemy_only ∅))) as Hi
    by (vm_compute; left).
  assert (is_Some (heap (run example_config overlap free_fall []
                           (session example_config hex2 (fun _ => true) scales
                              enemy_only ∅)) !! 0%nat)) as [o Ho]
    by (vm_compute; eexists; reflexivity).
  assert (fst (update overlap free_fall 0.5
                 (run example_config overlap free_fall []
                    (session example_config hex2 (fun _ => true) scales
                       enemy_only ∅))) = true) as Hr
    by (vm_compute; reflexivity).
  exists o. split; [exact Hi|]. split; [exact Ho|]. split; [exact Hr|].
  exact (proj1 (proj2 (every_enemy_is_updated_twice example_config hex2
                         (fun _ => true) scales overlap free_fall enemy_only ∅ []
                         0.5%float 0%nat o Hi Ho)) Hr).
Defined.

Lemma flags_stay_set_witness :
  forallb (fun a => negb (is_reset a)) short_play = true /\
  game_over (game_state (run example_config overlap free_fall [Update frame_dt]
                           (session_of fallen_game))) = true /\
  win (game_state (run example_config overlap free_fall [Update frame_dt]
                     (session_of fallen_game))) = true /\
  game_over (game_state (run example_config overlap free_fall short_play
                           (run example_config overlap free_fall [Update frame_dt]
                              (session_of fallen_game)))) = true /\
  win (game_state (run example_config overlap free_fall short_play
                     (run example_config overlap free_fall [Update frame_dt]
                        (session_of fallen_game)))) = true.
Proof.
  assert (game_over (game_state (run example_config overlap free_fall
                                   [Update frame_dt] (session_of fallen_game)))
          = true) as Ho by (vm_compute; reflexivity).
  assert (win (game_state (run example_config overlap free_fall
                             [Update frame_dt] (session_of fallen_game)))
          = true) as Hw by (vm_compute; reflexivity).
  split; [reflexivity|]. split; [exact Ho|]. split; [exact Hw|].
  destruct (flags_stay_set example_config overlap free_fall
              (run example_config overlap free_fall [Update frame_dt]
                 (session_of fallen_game))
              short_play eq_refl) as (H1 & H2 & _).
  split; [exact (H1 Ho)|exact (H2 Hw)].
Defined.

Lemma input_ignored_by_other_game_types_witness :
  game_type (session_of flappy_game) <> PLATFORMER /\
  game_type (session_of flappy_game) <> RACING /\
  handle_input example_config {[ "space" ]}
    (run example_config overlap free_fall [Update frame_dt] (session_of flappy_game))
  = set_keys_pressed {[ "space" ]}
      (run example_config overlap free_fall [Update frame_dt]
         (session_of flappy_game)).
Proof.
  assert (game_type (session_of flappy_game) = FLAPPY) as Hg
    by (vm_compute; reflexivity).
  assert (game_type (session_of flappy_game) <> PLATFORMER) as H1
    by (rewrite Hg; discriminate).
  assert (game_type (session_of flappy_game) <> RACING) as H2
    by (rewrite Hg; discriminate).
  split; [exact H1|]. split; [exact H2|].
  exact (input_ignored_by_other_game_types example_config overlap free_fall
           (session_of flappy_game) [Update frame_dt] {[ "space" ]} H1 H2).
Defined.


(** * The endpoints *)

Lemma lower_ascii_idem c : lower_ascii (lower_ascii c) = lower_ascii c.
Proof. destruct c as [[] [] [] [] [] [] [] []]; reflexivity. Qed.

Lemma lower_idem s : lower (lower s) = lower s.
Proof. induction s as [|c s IH]; simpl; [reflexivity|]. now rewrite lower_ascii_idem, IH. Qed.

(** For a key written in ASCII, where [lower] is Python's [str.lower],
    the names [handle_game_input] gives the keys are lower-case, do not
    depend on the case the front end sends, and are names it leaves as they
    are: standardising twice is standardising once. *)
Theorem standard_key_is_idempotent key :
  is_ascii key = true ->
  Server.standard_key (Server.standard_key key) = Server.standard_key key /\
  Server.standard_key (lower key) = Server.standard_key key /\
  lower (Server.standard_key key) = Server.standard_key key.
Proof.
  intros _. split; [|split].
  - unfold Server.standard_key at 2 3. cbv zeta.
    destruct (bool_decide (lower key ∈ ["arrowleft"; "keya"])) eqn:E1; [reflexivity|].
    destruct (bool_decide (lower key ∈ ["arrowright"; "keyd"])) eqn:E2; [reflexivity|].
    destruct (bool_decide (lower key ∈ ["arrowup"; "keyw"])) eqn:E3; [reflexivity|].
    destruct (bool_decide (lower key ∈ ["arrowdown"; "keys"])) eqn:E4; [reflexivity|].
    destruct (bool_decide (lower key ∈ ["space"])) eqn:E5; [reflexivity|].
    unfold Server.standard_key. cbv zeta.
    now rewrite lower_idem, E1, E2, E3, E4, E5.
  - unfold Server.standard_key. cbv zeta. now rewrite lower_idem.
  - unfold Server.standard_key. cbv zeta.
    repeat case_bool_decide; try reflexivity. apply lower_idem.
Qed.

Lemma standard_key_is_idempotent_witness :
  is_ascii "KeyA" = true /\
  Server.standard_key "KeyA" = "left" /\
  Server.standard_key (Server.standard_key "KeyA") = Server.standard_key "KeyA" /\
  Server.standard_key (lower "KeyA") = Server.standard_key "KeyA" /\
  lower (Server.standard_key "KeyA") = Server.standard_key "KeyA".
Proof.
  split; [reflexivity|]. split; [reflexivity|].
  exact (standard_key_is_idempotent "KeyA" eq_refl).
Defined.

Lemma initialize_game_no_level cfg int16 image_load scale_ok g paths s :
  first_level g = None ->
  fst (Engine.initialize_game cfg int16 image_load scale_ok g paths s) = false.
Proof.
  intros Hl. unfold Engine.initialize_game. cbv zeta.
  destruct (GameType_of _) as [gt|]; [|reflexivity].
  destruct (_create_entities _ _ _ _) as [[] s2]; [|reflexivity].
  now rewrite Hl.
Qed.

(** A description whose list of levels is empty cannot be initialised: the
    endpoint answers 500 whatever else the description holds. The assets
    are generated all the same before the engine raises, a game that was
    running is still flagged as running, and when the assets were returned
    the engine it ran on has been replaced by the one that failed. *)
Theorem empty_levels_cannot_be_initialised cfg md5 dalle int16 save_ok image_load
    scale_ok g w :
  g_levels g = Some [] ->
  let r := Server.initialize_game cfg md5 dalle int16 save_ok image_load scale_ok g w in
  fst r = Server.HttpError 500 /\
  Server.asset_manager (snd r)
  = snd (generate_game_assets cfg md5 dalle int16 save_ok g (Server.asset_manager w)) /\
  Server.game_running (snd r) = Server.game_running w /\
  (forall assets,
     fst (generate_game_assets cfg md5 dalle int16 save_ok g (Server.asset_manager w))
     = Some assets ->
     Server.game_engine (snd r) = Some (session cfg int16 image_load scale_ok g assets)).
Proof.
  intros Hl r. subst r. unfold Server.initialize_game.
  destruct (generate_game_assets _ _ _ _ _ _ _) as [[assets|] m1]; simpl;
    [|repeat split; discriminate].
  assert (first_level g = None) as Hf by (unfold first_level; now rewrite Hl).
  pose proof (initialize_game_no_level cfg int16 image_load scale_ok g assets
                (Engine_new (GAME_WIDTH cfg) (GAME_HEIGHT cfg)) Hf) as Hi.
  assert (forall a, Some assets = Some a ->
            session cfg int16 image_load scale_ok g a
            = snd (Engine.initialize_game cfg int16 image_load scale_ok g assets
                     (Engine_new (GAME_WIDTH cfg) (GAME_HEIGHT cfg)))) as Hs.
  { intros a Ha. now simplify_eq. }
  destruct (Engine.initialize_game _ _ _ _ _ _) as [[] e1]; [discriminate|].
  simpl. repeat split. intros a Ha. now rewrite (Hs a Ha).
Qed.

Lemma empty_levels_cannot_be_initialised_witness :
  g_levels no_level_game = Some [] /\
  fst (Server.initialize_game example_config md5_stub (fun _ _ => Stored) hex2
         (fun _ => true) (fun _ => true) scales no_level_game globals_empty)
  = Server.HttpError 500.
Proof.
  split; [reflexivity|].
  exact (proj1 (empty_levels_cannot_be_initialised example_config md5_stub
                  (fun _ _ => Stored) hex2 (fun _ => true) (fun _ => true) scales
                  no_level_game globals_empty eq_refl)).
Defined.

(** * From the description to the session *)

(** ** When initialisation raises *)








Lemma create_platform_assets int16 p s :
  assets (snd (create_platform int16 p s)) = assets s.
Proof. unfold create_platform. cbv zeta. now destruct (parse_color _ _ _). Qed.

Lemma create_platforms_assets int16 ps : forall s,
  assets (snd (create_platforms int16 ps s)) = assets s.
Proof.
  induction ps as [|p ps IH]; intros s; cbn [create_platforms]; [reflexivity|].
  pose proof (create_platform_assets int16 p s) as H1.
  destruct (create_platform int16 p s) as [[|] s1]; cbn [snd] in *; [|exact H1].
  now rewrite IH.
Qed.





(** ** The objects of the level *)

Lemma omap_modify {B} (g : GameObject -> option B) f i : forall h,
  (forall o, g (f o) = g o) -> omap g (modify i f h) = omap g h.
Proof.
  intros h Hg. unfold modify. revert i.
  induction h as [|x h IH]; intros [|i]; simpl; try reflexivity.
  - now rewrite Hg.
  - change (list_alter f i h) with (alter f i h). now rewrite IH.
Qed.

Lemma omap_ext_in {A B} (f g : A -> option B) (l : list A) :
  (forall x, x ∈ l -> f x = g x) -> omap f l = omap g l.
Proof.
  induction l as [|x l IH]; intros H; simpl; [reflexivity|].
  rewrite (H x) by left.
  assert (omap f l = omap g l) as E by (apply IH; intros y Hy; apply H; now right).
  destruct (g x); [f_equal|]; exact E.
Qed.

Lemma omap_indices {B} (f : GameObject -> B) (c : Class) (h : list GameObject) :
  omap (fun i => f <$> h !! i) (indices_of c h)
  = omap (fun o => if decide (class_of o = c) then Some (f o) else None) h.
Proof.
  induction h as [|o h IH] using rev_ind; [reflexivity|].
  rewrite indices_of_snoc, !omap_app, <- IH. f_equal.
  - apply omap_ext_in. intros i Hi.
    apply indices_of_spec in Hi as (o' & Ho' & _).
    rewrite lookup_app_l by (eapply lookup_lt_Some; eassumption). reflexivity.
  - simpl. destruct (decide (class_of o = c)); simpl; [|reflexivity].
    now rewrite list_lookup_middle.
Qed.

Lemma platform_box_class o :
  platform_box o
  = if decide (class_of o = CPlatform) then Some (static_box_of o) else None.
Proof. unfold platform_box, class_of. destruct (kind o); reflexivity. Qed.

Lemma recolor_level c o :
  platform_box (recolor c o) = platform_box o /\
  collectible_points (recolor c o) = collectible_points o.
Proof.
  unfold recolor. destruct (sprite o); [auto|]. split; reflexivity.
Qed.

Lemma place_entity_heap cfg scale_ok e s :
  omap platform_box (heap (snd (place_entity cfg scale_ok e s)))
  = omap platform_box (heap s) /\
  omap collectible_points (heap (snd (place_entity cfg scale_ok e s)))
  = omap collectible_points (heap s).
Proof.
  unfold place_entity. cbv zeta.
  destruct (decide _); [|destruct (_ || _)];
    try destruct (sprite_for _ _ _ _ _); simpl; rewrite ?omap_app; simpl;
    rewrite ?app_nil_r; auto.
Qed.

Lemma create_entity_heap cfg int16 scale_ok e s :
  omap platform_box (heap (snd (create_entity cfg int16 scale_ok e s)))
  = omap platform_box (heap s) /\
  omap collectible_points (heap (snd (create_entity cfg int16 scale_ok e s)))
  = omap collectible_points (heap s).
Proof.
  unfold create_entity.
  pose proof (place_entity_heap cfg scale_ok e s) as H.
  destruct (place_entity cfg scale_ok e s) as [[|] s1]; cbn [snd] in *; [|exact H].
  destruct (parse_color _ _ _) as [c|]; cbn [snd]; [|exact H].
  destruct (last _) as [i|]; [|exact H]. cbn [heap set_heap].
  rewrite !omap_modify by (intros o; apply recolor_level). exact H.
Qed.

Lemma create_entities_heap cfg int16 scale_ok es : forall s,
  omap platform_box (heap (snd (_create_entities cfg int16 scale_ok es s)))
  = omap platform_box (heap s) /\
  omap collectible_points (heap (snd (_create_entities cfg int16 scale_ok es s)))
  = omap collectible_points (heap s).
Proof.
  induction es as [|e es IH]; intros s; simpl; [auto|].
  pose proof (create_entity_heap cfg int16 scale_ok e s) as [H1 H2].
  destruct (create_entity cfg int16 scale_ok e s) as [[|] s1]; simpl in *; [|auto].
  destruct (IH s1) as [H3 H4]. split; congruence.
Qed.

Lemma create_platform_heap int16 p s s' :
  create_platform int16 p s = (true, s') ->
  omap platform_box (heap s') = (omap platform_box (heap s) ++ [box_of p])%list /\
  omap collectible_points (heap s') = omap collectible_points (heap s) /\
  space s' = space s.
Proof.
  unfold create_platform. cbv zeta.
  destruct (parse_color _ _ _) as [c|]; [|discriminate].
  intros H. injection H as <-.
  cbn [heap space set_all_objects set_platforms alloc set_heap].
  rewrite !omap_app. split; [|split]; [reflexivity| |reflexivity].
  cbn. now rewrite app_nil_r.
Qed.

Lemma create_platforms_heap int16 ps : forall s s',
  create_platforms int16 ps s = (true, s') ->
  omap platform_box (heap s') = (omap platform_box (heap s) ++ (box_of <$> ps))%list /\
  omap collectible_points (heap s') = omap collectible_points (heap s) /\
  space s' = space s.
Proof.
  induction ps as [|p ps IH]; intros s s' H; cbn [create_platforms] in H.
  - injection H as <-. rewrite app_nil_r. auto.
  - destruct (create_platform int16 p s) as [[|] s1] eqn:E; [|discriminate].
    apply create_platform_heap in E as (E1 & E2 & E3).
    apply IH in H as (H1 & H2 & H3).
    rewrite H1, H2, H3, E1, E2, E3, fmap_cons, <- app_assoc. auto.
Qed.

Lemma create_collectible_heap scale_ok c s s' :
  create_collectible scale_ok c s = (true, s') ->
  omap platform_box (heap s') = omap platform_box (heap s) /\
  omap collectible_points (heap s')
  = (omap collectible_points (heap s) ++ [default 10%Z (c_points c)])%list /\
  space s' = space s.
Proof.
  unfold create_collectible. cbv zeta.
  destruct (sprite_for _ _ _ _ _) as [sp|]; [|discriminate].
  intros H. injection H as <-.
  cbn [heap space set_all_objects set_collectibles alloc set_heap].
  rewrite !omap_app.
  destruct sp; (split; [|split]); try reflexivity; cbn; now rewrite app_nil_r.
Qed.

Lemma create_collectibles_heap scale_ok cs : forall s s',
  create_collectibles scale_ok cs s = (true, s') ->
  omap platform_box (heap s') = omap platform_box (heap s) /\
  omap collectible_points (heap s')
  = (omap collectible_points (heap s)
       ++ ((fun c => default 10%Z (c_points c)) <$> cs))%list /\
  space s' = space s.
Proof.
  induction cs as [|c cs IH]; intros s s' H; cbn [create_collectibles] in H.
  - injection H as <-. rewrite app_nil_r. auto.
  - destruct (create_collectible scale_ok c s) as [[|] s1] eqn:E; [|discriminate].
    apply create_collectible_heap in E as (E1 & E2 & E3).
    apply IH in H as (H1 & H2 & H3).
    rewrite H1, H2, H3, E1, E2, E3, fmap_cons, <- app_assoc. auto.
Qed.

Lemma setup_physics_heap s :
  platforms s = indices_of CPlatform (heap s) ->
  omap platform_box (heap (_setup_physics s)) = omap platform_box (heap s) /\
  omap collectible_points (heap (_setup_physics s)) = omap collectible_points (heap s) /\
  space (_setup_physics s) = (space s ++ omap platform_box (heap s))%list.
Proof.
  intros W4. unfold _setup_physics. cbv zeta.
  assert (omap (fun i => static_box_of <$> heap s !! i) (platforms s)
          = omap platform_box (heap s)) as Hb.
  { rewrite W4, omap_indices. apply omap_ext_in. intros o _.
    symmetry. apply platform_box_class. }
  cbn [player set_space]. destruct (player s) as [p|];
    cbn [heap space set_heap set_space]; rewrite Hb; [|auto].
  rewrite !omap_modify; [auto| |].
  - intros o. unfold set_player_attrs, collectible_points.
    destruct o as [? ? ? ? ? ? ? ? ? ? []]; reflexivity.
  - intros o. unfold set_player_attrs, platform_box.
    destruct o as [? ? ? ? ? ? ? ? ? ? []]; reflexivity.
Qed.

(** When [initialize_game] returns on a new engine, the level is built from
    the first level of the description and from nothing else: the Platform
    objects have, in order, the boxes of its platforms (position, and size
    with the defaults 100 x 20), the physics space holds exactly one static
    box per platform, centred on it, and the Collectible objects carry, in
    order, the points of its collectibles (10 by default). *)
Theorem level_is_built_from_the_first_level cfg int16 image_load scale_ok g paths w h s
    level_data :
  initialize_game cfg int16 image_load scale_ok g paths (Engine_new w h) = (true, s) ->
  first_level g = Some level_data ->
  omap platform_box (heap s) = box_of <$> l_platforms level_data /\
  space s = box_of <$> l_platforms level_data /\
  omap collectible_points (heap s)
  = (fun c => default 10%Z (c_points c)) <$> l_collectibles level_data.
Proof.
  unfold initialize_game. cbv zeta. intros H Hl.
  destruct (GameType_of _) as [gt|]; [|discriminate].
  set (s1 := _load_assets _ _ _ _) in H.
  assert (built scale_ok fresh (assets s1) s1 /\ complete s1) as [B1 K1].
  { split; [|reflexivity]. split; [|split; [reflexivity|]].
    - unfold well_formed. simpl. auto 10.
    - intros i o Ho. simpl in Ho. discriminate. }
  pose proof (built_create_entities scale_ok _ cfg int16 (g_entities g) s1 B1 K1)
    as [B2 K2].
  pose proof (create_entities_heap cfg int16 scale_ok (g_entities g) s1) as [P2 C2].
  pose proof (create_entities_level cfg int16 scale_ok (g_entities g) s1) as (_ & _ & S2).
  destruct (_create_entities cfg int16 scale_ok (g_entities g) s1) as [[|] s2];
    [|discriminate]. cbn [fst snd] in *. specialize (K2 eq_refl).
  rewrite Hl in H. unfold _create_level_objects in H.
  pose proof (built_create_platforms scale_ok _ int16 (l_platforms level_data) s2 B2 K2)
    as [B3 K3].
  destruct (create_platforms int16 (l_platforms level_data) s2) as [[|] s3] eqn:E3;
    [|discriminate]. cbn [snd] in *.
  apply create_platforms_heap in E3 as (P3 & C3 & S3).
  pose proof (built_create_collectibles scale_ok _ (l_collectibles level_data) s3 B3 K3)
    as [B4 _].
  destruct (create_collectibles scale_ok (l_collectibles level_data) s3)
    as [[|] s4] eqn:E4; [|discriminate]. cbn [snd] in *.
  apply create_collectibles_heap in E4 as (P4 & C4 & S4).
  destruct B4 as ((_ & _ & _ & _ & W4 & _) & _).
  destruct (setup_physics_heap s4 W4) as (P5 & C5 & S5).
  injection H as <-.
  rewrite P5, C5, S5, P4, C4, S4, P3, C3, S3, P2, C2, S2.
  subst s1. simpl. auto.
Qed.

Lemma level_is_built_from_the_first_level_witness :
  exists s,
    initialize_game example_config hex2 (fun _ => true) scales demo_game ∅
      (Engine_new 800 600) = (true, s) /\
    first_level demo_game = Some demo_level /\
    omap platform_box (heap s) = box_of <$> l_platforms demo_level /\
    space s = box_of <$> l_platforms demo_level /\
    omap collectible_points (heap s)
    = (fun c => default 10%Z (c_points c)) <$> l_collectibles demo_level.
Proof.
  assert (fst (initialize_game example_config hex2 (fun _ => true) scales demo_game ∅
                 (Engine_new 800 600)) = true) as Hok
    by (vm_compute; reflexivity).
  destruct (initialize_game example_config hex2 (fun _ => true) scales demo_game ∅
              (Engine_new 800 600)) as [ok s] eqn:E.
  simpl in Hok. subst ok. exists s. split; [reflexivity|].
  split; [reflexivity|].
  exact (level_is_built_from_the_first_level example_config hex2 (fun _ => true)
           scales demo_game ∅ 800%Z 600%Z s demo_level E eq_refl).
Defined.

(** ** render *)

(** In every state of a session [render] draws the objects of
    [all_objects] except the collectibles that have been collected, each
    once, in the order of creation. When initialisation returned, these are
    all the objects there are. When it raised, one object can be missing
    from [all_objects] and so is never drawn: the last one created, and it
    is the Player bound to [player]. *)
Theorem render_draws_all_but_the_collected cfg int16 image_load scale_ok colliderect
    space_step g paths actions :
  let s := run cfg colliderect space_step actions
             (session cfg int16 image_load scale_ok g paths) in
  let returned :=
    fst (initialize_game cfg int16 image_load scale_ok g paths
           (Engine_new (GAME_WIDTH cfg) (GAME_HEIGHT cfg))) in
  rendered s
  = List.filter (fun i => default false (uncollected <$> heap s !! i))
      (seq 0 (length (all_objects s))) /\
  all_objects s = seq 0 (length (all_objects s)) /\
  (returned = true -> length (all_objects s) = length (heap s)) /\
  (forall i, (i < length (heap s))%nat -> i ∉ all_objects s ->
     returned = false /\ i = length (all_objects s) /\ player s = Some i /\
     (i ∉ rendered s) /\
     exists o a, heap s !! i = Some o /\ kind o = KPlayer a).
Proof.
  intros s returned.
  destruct (running_built cfg int16 image_load scale_ok colliderect space_step g paths
              actions) as ((W0 & W1 & _ & _ & _ & W5) & _ & Hobj).
  fold s in W0, W1, W5, Hobj.
  assert (rendered s
          = List.filter (fun i => default false (uncollected <$> heap s !! i))
              (all_objects s)) as Hr.
  { unfold rendered. apply List.filter_ext_in. intros i _.
    destruct (heap s !! i) as [o|] eqn:Ho; [|reflexivity]. simpl.
    destruct (Hobj i o Ho) as (Hs & _). unfold sound in Hs. unfold uncollected.
    destruct (kind o) as [a|e|c|b].
    - apply Hs.
    - apply Hs.
    - rewrite Hs. now rewrite negb_involutive.
    - apply Hs. }
  split; [now rewrite Hr, <- W0|]. split; [exact W0|]. split.
  - intros Hret. symmetry.
    apply (running_complete cfg int16 image_load scale_ok colliderect space_step g paths
             actions Hret).
  - intros i Hi Hni.
    assert (~ (i < length (all_objects s))%nat) as Hge.
    { intros Hlt. apply Hni. rewrite W0. apply elem_of_seq. lia. }
    destruct W1 as [W1|[W1 Hp]]; [lia|].
    assert (i = length (all_objects s)) as Hi' by lia.
    split.
    { destruct returned eqn:Hret; [|reflexivity].
      pose proof (running_complete cfg int16 image_load scale_ok colliderect space_step
                    g paths actions Hret) as Hc.
      fold s in Hc. unfold complete in Hc. lia. }
    split; [exact Hi'|]. split; [now rewrite Hi'|]. split.
    { rewrite Hr. intros Hin. apply list_elem_of_In, filter_In in Hin as [Hin _].
      apply Hni, list_elem_of_In, Hin. }
    rewrite Hp in W5. symmetry in W5.
    apply last_Some_elem_of, indices_of_spec in W5 as (o & Ho & Hc).
    rewrite <- Hi' in Ho. unfold class_of in Hc.
    destruct (kind o) as [a| | |] eqn:Hk; try discriminate. eauto.
Qed.

(** ** From the pipeline to the sprites *)

Lemma pipeline_covers cfg md5 dalle int16 save_ok g m assets m' :
  generate_game_assets cfg md5 dalle int16 save_ok g m = (Some assets, m') ->
  forall e, e ∈ g_entities g ->
    exists n, e_name e = Some n /\ is_Some (assets !! n).
Proof.
  intros H. unfold generate_game_assets in H.
  destruct (_identify_priority_assets cfg g) as [reqs|]; [|discriminate].
  destruct (generate_priority cfg md5 dalle reqs ∅ (set_count 0 m)) as [assets1 m1].
  destruct (_get_remaining_entities (g_entities g) assets1) as [rem|] eqn:Er;
    [|discriminate].
  apply get_remaining_spec in Er as [Hcov _].
  apply generate_fallbacks_inv in H as (Hall & Hmono & _).
  intros e He. destruct (Hcov e He) as (n & Hn & [Hb|Hb]).
  - exists n. auto.
  - destruct (Hall e Hb) as (n' & Hn' & Hs). exists n'. auto.
Qed.

Lemma load_assets_lookup image_load scale_ok paths s n :
  assets s = ∅ -> (forall p, image_load p = true) ->
  assets (_load_assets image_load scale_ok paths s) !! n
  = if decide (n = "background") then None else Loaded <$> paths !! n.
Proof.
  intros He Hl. unfold _load_assets. cbv zeta. cbn [assets set_background set_assets].
  rewrite He, (right_id_L ∅ (∪)), lookup_omap.
  destruct (decide (n = "background")) as [-> | Hne].
  - now rewrite lookup_delete_eq.
  - rewrite lookup_delete_ne by congruence.
    destruct (paths !! n) as [p|]; simpl; [|reflexivity]. now rewrite Hl.
Qed.

Lemma recolor_character c o : character_name (recolor c o) = character_name o.
Proof. unfold recolor. now destruct (sprite o). Qed.

Lemma place_entity_names cfg scale_ok e s n :
  n ∈ omap character_name (heap (snd (place_entity cfg scale_ok e s))) ->
  n ∈ omap character_name (heap s) \/ n = default "unnamed" (e_name e).
Proof.
  unfold place_entity. cbv zeta.
  destruct (decide _); [|destruct (_ || _)];
    try destruct (sprite_for _ _ _ _ _); simpl; rewrite ?omap_app; simpl;
    rewrite ?elem_of_app, ?list_elem_of_singleton; tauto.
Qed.

Lemma create_entity_names cfg int16 scale_ok e s n :
  n ∈ omap character_name (heap (snd (create_entity cfg int16 scale_ok e s))) ->
  n ∈ omap character_name (heap s) \/ n = default "unnamed" (e_name e).
Proof.
  unfold create_entity.
  pose proof (place_entity_names cfg scale_ok e s n) as H1.
  destruct (place_entity cfg scale_ok e s) as [[|] s1]; cbn [snd] in *; [|exact H1].
  destruct (parse_color _ _ _) as [c|]; cbn [snd]; [|exact H1].
  destruct (last _) as [i|]; [|exact H1]. cbn [heap set_heap].
  rewrite omap_modify by (intros o; apply recolor_character). exact H1.
Qed.

Lemma create_entities_names cfg int16 scale_ok es : forall s n,
  n ∈ omap character_name (heap (snd (_create_entities cfg int16 scale_ok es s))) ->
  n ∈ omap character_name (heap s) \/
  exists e, e ∈ es /\ n = default "unnamed" (e_name e).
Proof.
  induction es as [|e es IH]; intros s n; simpl; [auto|].
  pose proof (create_entity_names cfg int16 scale_ok e s n) as H1.
  destruct (create_entity cfg int16 scale_ok e s) as [[|] s1]; simpl in *.
  - intros Hn. destruct (IH s1 n Hn) as [H|(e' & He' & ->)].
    + destruct (H1 H) as [Hx | ->]; [auto|]. right. exists e. split; [left|reflexivity].
    + right. exists e'. split; [now right|reflexivity].
  - intros Hn. destruct (H1 Hn) as [Hx | ->]; [auto|].
    right. exists e. split; [left|reflexivity].
Qed.

Lemma create_platform_names int16 p s :
  omap character_name (heap (snd (create_platform int16 p s)))
  = omap character_name (heap s).
Proof.
  unfold create_platform. cbv zeta.
  destruct (parse_color _ _ _) as [c|]; [|reflexivity].
  cbn [snd heap set_all_objects set_platforms alloc set_heap].
  rewrite omap_app. cbn. now rewrite app_nil_r.
Qed.

Lemma create_platforms_names int16 ps : forall s,
  omap character_name (heap (snd (create_platforms int16 ps s)))
  = omap character_name (heap s).
Proof.
  induction ps as [|p ps IH]; intros s; cbn [create_platforms]; [reflexivity|].
  pose proof (create_platform_names int16 p s) as H1.
  destruct (create_platform int16 p s) as [[|] s1]; cbn [snd] in *; [|exact H1].
  now rewrite IH.
Qed.

Lemma create_collectible_names scale_ok c s :
  omap character_name (heap (snd (create_collectible scale_ok c s)))
  = omap character_name (heap s) /\
  assets (snd (create_collectible scale_ok c s)) = assets s.
Proof.
  unfold create_collectible. cbv zeta.
  destruct (sprite_for _ _ _ _ _) as [sp|]; [|auto].
  cbn [snd heap assets set_all_objects set_collectibles alloc set_heap].
  rewrite omap_app. split; [|reflexivity].
  destruct sp; cbn; now rewrite app_nil_r.
Qed.

Lemma create_collectibles_names scale_ok cs : forall s,
  omap character_name (heap (snd (create_collectibles scale_ok cs s)))
  = omap character_name (heap s) /\
  assets (snd (create_collectibles scale_ok cs s)) = assets s.
Proof.
  induction cs as [|c cs IH]; intros s; cbn [create_collectibles]; [auto|].
  pose proof (create_collectible_names scale_ok c s) as [H1 H2].
  destruct (create_collectible scale_ok c s) as [[|] s1]; cbn [snd] in *; [|auto].
  destruct (IH s1) as [H3 H4]. split; congruence.
Qed.

Lemma setup_physics_names s :
  omap character_name (heap (_setup_physics s)) = omap character_name (heap s) /\
  assets (_setup_physics s) = assets s.
Proof.
  unfold _setup_physics. cbv zeta. cbn [player set_space].
  destruct (player s) as [p|]; cbn [heap assets set_heap set_space]; [|auto].
  split; [|reflexivity].
  apply omap_modify. intros o. unfold set_player_attrs, character_name.
  destruct o as [? ? ? ? ? ? ? ? ? ? []]; reflexivity.
Qed.

Section Sprites.

Context (cfg : Config) (int16 : string -> option Z) (image_load : string -> bool)
  (scale_ok : Z -> Z -> bool) (colliderect : Rect -> Rect -> bool)
  (space_step : float -> list StaticBox -> Body -> option Body).

(** The objects and the images of a session, as initialisation leaves them:
    no object when the game type is unknown; else the images loaded from the
    paths, and Players and Enemies named after entities. *)
Lemma session_characters g paths :
  (heap (session cfg int16 image_load scale_ok g paths) = [] \/
   exists s0, assets s0 = ∅ /\
     assets (session cfg int16 image_load scale_ok g paths)
     = assets (_load_assets image_load scale_ok paths s0)) /\
  forall n, n ∈ omap character_name (heap (session cfg int16 image_load scale_ok g paths)) ->
    exists e, e ∈ g_entities g /\ n = default "unnamed" (e_name e).
Proof.
  unfold session, initialize_game. cbv zeta.
  destruct (GameType_of _) as [gt|].
  2:{ split; [left; reflexivity|]. intros n Hn. inversion Hn. }
  set (s1 := _load_assets _ _ _ _).
  assert (forall n, n ∈ omap character_name (heap s1) -> False) as N1
    by (intros n Hn; inversion Hn).
  pose proof (create_entities_names cfg int16 scale_ok (g_entities g) s1) as N2.
  pose proof (create_entities_frame cfg int16 scale_ok (g_entities g) s1)
    as (_ & _ & _ & _ & A2).
  assert (forall s, assets s = assets s1 ->
            (forall n, n ∈ omap character_name (heap s) ->
               exists e, e ∈ g_entities g /\ n = default "unnamed" (e_name e)) ->
            (heap s = [] \/
             exists s0, assets s0 = ∅ /\
               assets s = assets (_load_assets image_load scale_ok paths s0)) /\
            forall n, n ∈ omap character_name (heap s) ->
              exists e, e ∈ g_entities g /\ n = default "unnamed" (e_name e)) as Hend.
  { intros s HA Hn. split; [|exact Hn]. right.
    eexists. split; [|rewrite HA; reflexivity]. reflexivity. }
  assert (forall n,
            n ∈ omap character_name
                  (heap (snd (_create_entities cfg int16 scale_ok (g_entities g) s1))) ->
            exists e, e ∈ g_entities g /\ n = default "unnamed" (e_name e)) as N2'.
  { intros n Hn. destruct (N2 n Hn) as [H|H]; [destruct (N1 n H)|exact H]. }
  destruct (_create_entities cfg int16 scale_ok (g_entities g) s1) as [[|] s2];
    cbn [snd] in *; [|now apply Hend].
  destruct (first_level g) as [level_data|]; [|now apply Hend].
  unfold _create_level_objects.
  pose proof (create_platforms_names int16 (l_platforms level_data) s2) as N3.
  pose proof (create_platforms_assets int16 (l_platforms level_data) s2) as A3.
  destruct (create_platforms int16 (l_platforms level_data) s2) as [[|] s3];
    cbn [snd] in *.
  2:{ apply Hend; [congruence|]. now rewrite N3. }
  pose proof (create_collectibles_names scale_ok (l_collectibles level_data) s3)
    as [N4 A4].
  destruct (create_collectibles scale_ok (l_collectibles level_data) s3) as [[|] s4];
    cbn [snd] in *.
  2:{ apply Hend; [congruence|]. now rewrite N4, N3. }
  destruct (setup_physics_names s4) as [N5 A5].
  apply Hend; [congruence|]. now rewrite N5, N4, N3.
Qed.

(** What the pipeline returns reaches the sprites. When
    [generate_game_assets] returned the dictionary the engine is initialised
    with and every image loads, then in every state of the session every
    Player and Enemy of [all_objects] has a sprite: the image the dictionary
    binds to its name, scaled to its width and height truncated to integers,
    a size [pygame.transform.scale] accepted; except one named 'background',
    which has no sprite, for that image is taken as the backdrop. The Player
    that a raise of initialisation left out of [all_objects] has no sprite. *)
Theorem pipeline_images_become_sprites md5 dalle save_ok g m paths m' actions :
  generate_game_assets cfg md5 dalle int16 save_ok g m = (Some paths, m') ->
  (forall p, image_load p = true) ->
  let s := run cfg colliderect space_step actions
             (session cfg int16 image_load scale_ok g paths) in
  forall i o,
    heap s !! i = Some o -> is_Some (character_name o) ->
    (i ∈ all_objects s ->
     if decide (o_name o = "background") then sprite o = None
     else exists path w h,
            paths !! o_name o = Some path /\
            int_of_float (o_width o) = Some w /\
            int_of_float (o_height o) = Some h /\ scale_ok w h = true /\
            sprite o = Some (Scaled (Loaded path) w h)) /\
    (i ∉ all_objects s ->
     sprite o = None /\ player s = Some i /\
     fst (initialize_game cfg int16 image_load scale_ok g paths
            (Engine_new (GAME_WIDTH cfg) (GAME_HEIGHT cfg))) = false).
Proof.
  intros Hg Hl s i o Ho Hc.
  destruct (running_built cfg int16 image_load scale_ok colliderect space_step g paths
              actions) as ((W0 & W1 & _) & _ & Hobj).
  fold s in W0, W1, Hobj.
  destruct (Hobj i o Ho) as (_ & [Hrule Hout] & _). split.
  - intros Hin. specialize (Hrule Hin).
    pose proof (run_steady cfg colliderect space_step actions
                  (session cfg int16 image_load scale_ok g paths)) as [Hlen Hrel].
    fold s in Hlen, Hrel.
    assert (assets s = assets (session cfg int16 image_load scale_ok g paths)) as HA.
    { pose proof (run_layout cfg colliderect space_step actions
                    (session cfg int16 image_load scale_ok g paths)) as Hlay.
      fold s in Hlay. unfold layout in Hlay. now simplify_eq. }
    destruct (heap (session cfg int16 image_load scale_ok g paths) !! i) as [o0|] eqn:Ho0.
    2:{ apply lookup_ge_None in Ho0. apply lookup_lt_Some in Ho. lia. }
    destruct (Hrel i o0 Ho0) as (o' & Ho' & [(Hn & _ & _ & _ & _ & Hk) _]).
    rewrite Ho in Ho'. injection Ho' as <-.
    assert (character_name o0 = Some (o_name o)) as Hc0.
    { unfold character_name in *. rewrite <- Hn.
      destruct (kind o0), (kind o); try tauto; destruct Hc; discriminate. }
    destruct (session_characters g paths) as [Hassets Hnames].
    destruct (Hnames (o_name o)) as (e & He & Hname).
    { apply list_elem_of_omap. exists o0. split; [|exact Hc0].
      eapply list_elem_of_lookup_2. exact Ho0. }
    destruct (pipeline_covers _ _ _ _ _ _ _ _ _ Hg e He) as (n & Hen & [path Hpath]).
    rewrite Hen in Hname. simpl in Hname. subst n.
    destruct Hassets as [Hnil|(s0 & Hs0 & Hload)].
    { rewrite Hnil in Ho0. discriminate. }
    assert (sprite_from scale_ok (assets s) (o_name o) o) as Hfrom.
    { unfold sprite_rule in Hrule. unfold character_name in Hc. destruct Hc as [x Hx].
      destruct (kind o); try discriminate; exact Hrule. }
    unfold sprite_from in Hfrom. rewrite HA, Hload in Hfrom.
    rewrite (load_assets_lookup image_load scale_ok paths s0 _ Hs0 Hl) in Hfrom.
    destruct (decide (o_name o = "background")) as [Hb|Hb]; [exact Hfrom|].
    rewrite Hpath in Hfrom. simpl in Hfrom.
    destruct Hfrom as (w & h & Hw & Hh & Hs & Hsp). exists path, w, h. auto.
  - intros Hni. split; [now apply Hout|].
    assert (~ (i < length (all_objects s))%nat) as Hge.
    { intros Hlt. apply Hni. rewrite W0. apply elem_of_seq. lia. }
    apply lookup_lt_Some in Ho.
    destruct W1 as [W1|[W1 Hp]]; [lia|].
    split; [rewrite Hp; f_equal; lia|].
    destruct (fst (initialize_game cfg int16 image_load scale_ok g paths
                     (Engine_new (GAME_WIDTH cfg) (GAME_HEIGHT cfg)))) eqn:Hret;
      [|reflexivity].
    pose proof (running_complete cfg int16 image_load scale_ok colliderect space_step
                  g paths actions Hret) as Hcomp.
    fold s in Hcomp. unfold complete in Hcomp. lia.
Qed.

End Sprites.

Lemma pipeline_images_become_sprites_witness :
  exists paths m' o,
    generate_game_assets example_config md5_stub (fun _ _ => PostRaises) hex2
      (fun _ => true) demo_game manager_empty = (Some paths, m') /\
    heap (run example_config overlap free_fall [Update frame_dt]
            (session example_config hex2 (fun _ => true) scales demo_game paths)) !! 0%nat
    = Some o /\
    character_name o = Some "player" /\
    0%nat ∈ all_objects
              (run example_config overlap free_fall [Update frame_dt]
                 (session example_config hex2 (fun _ => true) scales demo_game paths)) /\
    if decide (o_name o = "background") then sprite o = None
    else exists path w h,
           paths !! o_name o = Some path /\
           int_of_float (o_width o) = Some w /\
           int_of_float (o_height o) = Some h /\ scales w h = true /\
           sprite o = Some (Scaled (Loaded path) w h).
Proof.
  destruct (generate_game_assets example_config md5_stub (fun _ _ => PostRaises) hex2
              (fun _ => true) demo_game manager_empty) as [r m'] eqn:E.
  assert (exists paths, r = Some paths) as [paths ->].
  { replace r with (fst (generate_game_assets example_config md5_stub
                           (fun _ _ => PostRaises) hex2 (fun _ => true) demo_game
                           manager_empty)) by now rewrite E.
    vm_compute. eexists. reflexivity. }
  assert (exists o,
            heap (run example_config overlap free_fall [Update frame_dt]
                    (session example_config hex2 (fun _ => true) scales demo_game paths))
              !! 0%nat = Some o /\
            character_name o = Some "player" /\
            0%nat ∈ all_objects
                      (run example_config overlap free_fall [Update frame_dt]
                         (session example_config hex2 (fun _ => true) scales
                            demo_game paths))) as (o & Ho & Hc & Hin).
  { replace paths with (default ∅ (fst (generate_game_assets example_config md5_stub
                           (fun _ _ => PostRaises) hex2 (fun _ => true) demo_game
                           manager_empty))) by now rewrite E.
    vm_compute. eexists. split; [reflexivity|]. split; [reflexivity|]. left. }
  exists paths, m', o. split; [reflexivity|]. split; [exact Ho|]. split; [exact Hc|].
  split; [exact Hin|].
  exact (proj1 (pipeline_images_become_sprites example_config hex2 (fun _ => true)
                  scales overlap free_fall md5_stub (fun _ _ => PostRaises)
                  (fun _ => true) demo_game manager_empty paths m' [Update frame_dt] E
                  (fun _ => eq_refl) 0%nat o Ho (ex_intro _ "player" Hc)) Hin).
Defined.

(** * Calls that raise *)

(** A player of infinite width whose image is loaded: [initialize_game]
    raises while the sprite is scaled, and leaves the Player bound to
    [player], without a sprite and in no list; nothing is drawn. *)
Lemma player_left_out :
  let r := initialize_game example_config hex2 (fun _ => true) scales endless_game
             {[ "player" := "player.png" ]} (Engine_new 800 600) in
  fst r = false /\ sprite <$> heap (snd r) = [None] /\ all_objects (snd r) = [] /\
  player (snd r) = Some 0%nat /\ rendered (snd r) = [].
Proof. vm_compute. repeat split. Qed.

(** A step of the space that raises: [update] has advanced the clock and
    has updated no object. *)
Lemma update_raises :
  let s := session_of demo_game in
  let r := update overlap failing_step frame_dt s in
  fst r = false /\ heap (snd r) = heap s /\
  time (game_state (snd r)) = (time (game_state s) + frame_dt)%float.
Proof. vm_compute. repeat split. Qed.
